(** * doc-processor: the diagram and document editing core

    A shallow embedding of the text engines of the repository:
    - [utils/workflowGenerator.js]  ([validateAndFixMermaidSyntax]),
    - [utils/workflowEditor.js]     ([parseMermaidDiagram] and the mutators),
    - [utils/metricsProcessor.js]   ([parseTimeToMinutes],
      [formatMinutesToTime], [mergeMetrics], [calculateTimeSavings]),
    - [utils/documentEditor.js]     ([parseDocumentContent],
      [updateDocumentCell], [addDocumentRow], [removeDocumentRow]),
    - [components/WorkflowEditor.jsx] ([setupNewRow], the id proposal,
      [handleDefineImplicitNode]),
    - [pages/api/optimize-process.js] ([ensureEndNodeConsistency]).

    Conventions of the model.
    - A JavaScript string is a [string]: a sequence of code units, each
      below 256.  [\s] and [trim] use the white space of that range
      (tab, line feed, vertical tab, form feed, carriage return, space,
      no-break space); line terminators are line feed and carriage return.
    - Regular expressions are terms of [RegExp.re], run by a backtracking
      matcher with the priorities of the language: leftmost start, the
      first alternative first, greedy or lazy repetition, an iteration
      that consumes nothing is refused.
    - A thrown [Error] is the [Err] branch of a result.
    - The [nodes] object of the parser is a finite map from ids to
      records (own properties only).
    - Numbers of minutes are exact rationals. *)

From Stdlib Require Import ZArith QArith Qround Lia Lqa Sorted Bool Ascii String.
From stdpp Require Import base option list strings gmap.

Local Open Scope string_scope.
Local Open Scope list_scope.
Set Default Proof Using "Type".

(** ** Characters *)

Module Chr.

Definition code (c : ascii) : nat := nat_of_ascii c.

Definition in_range (lo hi : nat) (c : ascii) : bool :=
  (lo <=? code c)%nat && (code c <=? hi)%nat.

Definition is_code (n : nat) (c : ascii) : bool := (code c =? n)%nat.

Definition eqb (a b : ascii) : bool := Ascii.eqb a b.

Definition digit : ascii -> bool := in_range 48 57.
Definition upper : ascii -> bool := in_range 65 90.
Definition lower : ascii -> bool := in_range 97 122.

(** [\w], that is [[A-Za-z0-9_]] *)
Definition word (c : ascii) : bool := upper c || lower c || digit c || is_code 95 c.

(** [\s]: white space and line terminators among the code units below 256 *)
Definition space (c : ascii) : bool := in_range 9 13 c || is_code 32 c || is_code 160 c.

Definition line_terminator (c : ascii) : bool := is_code 10 c || is_code 13 c.

(** [toUpperCase] and [toLowerCase] of one code unit, when the result
    stays below 256 (otherwise the unit is kept: 181 and 255 go out of
    range, 223 becomes two units). *)
Definition to_upper (c : ascii) : ascii :=
  if lower c then ascii_of_nat (code c - 32)
  else if (in_range 224 254 c) && negb (is_code 247 c) then ascii_of_nat (code c - 32)
  else c.

Definition to_lower (c : ascii) : ascii :=
  if upper c then ascii_of_nat (code c + 32)
  else if (in_range 192 222 c) && negb (is_code 215 c) then ascii_of_nat (code c + 32)
  else c.

(** Canonicalize of the [i] flag: the upper case of the unit, except
    that a unit from 128 up never folds onto one below 128. *)
Definition canon (c : ascii) : ascii := to_upper c.

End Chr.

(** ** Lists of code units *)

Definition chars := list ascii.

Definition s2l (s : string) : chars := list_ascii_of_string s.
Definition l2s (l : chars) : string := string_of_list_ascii l.

Fixpoint chars_eqb (a b : chars) : bool :=
  match a, b with
  | [], [] => true
  | x :: a', y :: b' => Chr.eqb x y && chars_eqb a' b'
  | _, _ => false
  end.

(** [strip_prefix eq p l]: the rest of [l] after the prefix [p], units
    compared with [eq] *)
Fixpoint strip_prefix (eq : ascii -> ascii -> bool) (p l : chars) : option chars :=
  match p with
  | [] => Some l
  | x :: p' =>
      match l with
      | [] => None
      | y :: l' => if eq x y then strip_prefix eq p' l' else None
      end
  end.

(** ** Regular expressions *)

Module RegExp.

Inductive re : Type :=
| Eps                                  (* the empty pattern *)
| Cls (p : ascii -> bool)              (* one unit of a class *)
| Lit (s : string)                     (* literal text *)
| Seq (a b : re)                       (* ab *)
| Alt (a b : re)                       (* a|b *)
| Star (greedy : bool) (a : re)        (* a* and a*? *)
| Grp (n : nat) (a : re)               (* the n-th capturing group *)
| Ref (n : nat)                        (* \n *)
| Bol                                  (* ^ *)
| Eol                                  (* $ *)
| Wb                                   (* \b *)
| NLook (a : re).                      (* (?!a) *)

Record flags := Flags { icase : bool; multiline : bool }.

Definition no_flags := Flags false false.
Definition flag_i := Flags true false.
Definition flag_m := Flags false true.

(** Position in the subject: the unit before, the index, what is left. *)
Record st := St { prev : option ascii; pos : nat; rest : chars }.

Definition start (l : chars) : st := St None 0 l.

Definition step (s : st) : option (ascii * st) :=
  match rest s with
  | [] => None
  | x :: r => Some (x, St (Some x) (S (pos s)) r)
  end.

Fixpoint advance (n : nat) (s : st) : st :=
  match n with
  | 0 => s
  | S n' => match step s with
            | Some (_, s') => advance n' s'
            | None => s
            end
  end.

Definition caps := list (option chars).

Fixpoint set_cap (n : nat) (v : chars) (c : caps) : caps :=
  match n, c with
  | 0, [] => [Some v]
  | 0, _ :: c' => Some v :: c'
  | S n', [] => None :: set_cap n' v []
  | S n', x :: c' => x :: set_cap n' v c'
  end.

Definition get_cap (n : nat) (c : caps) : option chars :=
  match c !! n with
  | Some (Some v) => Some v
  | _ => None
  end.

Definition unit_eq (f : flags) (a b : ascii) : bool :=
  if icase f then Chr.eqb (Chr.canon a) (Chr.canon b) else Chr.eqb a b.

Definition in_class (f : flags) (p : ascii -> bool) (c : ascii) : bool :=
  if icase f then p c || p (Chr.to_upper c) || p (Chr.to_lower c) else p c.

Definition is_word (o : option ascii) : bool :=
  match o with Some c => Chr.word c | None => false end.

Definition is_lt (o : option ascii) : bool :=
  match o with Some c => Chr.line_terminator c | None => false end.

Definition cont := st -> caps -> option (st * caps).

Section Matcher.
Variable f : flags.

(** A repetition, the matcher [body] of the repeated pattern being
    given.  Each round must consume something; a greedy repetition
    tries one more round before it goes on, a lazy one goes on first.
    The fuel is the number of units left plus one, and never runs
    out. *)
Fixpoint repeat_loop (body : cont -> cont) (greedy : bool) (k : cont)
    (fuel : nat) (s : st) (c : caps) {struct fuel} : option (st * caps) :=
  match fuel with
  | 0 => k s c
  | S fuel' =>
      let again :=
        body (fun s' c' =>
                if (pos s' =? pos s)%nat then None
                else repeat_loop body greedy k fuel' s' c') s c in
      if greedy then
        match again with
        | Some x => Some x
        | None => k s c
        end
      else
        match k s c with
        | Some x => Some x
        | None => again
        end
  end.

(** The matcher, in continuation-passing style: [m r k s c] matches
    [r] at [s] and hands the position reached to [k]; [None] makes
    the nearest choice point try its next option. *)
Fixpoint m (r : re) (k : cont) (s : st) (c : caps) {struct r} : option (st * caps) :=
  match r with
  | Eps => k s c
  | Cls p =>
      match step s with
      | Some (x, s') => if in_class f p x then k s' c else None
      | None => None
      end
  | Lit l =>
      match strip_prefix (unit_eq f) (s2l l) (rest s) with
      | Some _ => k (advance (String.length l) s) c
      | None => None
      end
  | Seq a b => m a (fun s' c' => m b k s' c') s c
  | Alt a b =>
      match m a k s c with
      | Some x => Some x
      | None => m b k s c
      end
  | Star greedy a => repeat_loop (m a) greedy k (S (length (rest s))) s c
  | Grp n a =>
      m a (fun s' c' => k s' (set_cap n (take (pos s' - pos s) (rest s)) c')) s c
  | Ref n =>
      match get_cap n c with
      | None => k s c
      | Some v =>
          match strip_prefix (unit_eq f) v (rest s) with
          | Some _ => k (advance (length v) s) c
          | None => None
          end
      end
  | Bol =>
      if (pos s =? 0)%nat || (multiline f && is_lt (prev s)) then k s c else None
  | Eol =>
      match rest s with
      | [] => k s c
      | x :: _ => if multiline f && Chr.line_terminator x then k s c else None
      end
  | Wb =>
      if xorb (is_word (prev s)) (is_word (head (rest s))) then k s c else None
  | NLook a =>
      match m a (fun s' c' => Some (s', c')) s c with
      | Some _ => None
      | None => k s c
      end
  end.

(** One attempt at a fixed start. *)
Definition match_at (r : re) (s : st) : option (st * caps) :=
  m r (fun s' c' => Some (s', c')) s [].

(** The leftmost match at or after [s]: where it starts, where it
    ends, the captures. *)
Fixpoint search_from (r : re) (p : option ascii) (i : nat) (l : chars)
  : option (st * st * caps) :=
  match match_at r (St p i l) with
  | Some (e, c) => Some (St p i l, e, c)
  | None =>
      match l with
      | [] => None
      | x :: l' => search_from r (Some x) (S i) l'
      end
  end.

Definition search (r : re) (s : st) : option (st * st * caps) :=
  search_from r (prev s) (pos s) (rest s).

End Matcher.

(** The text matched between two positions. *)
Definition matched (b e : st) : chars := take (pos e - pos b) (rest b).

(** [RegExp.prototype.test] *)
Definition test (f : flags) (r : re) (s : string) : bool :=
  match search f r (start (s2l s)) with Some _ => true | None => false end.

(** [String.prototype.match] without the [g] flag: the index, the
    match, and the groups 1 to [ngroups] ([None] when a group did not
    take part). *)
Record result := Result { index : nat; whole : string; groups : list (option string) }.

Definition group (n : nat) (r : result) : string :=
  match groups r !! (n - 1) with
  | Some (Some v) => v
  | _ => ""
  end.

Definition mk_result (b e : st) (c : caps) : result :=
  Result (pos b) (l2s (matched b e)) (map (option_map l2s) (drop 1 c)).

Definition exec (f : flags) (r : re) (s : string) : option result :=
  match search f r (start (s2l s)) with
  | Some (b, e, c) => Some (mk_result b e c)
  | None => None
  end.

End RegExp.

(** ** Strings of the language *)

Module Js.

Definition nl : ascii := ascii_of_nat 10.
Definition dq : ascii := ascii_of_nat 34.

(** The one-unit strings for a line feed and for a double quote. *)
Definition NL : string := String nl EmptyString.
Definition Q : string := String dq EmptyString.

(** [quoted s] is [s] between double quotes. *)
Definition quoted (s : string) : string := Q +:+ s +:+ Q.

(** [String.prototype.trim] *)
Fixpoint trim_start (l : chars) : chars :=
  match l with
  | x :: l' => if Chr.space x then trim_start l' else l
  | [] => []
  end.

Definition trim_chars (l : chars) : chars :=
  reverse (trim_start (reverse (trim_start l))).

Definition trim (s : string) : string := l2s (trim_chars (s2l s)).

(** [s.split('\n')]: never empty, the pieces hold no line feed *)
Fixpoint split_nl (l : chars) : list chars :=
  match l with
  | [] => [[]]
  | x :: l' =>
      if Chr.eqb x nl then [] :: split_nl l'
      else match split_nl l' with
           | p :: ps => (x :: p) :: ps
           | [] => [[x]]
           end
  end.

Definition split_lines (s : string) : list string := map l2s (split_nl (s2l s)).

(** [a.join('\n')] *)
Fixpoint join_lines (l : list string) : string :=
  match l with
  | [] => EmptyString
  | [x] => x
  | x :: l' => x +:+ NL +:+ join_lines l'
  end.

(** [s.startsWith(p)] and [s.includes(p)] *)
Definition starts_with (p s : string) : bool :=
  match strip_prefix Chr.eqb (s2l p) (s2l s) with Some _ => true | None => false end.

Fixpoint find_sub (p l : chars) (i : nat) : option (nat * chars) :=
  match strip_prefix Chr.eqb p l with
  | Some r => Some (i, r)
  | None => match l with
            | [] => None
            | _ :: l' => find_sub p l' (S i)
            end
  end.

Definition includes (p s : string) : bool :=
  match find_sub (s2l p) (s2l s) 0 with Some _ => true | None => false end.

(** [s.toLowerCase()] *)
Definition to_lower_case (s : string) : string := l2s (map Chr.to_lower (s2l s)).

(** The decimal digits of a natural number, as [String(n)] prints it. *)
Definition digit_char (n : nat) : ascii := ascii_of_nat (48 + n).

Fixpoint nat_digits (fuel n : nat) (acc : chars) : chars :=
  match fuel with
  | 0 => acc
  | S fuel' =>
      let acc' := digit_char (n mod 10) :: acc in
      if (n <? 10)%nat then acc' else nat_digits fuel' (n / 10) acc'
  end.

Definition string_of_nat (n : nat) : string := l2s (nat_digits (S n) n []).

Definition string_of_Z (z : Z) : string :=
  match z with
  | Zneg p => "-" +:+ string_of_nat (Pos.to_nat p)
  | _ => string_of_nat (Z.to_nat z)
  end.

(** *** Replacement templates: [GetSubstitution]

    [ngroups] is the number of capturing groups of the pattern (0 for
    a string pattern), [before] and [after] the text around the match. *)
Definition digit_val (c : ascii) : option nat :=
  if Chr.digit c then Some (Chr.code c - 48) else None.

Definition cap_text (n : nat) (c : RegExp.caps) : chars :=
  match RegExp.get_cap n c with Some v => v | None => [] end.

Section Substitution.
Variables (ngroups : nat) (matched before after : chars) (c : RegExp.caps).

Definition in_groups (n : nat) : bool := (1 <=? n)%nat && (n <=? ngroups)%nat.

Fixpoint get_substitution (t : chars) : chars :=
  match t with
  | [] => []
  | x :: t1 =>
      if negb (Chr.is_code 36 x) then x :: get_substitution t1
      else
        match t1 with
        | [] => [x]
        | d :: t2 =>
            if Chr.is_code 36 d then x :: get_substitution t2          (* $$ *)
            else if Chr.is_code 38 d then matched ++ get_substitution t2  (* $& *)
            else if Chr.is_code 96 d then before ++ get_substitution t2   (* $` *)
            else if Chr.is_code 39 d then after ++ get_substitution t2    (* $' *)
            else
              match digit_val d with
              | None => x :: get_substitution t1
              | Some n1 =>
                  let one :=
                    if in_groups n1 then cap_text n1 c ++ get_substitution t2
                    else x :: d :: get_substitution t2 in
                  match t2 with
                  | d2 :: t3 =>
                      match digit_val d2 with
                      | Some n2 =>
                          let n := 10 * n1 + n2 in
                          if (ngroups <? n)%nat then one
                          else if in_groups n then cap_text n c ++ get_substitution t3
                          else x :: d :: d2 :: get_substitution t3
                      | None => one
                      end
                  | [] => one
                  end
              end
        end
  end.
End Substitution.

(** The replacement text for the match from [b] to [e]. *)
Definition expand (ngroups : nat) (tmpl : string) (whole : chars)
    (b e : RegExp.st) (c : RegExp.caps) : chars :=
  get_substitution ngroups (RegExp.matched b e) (take (RegExp.pos b) whole)
    (RegExp.rest e) c (s2l tmpl).

(** [s.replace(/r/, tmpl)]: the first match only *)
Definition replace_re (f : RegExp.flags) (r : RegExp.re) (ngroups : nat)
    (tmpl : string) (s : string) : string :=
  let l := s2l s in
  match RegExp.search f r (RegExp.start l) with
  | None => s
  | Some (b, e, c) =>
      l2s (take (RegExp.pos b) l ++ expand ngroups tmpl l b e c ++ RegExp.rest e)
  end.

(** [s.replace(/r/g, tmpl)]: every match, left to right; after an empty
    match the next unit is copied and the search goes on behind it. *)
Fixpoint replace_loop (fuel : nat) (f : RegExp.flags) (r : RegExp.re)
    (ngroups : nat) (tmpl : string) (whole : chars) (s : RegExp.st) : chars :=
  match fuel with
  | 0 => RegExp.rest s
  | S fuel' =>
      match RegExp.search f r s with
      | None => RegExp.rest s
      | Some (b, e, c) =>
          take (RegExp.pos b - RegExp.pos s) (RegExp.rest s)
            ++ expand ngroups tmpl whole b e c
            ++ (if (RegExp.pos e =? RegExp.pos b)%nat then
                  match RegExp.step e with
                  | Some (x, e') => x :: replace_loop fuel' f r ngroups tmpl whole e'
                  | None => []
                  end
                else replace_loop fuel' f r ngroups tmpl whole e)
      end
  end.

Definition replace_all_re (f : RegExp.flags) (r : RegExp.re) (ngroups : nat)
    (tmpl : string) (s : string) : string :=
  let l := s2l s in
  l2s (replace_loop (S (length l)) f r ngroups tmpl l (RegExp.start l)).

(** [s.replace(pat, tmpl)] with a string pattern: the first occurrence *)
Definition replace_str (pat tmpl s : string) : string :=
  let l := s2l s in
  match find_sub (s2l pat) l 0 with
  | None => s
  | Some (i, r) =>
      l2s (take i l ++ get_substitution 0 (s2l pat) (take i l) r [] (s2l tmpl) ++ r)
  end.

End Js.

(** ** Pattern combinators *)

Module Pat.
Import RegExp.

Definition star (a : re) : re := Star true a.
Definition lazy_star (a : re) : re := Star false a.
Definition plus (a : re) : re := Seq a (Star true a).
Definition opt (a : re) : re := Alt a Eps.

Fixpoint seqs (l : list re) : re :=
  match l with
  | [] => Eps
  | [a] => a
  | a :: l' => Seq a (seqs l')
  end.

Fixpoint alts (l : list re) : re :=
  match l with
  | [] => Eps
  | [a] => a
  | a :: l' => Alt a (alts l')
  end.

Definition mem (c : ascii) (s : string) : bool := existsb (Chr.eqb c) (s2l s).

(** [[abc]] and [[^abc]] *)
Definition oneof (s : string) : re := Cls (fun c => mem c s).
Definition noneof (s : string) : re := Cls (fun c => negb (mem c s)).

Definition ws : re := Cls Chr.space.              (* \s *)
Definition digit : re := Cls Chr.digit.           (* \d *)
Definition idc : re := Cls Chr.word.              (* [A-Za-z0-9_] *)
Definition ident : re := plus idc.                (* [A-Za-z0-9_]+ *)
Definition dot : re := Cls (fun c => negb (Chr.line_terminator c)).  (* . *)
Definition quote : re := Lit Js.Q.                (* the double quote *)
Definition not_quote : re := Cls (fun c => negb (Chr.eqb c Js.dq)).  (* any unit but the double quote *)

End Pat.

(** ** What a call comes to *)

(** The new text, or a thrown error.  [Error] carries the message of a
    [throw new Error(...)]; [TypeError] is the engine's error for a
    method call on [undefined], [SyntaxError] its error for a pattern
    text it cannot read. *)
Inductive error := Error (message : string) | TypeError | SyntaxError.
Inductive outcome := Returned (source : string) | Thrown (e : error).

(** ** The syntax validator: [utils/workflowGenerator.js] *)

Module Validator.
Import RegExp Pat.

(** [/^graph\s+(TD|LR|RL|BT)/i] *)
Definition re_graph : re :=
  seqs [Bol; Lit "graph"; plus ws; Grp 1 (alts [Lit "TD"; Lit "LR"; Lit "RL"; Lit "BT"])].

(** [/-+>/g] *)
Definition re_arrow : re := Seq (plus (Lit "-")) (Lit ">").

(** [/--[^>]/g] *)
Definition re_dashes : re := Seq (Lit "--") (noneof ">").

(** [/<br\s*\/?>/gi] *)
Definition re_br : re := seqs [Lit "<br"; star ws; opt (Lit "/"); Lit ">"].

(** [/<[^>]+>/g] *)
Definition re_tag : re := seqs [Lit "<"; plus (noneof ">"); Lit ">"].

(** [/'/g] *)
Definition re_squote : re := Lit "'".

(** The class of the two quote characters, as the file has it: both
    are the plain double quote. *)
Definition re_quotes : re := oneof (Js.Q +:+ Js.Q).

(** [/,\s*\]/g] *)
Definition re_trailing_comma : re := seqs [Lit ","; star ws; Lit "]"].

(** A unit that is neither a double quote nor a closing bracket. *)
Definition no_quote_bracket : re := noneof (Js.Q +:+ "]").

(** An opening bracket, a group of such units with white space inside,
    a closing bracket (the rule that quotes labels with spaces). *)
Definition re_unquoted_label : re :=
  seqs [Lit "[";
        Grp 1 (seqs [plus no_quote_bracket; plus ws; plus no_quote_bracket]);
        Lit "]"].

(** id, bracket, quoted label, bracket, with optional white space *)
Definition re_node_def : re :=
  seqs [Grp 1 ident; star ws; Lit "["; star ws; quote;
        Grp 2 (plus not_quote); quote; star ws; Lit "]"].

(** A node definition at the start of a line followed by itself
    (flags g and m). *)
Definition re_duplicate : re :=
  seqs [Bol;
        Grp 1 (seqs [star ws; ident; Lit "["; quote; plus not_quote; quote; Lit "]"]);
        star ws; Ref 1].

(** [/^([A-Za-z0-9_]+)(?:\[|\(|\{)/] *)
Definition re_node_start : re :=
  seqs [Bol; Grp 1 ident; alts [Lit "["; Lit "("; Lit "{"]].

(** [/endNode/] *)
Definition re_endNode : re := Lit "endNode".

(** [/\[[^\]]+\]/] *)
Definition re_box : re := seqs [Lit "["; plus (noneof "]"); Lit "]"].

(** id, brace, quoted label, brace, with optional white space *)
Definition re_decision : re :=
  seqs [Grp 1 ident; star ws; Lit "{"; star ws; quote;
        Grp 2 (plus not_quote); quote; star ws; Lit "}"].

(** An arrow label between bars whose last unit is no double quote. *)
Definition re_condition : re :=
  seqs [Lit "-->|"; Grp 1 (Seq (star (noneof "|")) (noneof ("|" +:+ Js.Q))); Lit "|"].

(** A line that is [endNode] alone, its indentation captured (flags g
    and m). *)
Definition re_endNode_line : re :=
  seqs [Bol; Grp 1 (star ws); Lit "endNode"; star ws; Eol].

(** [/\bendNode\b(?!\s*$)/g] *)
Definition re_endNode_flow : re :=
  seqs [Wb; Lit "endNode"; Wb; NLook (Seq (star ws) Eol)].

Definition placeholder : string := "graph TD" +:+ Js.NL +:+ "A[No diagram available]".

Definition default_nodes : string :=
  Js.NL +:+ "A[" +:+ Js.quoted "Process Start" +:+ "] --> B["
        +:+ Js.quoted "Process End" +:+ "]".

(** The chain of rewrites before the line passes. *)
Definition rewrite_first (fixed : string) : string :=
  let fixed := Js.replace_all_re no_flags re_arrow 0 "-->" fixed in
  let fixed := Js.replace_all_re no_flags re_dashes 0 "-->" fixed in
  let fixed := Js.replace_all_re flag_i re_br 0 " " fixed in
  let fixed := Js.replace_all_re no_flags re_tag 0 EmptyString fixed in
  let fixed := Js.replace_all_re no_flags re_squote 0 Js.Q fixed in
  let fixed := Js.replace_all_re no_flags re_quotes 0 Js.Q fixed in
  let fixed := Js.replace_all_re no_flags re_trailing_comma 0 "]" fixed in
  let fixed := Js.replace_all_re no_flags re_unquoted_label 1
                 ("[" +:+ Js.quoted "$1" +:+ "]") fixed in
  let fixed := Js.replace_all_re no_flags re_node_def 2
                 ("$1[" +:+ Js.quoted "$2" +:+ "]") fixed in
  Js.replace_all_re flag_m re_duplicate 1 "$1" fixed.

(** The id a line defines, if it starts with a node definition. *)
Definition node_match (line : string) : option string :=
  match exec no_flags re_node_start line with
  | Some r => Some (group 1 r)
  | None => None
  end.

(** First pass: the ids defined in the main flow.  A line starting
    with [subgraph] makes the scan skip to the next bare [end] line
    (or to the end). *)
Fixpoint defined_nodes (skipping : bool) (lines : list string) (acc : gset string)
  : gset string :=
  match lines with
  | [] => acc
  | l :: lines' =>
      let line := Js.trim l in
      if skipping then
        defined_nodes (negb (String.eqb line "end")) lines' acc
      else if Js.starts_with "subgraph" line then
        defined_nodes true lines' acc
      else
        match node_match line with
        | Some id => defined_nodes false lines' ({[ id ]} ∪ acc)
        | None => defined_nodes false lines' acc
        end
  end.

(** Second pass: the depth counter and the rewritten lines. *)
Fixpoint fix_lines (defined : gset string) (lines : list string)
    (subgraphDepth : nat) (inSubgraph : bool) : list string * nat :=
  match lines with
  | [] => ([], subgraphDepth)
  | l :: lines' =>
      let line := Js.trim l in
      if Js.starts_with "subgraph" line then
        let '(out, d) := fix_lines defined lines' (S subgraphDepth) true in
        (l :: out, d)
      else if String.eqb line "end" || String.eqb line "endNode" then
        if inSubgraph && (0 <? subgraphDepth)%nat then
          let depth' := (subgraphDepth - 1)%nat in
          let '(out, d) :=
            fix_lines defined lines' depth'
              (if (depth' =? 0)%nat then false else inSubgraph) in
          (Js.replace_re no_flags re_endNode 0 "end" l :: out, d)
        else
          let '(out, d) := fix_lines defined lines' subgraphDepth inSubgraph in
          (l :: out, d)
      else if inSubgraph then
        let '(out, d) := fix_lines defined lines' subgraphDepth inSubgraph in
        match node_match line with
        | Some id =>
            if bool_decide (id ∈ defined) then (id :: out, d) else (l :: out, d)
        | None => (l :: out, d)
        end
      else
        let '(out, d) := fix_lines defined lines' subgraphDepth inSubgraph in
        (l :: out, d)
  end.

(** The chain of rewrites after the line passes. *)
Definition rewrite_last (fixed : string) : string :=
  let fixed := Js.replace_all_re no_flags re_decision 2
                 ("$1{" +:+ Js.quoted "$2" +:+ "}") fixed in
  let fixed := Js.replace_all_re no_flags re_condition 1
                 ("-->|" +:+ Js.quoted "$1" +:+ "|") fixed in
  let fixed := Js.replace_all_re flag_m re_endNode_line 1 "$1end" fixed in
  Js.replace_all_re no_flags re_endNode_flow 0 "endProcess" fixed.

(** [fixed += '\nend'], [n] times *)
Fixpoint close_subgraphs (n : nat) (fixed : string) : string :=
  match n with
  | 0 => fixed
  | S n' => close_subgraphs n' (fixed +:+ Js.NL +:+ "end")
  end.

(** The text the validator works on after its first rewrites, split
    into lines. *)
Definition prepared_lines (code : string) : list string :=
  let fixed := Js.trim code in
  let fixed := if test flag_i re_graph fixed then fixed
               else "graph TD" +:+ Js.NL +:+ fixed in
  Js.split_lines (rewrite_first fixed).

Definition with_default_nodes (fixed : string) : string :=
  if test no_flags re_box fixed then fixed else fixed +:+ default_nodes.

Definition validateAndFixMermaidSyntax (code : string) : string :=
  if String.eqb code EmptyString then placeholder
  else
    let lines := prepared_lines code in
    let definedNodes := defined_nodes false lines ∅ in
    let '(fixedLines, subgraphDepth) := fix_lines definedNodes lines 0 false in
    let fixed := with_default_nodes (Js.join_lines fixedLines) in
    close_subgraphs subgraphDepth (rewrite_last fixed).

End Validator.

(** ** The diagram parser: [utils/workflowEditor.js] *)

Module Editor.
Import RegExp Pat.

Inductive NodeType := process | decision | startEnd.

(** A node record.  [timeEstimate] is [None] for [null] and for an
    absent field; [line] and [subgraphs] are [None] when the field is
    absent; an absent flag is [false]. *)
Record Node := mkNode {
  id : string;
  type : NodeType;
  label : string;
  fullLabel : string;
  timeEstimate : option string;
  line : option nat;
  subgraphs : option (list string);
  isImplicit : bool;
  isRecovered : bool;
  fromComment : bool;
  foundInConnection : bool;
  foundInFullScan : bool;
  inferredFromSubgraph : bool
}.

Record Connection := mkConnection {
  from : string;
  to : string;
  connLabel : string;
  connLine : nat
}.

Record Subgraph := mkSubgraph {
  title : string;
  startLine : nat;
  endLine : nat;
  members : list string
}.

Record Diagram := mkDiagram {
  nodes : gmap string Node;
  connections : list Connection;
  subgraphList : list Subgraph
}.

(** *** The patterns *)

(** The word [subgraph], white space, an optional double quote, the
    title (group 1, no double quote inside), an optional double quote. *)
Definition re_subgraph_title : re :=
  seqs [Lit "subgraph"; plus ws; opt quote; Grp 1 (plus not_quote); opt quote].

(** The quoted label of a definition: white space, a double quote, the
    label as group [n], a double quote, white space. *)
Definition quoted_label (n : nat) : re :=
  seqs [star ws; quote; Grp n (plus not_quote); quote; star ws].

(** An id, then the label (group [n]) between brackets, braces, or
    parenthesised brackets.  The id is a captured word, and the label
    is group 2, or the text of a known id, and the label is group 1. *)
Definition re_process (idp : re) (n : nat) : re :=
  seqs [idp; star ws; Lit "["; quoted_label n; Lit "]"].
Definition re_decision (idp : re) (n : nat) : re :=
  seqs [idp; star ws; Lit "{"; quoted_label n; Lit "}"].
Definition re_startEnd (idp : re) (n : nat) : re :=
  seqs [idp; star ws; Lit "(["; quoted_label n; Lit "])"].

(** At the start of a (trimmed) line, the id captured as group 1. *)
Definition line_id : re := Seq Bol (Grp 1 ident).

(** A parenthesised clause at the very end of a label. *)
Definition re_time : re :=
  seqs [Lit "("; Grp 1 (plus (noneof ")")); Lit ")"; Eol].

(** id, arrow, a quoted label between bars, id *)
Definition re_labeled_connection : re :=
  seqs [Grp 1 ident; star ws; Lit "-->|"; quote; Grp 2 (plus not_quote); quote;
        Lit "|"; star ws; Grp 3 ident].

(** [/([A-Za-z0-9_]+)\s*-->\s*([A-Za-z0-9_]+)/] *)
Definition re_basic_connection : re :=
  seqs [Grp 1 ident; star ws; Lit "-->"; star ws; Grp 2 ident].

(** Two percent signs, an id (group 1), a colon, the rest of the line
    (group 2). *)
Definition re_comment : re :=
  seqs [Lit "%%"; star ws; Grp 1 ident; star ws; Lit ":"; star ws; Grp 2 (star dot)].

(** *** First pass: subgraph boundaries *)

Definition subgraph_title (line : string) : string :=
  match exec no_flags re_subgraph_title line with
  | Some r => group 1 r
  | None => EmptyString
  end.

(** The line of the [end] that closes the subgraph opened just before
    line [j], [nesting] subgraphs being open. *)
Fixpoint find_end (lines : list string) (j nesting : nat) : option nat :=
  match lines with
  | [] => None
  | l :: lines' =>
      let nestedLine := Js.trim l in
      if Js.starts_with "subgraph " nestedLine then find_end lines' (S j) (S nesting)
      else if String.eqb nestedLine "end" then
        if (nesting =? 1)%nat then Some j else find_end lines' (S j) (nesting - 1)
      else find_end lines' (S j) nesting
  end.

Fixpoint boundaries (fuel i : nat) (lines : list string) (acc : list Subgraph)
  : list Subgraph :=
  match fuel with
  | 0 => acc
  | S fuel' =>
      match lines !! i with
      | None => acc
      | Some l =>
          let line := Js.trim l in
          if Js.starts_with "subgraph " line then
            match find_end (drop (S i) lines) (S i) 1 with
            | Some e =>
                boundaries fuel' (S e) lines
                  (acc ++ [mkSubgraph (subgraph_title line) i e []])
            | None => boundaries fuel' (S i) lines acc
            end
          else boundaries fuel' (S i) lines acc
      end
  end.

(** *** Second pass: nodes and connections *)

Definition contains_line (i : nat) (sg : Subgraph) : bool :=
  (startLine sg <? i)%nat && (i <? endLine sg)%nat.

(** The time clause of a label: the estimate and the label without it. *)
Definition split_time (nodeLabel : string) : option (string * string) :=
  match exec no_flags re_time nodeLabel with
  | Some r => Some (group 1 r, Js.trim (l2s (take (index r) (s2l nodeLabel))))
  | None => None
  end.

Definition add_member (i : nat) (nodeId : string) (sg : Subgraph) : Subgraph :=
  if contains_line i sg && negb (bool_decide (nodeId ∈ members sg))
  then mkSubgraph (title sg) (startLine sg) (endLine sg) (members sg ++ [nodeId])
  else sg.

Definition titles_at (i : nat) (sgs : list Subgraph) : list string :=
  map title (filter (fun sg => contains_line i sg = true) sgs).

(** A node read from its own line. *)
Definition declared (ty : NodeType) (nodeId nodeLabel : string)
    (time : option string) (lbl : string) (i : nat) (sgs : list Subgraph) : Node :=
  mkNode nodeId ty lbl nodeLabel time (Some i) (Some (titles_at i sgs))
         false false false false false false.

Definition timed_node (ty : NodeType) (nodeId nodeLabel : string) (i : nat)
    (sgs : list Subgraph) : Node :=
  match split_time nodeLabel with
  | Some (timeEstimate, labelWithoutTime) =>
      declared ty nodeId nodeLabel (Some timeEstimate) labelWithoutTime i sgs
  | None => declared ty nodeId nodeLabel None nodeLabel i sgs
  end.

Definition skipped_line (line : string) : bool :=
  String.eqb line EmptyString || Js.starts_with "%%" line || Js.starts_with "graph " line
  || Js.starts_with "subgraph " line || String.eqb line "end".

Definition parse_line (i : nat) (l : string) (d : Diagram) : Diagram :=
  let line := Js.trim l in
  if skipped_line line then d
  else
    let sgs := subgraphList d in
    let define n :=
      mkDiagram (<[ id n := n ]> (nodes d)) (connections d)
                (map (add_member i (id n)) sgs) in
    match exec no_flags (re_process line_id 2) line with
    | Some r => define (timed_node process (group 1 r) (group 2 r) i sgs)
    | None =>
    match exec no_flags (re_decision line_id 2) line with
    | Some r => define (timed_node decision (group 1 r) (group 2 r) i sgs)
    | None =>
    match exec no_flags (re_startEnd line_id 2) line with
    | Some r => define (declared startEnd (group 1 r) (group 2 r) None (group 2 r) i sgs)
    | None =>
    match exec no_flags re_labeled_connection line with
    | Some r =>
        mkDiagram (nodes d)
          (connections d ++ [mkConnection (group 1 r) (group 3 r) (group 2 r) i]) sgs
    | None =>
    match exec no_flags re_basic_connection line with
    | Some r =>
        mkDiagram (nodes d)
          (connections d ++ [mkConnection (group 1 r) (group 2 r) EmptyString i]) sgs
    | None => d
    end end end end end.

Fixpoint parse_lines (i : nat) (lines : list string) (d : Diagram) : Diagram :=
  match lines with
  | [] => d
  | l :: lines' => parse_lines (S i) lines' (parse_line i l d)
  end.

(** *** Third pass: the endpoints no line declares *)

Definition recovered (ty : NodeType) (nodeId lbl full : string)
    (time : option string) : Node :=
  mkNode nodeId ty lbl full time None None false true false false false false.

Definition implicit_node (nodeId : string) : Node :=
  mkNode nodeId process nodeId nodeId None None None true false false false false false.

(** The text of the id stands for itself in the pattern: the ids come
    out of [[A-Za-z0-9_]+] groups. *)
Definition resolve_endpoint (diagramCode nodeId : string) : Node :=
  let idp := Lit nodeId in
  let processNodeMatch := exec no_flags (re_process idp 1) diagramCode in
  let startEndNodeMatch := exec no_flags (re_startEnd idp 1) diagramCode in
  let decisionNodeMatch := exec no_flags (re_decision idp 1) diagramCode in
  match processNodeMatch with
  | Some r =>
      let nodeLabel := group 1 r in
      match split_time nodeLabel with
      | Some (timeEstimate, labelWithoutTime) =>
          recovered process nodeId labelWithoutTime nodeLabel (Some timeEstimate)
      | None => recovered process nodeId nodeLabel nodeLabel None
      end
  | None =>
  match startEndNodeMatch with
  | Some r => recovered startEnd nodeId (group 1 r) (group 1 r) None
  | None =>
  match decisionNodeMatch with
  | Some r => recovered decision nodeId (group 1 r) (group 1 r) None
  | None => implicit_node nodeId
  end end end.

Definition ensure_endpoint (diagramCode nodeId : string) (ns : gmap string Node)
  : gmap string Node :=
  match ns !! nodeId with
  | Some _ => ns
  | None => <[ nodeId := resolve_endpoint diagramCode nodeId ]> ns
  end.

Fixpoint implicit_nodes (diagramCode : string) (cs : list Connection)
    (ns : gmap string Node) : gmap string Node :=
  match cs with
  | [] => ns
  | conn :: cs' =>
      implicit_nodes diagramCode cs'
        (ensure_endpoint diagramCode (to conn)
           (ensure_endpoint diagramCode (from conn) ns))
  end.

(** *** Fourth pass: labels from comments *)

Definition from_comment (description : string) (n : Node) : Node :=
  mkNode (id n) (type n) description description (timeEstimate n) (line n)
         (subgraphs n) false (isRecovered n) true (foundInConnection n)
         (foundInFullScan n) (inferredFromSubgraph n).

Definition comment_line (l : string) (ns : gmap string Node) : gmap string Node :=
  let line := Js.trim l in
  if Js.starts_with "%%" line && Js.includes ":" line then
    match exec no_flags re_comment line with
    | Some r =>
        let nodeId := group 1 r in
        match ns !! nodeId with
        | Some n =>
            if isImplicit n || String.eqb (label n) nodeId
            then <[ nodeId := from_comment (Js.trim (group 2 r)) n ]> ns
            else ns
        | None => ns
        end
    | None => ns
    end
  else ns.

Definition comment_labels (lines : list string) (ns : gmap string Node)
  : gmap string Node :=
  foldl (fun ns l => comment_line l ns) ns lines.

(** *** Fifth pass: terminal nodes written inside a connection line *)

Definition in_connection (nodeId nodeLabel : string) (lineIndex : nat) : Node :=
  mkNode nodeId startEnd nodeLabel nodeLabel None (Some lineIndex) None
         false true false true false false.

Definition connection_target (lines : list string) (conn : Connection)
    (ns : gmap string Node) : gmap string Node :=
  match lines !! connLine conn with
  | Some l =>
      match exec no_flags (re_startEnd (Lit (to conn)) 1) l with
      | Some r =>
          if negb (String.eqb (to conn) EmptyString)
          then <[ to conn := in_connection (to conn) (group 1 r) (connLine conn) ]> ns
          else ns
      | None => ns
      end
  | None => ns
  end.

Definition connection_targets (lines : list string) (cs : list Connection)
    (ns : gmap string Node) : gmap string Node :=
  foldl (fun ns conn => connection_target lines conn ns) ns cs.

(** *** The scan of the whole text for terminal nodes *)

(** Every match of a pattern with the [g] flag, by repeated [exec]. *)
Fixpoint exec_loop (fuel : nat) (f : flags) (r : re) (s : st) : list result :=
  match fuel with
  | 0 => []
  | S fuel' =>
      match search f r s with
      | None => []
      | Some (b, e, c) =>
          mk_result b e c ::
            (if (pos e =? pos b)%nat then
               match step e with
               | Some (_, e') => exec_loop fuel' f r e'
               | None => []
               end
             else exec_loop fuel' f r e)
      end
  end.

Definition exec_all (f : flags) (r : re) (s : string) : list result :=
  exec_loop (S (String.length s)) f r (start (s2l s)).

Definition in_full_scan (nodeId nodeLabel : string) : Node :=
  mkNode nodeId startEnd nodeLabel nodeLabel None None None
         false true false false true false.

Definition scan_match (r : result) (ns : gmap string Node) : gmap string Node :=
  let nodeId := group 1 r in
  let missing := match ns !! nodeId with
                 | None => true
                 | Some n => isImplicit n
                 end in
  if missing then <[ nodeId := in_full_scan nodeId (group 2 r) ]> ns else ns.

Definition full_scan (diagramCode : string) (ns : gmap string Node)
  : gmap string Node :=
  foldl (fun ns r => scan_match r ns) ns
        (exec_all no_flags (re_startEnd (Grp 1 ident) 2) diagramCode).

(** *** Sixth pass: one-letter nodes named after their subgraph *)

Definition infer_label (nodeId : string) (n : Node) : Node :=
  match subgraphs n with
  | Some (subgraphTitle :: _) =>
      if (String.length nodeId =? 1)%nat && String.eqb (label n) nodeId then
        let lbl := subgraphTitle +:+ " Node " +:+ nodeId in
        mkNode (id n) (type n) lbl lbl (timeEstimate n) (line n) (subgraphs n)
               (isImplicit n) (isRecovered n) (fromComment n)
               (foundInConnection n) (foundInFullScan n) true
      else n
  | _ => n
  end.

Definition infer_labels (ns : gmap string Node) : gmap string Node :=
  map_imap (fun nodeId n => Some (infer_label nodeId n)) ns.

Definition empty_diagram : Diagram := mkDiagram ∅ [] [].

Definition parseMermaidDiagram (diagramCode : string) : Diagram :=
  if String.eqb diagramCode EmptyString then empty_diagram
  else
    let lines := Js.split_lines diagramCode in
    let sgs := boundaries (length lines) 0 lines [] in
    let d := parse_lines 0 lines (mkDiagram ∅ [] sgs) in
    let ns := implicit_nodes diagramCode (connections d) (nodes d) in
    let ns := comment_labels lines ns in
    let ns := connection_targets lines (connections d) ns in
    let ns := full_scan diagramCode ns in
    mkDiagram (infer_labels ns) (connections d) (subgraphList d).


(** *** The mutators *)

Definition truthy (o : option string) : bool :=
  match o with
  | Some s => negb (String.eqb s EmptyString)
  | None => false
  end.

(** [a || b] on strings *)
Definition or_else (a b : string) : string :=
  if String.eqb a EmptyString then b else a.

(** [lines.splice(k, 0, x)] *)
Definition splice_in (k : nat) (x : string) (lines : list string) : list string :=
  take k lines ++ x :: drop k lines.



Definition process_text (nodeId lbl : string) : string :=
  nodeId +:+ "[" +:+ Js.quoted lbl +:+ "]".
Definition decision_text (nodeId lbl : string) : string :=
  nodeId +:+ "{" +:+ Js.quoted lbl +:+ "}".
Definition startEnd_text (nodeId lbl : string) : string :=
  nodeId +:+ "([" +:+ Js.quoted lbl +:+ "])".


Definition not_found_in_diagram (nodeId : string) : error :=
  Error ("Node with ID " +:+ Js.quoted nodeId +:+ " not found in diagram").

Section TimeEstimate.
(** The [RegExp] constructor of the engine on a pattern text built
    at run time from a label: the pattern and its number of groups,
    or [None] for a syntax error.  It belongs to the language, not
    to the repository. *)
Variable RegExp_of : string -> option (re * nat).





End TimeEstimate.

(** The definition text looked for, and the one written, by
    [updateNodeLabel]. *)
Definition label_search (n : Node) (nodeId : string) : string :=
  match type n with
  | process => process_text nodeId (fullLabel n)
  | decision => decision_text nodeId (fullLabel n)
  | startEnd => startEnd_text nodeId (fullLabel n)
  end.

Definition time_suffix (n : Node) : string :=
  match timeEstimate n with
  | Some t => if String.eqb t EmptyString then EmptyString else " (" +:+ t +:+ ")"
  | None => EmptyString
  end.

Definition label_replacement (n : Node) (nodeId newLabel : string) : string :=
  match type n with
  | process => process_text nodeId (newLabel +:+ time_suffix n)
  | decision => decision_text nodeId newLabel
  | startEnd => startEnd_text nodeId newLabel
  end.

(** The lines after the edit, before validation. *)
Definition relabel_lines (n : Node) (nodeId newLabel : string) (i : nat)
    (lines : list string) : option (list string) :=
  match lines !! i with
  | Some l =>
      Some (<[ i := Js.replace_str (label_search n nodeId)
                      (label_replacement n nodeId newLabel) l ]> lines)
  | None => None
  end.

Definition updateNodeLabel (diagramCode nodeId newLabel : string) : outcome :=
  match nodes (parseMermaidDiagram diagramCode) !! nodeId with
  | None => Thrown (not_found_in_diagram nodeId)
  | Some node =>
      let lines := Js.split_lines diagramCode in
      match line node with
      | None => Thrown TypeError
      | Some i =>
          match relabel_lines node nodeId newLabel i lines with
          | None => Thrown TypeError
          | Some lines' => Returned (Validator.validateAndFixMermaidSyntax (Js.join_lines lines'))
          end
      end
  end.

(** The argument of [addNode]; an omitted field is [None]. *)
Record NodeDetails := mkDetails {
  newId : option string;
  newLabel : string;
  newTime : option string;
  newType : string;
  connectFrom : option string;
  connectTo : option string;
  connectionLabel : option string
}.

Definition reservedKeywords : list string :=
  ["end"; "graph"; "subgraph"; "style"; "class"; "classDef"].

Definition is_reserved (nodeId : string) : bool :=
  bool_decide (Js.to_lower_case nodeId ∈ reservedKeywords).

(** The id [addNode] starts from: the one asked for, or [step] and
    the number of nodes plus one. *)
Definition requested_id (ns : gmap string Node) (d : NodeDetails) : string :=
  if truthy (newId d) then default EmptyString (newId d)
  else "step" +:+ Js.string_of_nat (size ns + 1).

(** A reserved word gets the suffix [Node]. *)
Definition chosen_id (ns : gmap string Node) (d : NodeDetails) : string :=
  let nodeId := requested_id ns d in
  if is_reserved nodeId then nodeId +:+ "Node" else nodeId.

Definition node_definition (nodeId : string) (d : NodeDetails) : string :=
  let timeEstimate :=
    if truthy (newTime d) then " (" +:+ default EmptyString (newTime d) +:+ ")"
    else EmptyString in
  if String.eqb (newType d) "decision" then decision_text nodeId (newLabel d)
  else if String.eqb (newType d) "startEnd" then startEnd_text nodeId (newLabel d)
  else process_text nodeId (newLabel d +:+ timeEstimate).

(** The greatest line of a node, and at least 1. *)
Definition insert_position (ns : gmap string Node) : nat :=
  map_fold (fun _ n insertPosition =>
              match line n with
              | Some l => if (insertPosition <? l)%nat then l else insertPosition
              | None => insertPosition
              end) 1%nat ns.

Definition connection_text (a b : string) (lbl : option string) : string :=
  a +:+ " -->"
    +:+ (if truthy lbl then "|" +:+ Js.quoted (default EmptyString lbl) +:+ "| " else " ")
    +:+ b.

Definition already_exists (nodeId : string) : error :=
  Error ("Node with ID " +:+ Js.quoted nodeId +:+ " already exists").

Definition addNode (diagramCode : string) (nodeDetails : NodeDetails) : outcome :=
  let ns := nodes (parseMermaidDiagram diagramCode) in
  let lines := Js.split_lines diagramCode in
  let nodeId := chosen_id ns nodeDetails in
  match ns !! nodeId with
  | Some _ => Thrown (already_exists nodeId)
  | None =>
      let insertPosition := insert_position ns in
      let lines := splice_in (S insertPosition) (node_definition nodeId nodeDetails) lines in
      let connectionInsertLine := (insertPosition + 2)%nat in
      let '(lines, connectionInsertLine) :=
        if truthy (connectFrom nodeDetails) then
          (splice_in connectionInsertLine
             (connection_text (default EmptyString (connectFrom nodeDetails)) nodeId
                (connectionLabel nodeDetails)) lines,
           S connectionInsertLine)
        else (lines, connectionInsertLine) in
      let lines :=
        if truthy (connectTo nodeDetails) then
          splice_in connectionInsertLine
            (connection_text nodeId (default EmptyString (connectTo nodeDetails))
               (connectionLabel nodeDetails)) lines
        else lines in
      Returned (Validator.validateAndFixMermaidSyntax (Js.join_lines lines))
  end.

(** The word [end] that is not the last thing in the text (flag g). *)
Definition re_end_word : re :=
  seqs [Wb; Lit "end"; Wb; NLook (Seq (star ws) Eol)].

Definition not_found (nodeId : string) : error :=
  Error ("Node with ID " +:+ Js.quoted nodeId +:+ " not found").

Definition floor_error : error :=
  Error "Cannot remove node: diagram must have at least 2 nodes".

(** The indices of the lines [removeNode] drops. *)
Definition lines_to_remove (d : Diagram) (nodeId : string) (n : Node) : list nat :=
  match line n with Some i => [i] | None => [] end
  ++ map connLine
       (filter (fun c => from c = nodeId \/ to c = nodeId) (connections d)).

Fixpoint drop_lines (i : nat) (gone : list nat) (lines : list string) : list string :=
  match lines with
  | [] => []
  | l :: lines' =>
      if bool_decide (i ∈ gone) then drop_lines (S i) gone lines'
      else l :: drop_lines (S i) gone lines'
  end.

Definition removeNode (diagramCode nodeId : string) : outcome :=
  let d := parseMermaidDiagram diagramCode in
  match nodes d !! nodeId with
  | None => Thrown (not_found nodeId)
  | Some n =>
      if (size (nodes d) <=? 2)%nat then Thrown floor_error
      else
        let lines := Js.split_lines diagramCode in
        let updatedLines := drop_lines 0 (lines_to_remove d nodeId n) lines in
        let updatedDiagram := Js.join_lines updatedLines in
        let updatedDiagram :=
          if String.eqb nodeId "end"
          then Js.replace_all_re no_flags re_end_word 0 "endNode" updatedDiagram
          else updatedDiagram in
        Returned (Validator.validateAndFixMermaidSyntax updatedDiagram)
  end.

(** *** The id proposed by the editor form: [setupNewRow] in
    [components/WorkflowEditor.jsx] *)





End Editor.

(** ** Time strings and metrics: [utils/metricsProcessor.js] *)

Module Metrics.
Import RegExp Pat.

(** *** Numbers *)

(** The value of a run of decimal digits ([parseInt] of a match of
    [\d+]). *)
Definition digits_value (s : string) : Z :=
  fold_left (fun acc c => (10 * acc + Z.of_nat (Chr.code c - 48))%Z) (s2l s) 0%Z.

Local Open Scope Q_scope.

(** [parseFloat] of a match of [\d+(?:\.\d+)?]. *)
Definition decimal_value (s : string) : Q :=
  match Js.find_sub (s2l ".") (s2l s) 0%nat with
  | None => inject_Z (digits_value s)
  | Some (i, frac) =>
      let whole := digits_value (l2s (take i (s2l s))) in
      Qred (inject_Z whole
            + inject_Z (digits_value (l2s frac)) / inject_Z (10 ^ Z.of_nat (length frac)))
  end.

Definition Qpos (q : Q) : bool := negb (Qle_bool q 0).

(** *** The patterns, all with the flag [i] *)

Definition number : re := plus digit.                               (* \d+ *)
Definition decimal : re := Seq (plus digit) (opt (Seq (Lit ".") (plus digit))).

(** [/(\d+)\s*-\s*(\d+)\s*(week|weeks)s?/i] *)
Definition re_week_range : re :=
  seqs [Grp 1 number; star ws; Lit "-"; star ws; Grp 2 number; star ws;
        Grp 3 (Alt (Lit "week") (Lit "weeks")); opt (Lit "s")].

(** [/(\d+)\s*(week|weeks)s?/i] *)
Definition re_weeks : re :=
  seqs [Grp 1 number; star ws; Grp 2 (Alt (Lit "week") (Lit "weeks")); opt (Lit "s")].

(** [/(\d+)\s*-\s*(\d+)\s*(day|days)s?/i] *)
Definition re_day_range : re :=
  seqs [Grp 1 number; star ws; Lit "-"; star ws; Grp 2 number; star ws;
        Grp 3 (Alt (Lit "day") (Lit "days")); opt (Lit "s")].

(** [/(\d+)\s*(day|days)s?/i] *)
Definition re_days : re :=
  seqs [Grp 1 number; star ws; Grp 2 (Alt (Lit "day") (Lit "days")); opt (Lit "s")].

(** [/(\d+(?:\.\d+)?)\s*(hour|hours|hr|h)s?/i] *)
Definition re_hours : re :=
  seqs [Grp 1 decimal; star ws;
        Grp 2 (alts [Lit "hour"; Lit "hours"; Lit "hr"; Lit "h"]); opt (Lit "s")].

(** [/(\d+(?:\.\d+)?)\s*(minute|minutes|min|m)s?/i] *)
Definition re_minutes : re :=
  seqs [Grp 1 decimal; star ws;
        Grp 2 (alts [Lit "minute"; Lit "minutes"; Lit "min"; Lit "m"]); opt (Lit "s")].

Definition weekRangeMatch := exec flag_i re_week_range.
Definition weeksMatch := exec flag_i re_weeks.
Definition dayRangeMatch := exec flag_i re_day_range.
Definition daysMatch := exec flag_i re_days.
Definition hoursMatch := exec flag_i re_hours.
Definition minutesMatch := exec flag_i re_minutes.

Definition group_int (n : nat) (r : result) : Q := inject_Z (digits_value (group n r)).

(** The sum of the hours and the minutes found, 0 when none is. *)
Definition hours_and_minutes (timeString : string) : Q :=
  let totalMinutes := 0 in
  let totalMinutes :=
    match hoursMatch timeString with
    | Some r => totalMinutes + decimal_value (group 1 r) * 60
    | None => totalMinutes
    end in
  match minutesMatch timeString with
  | Some r => totalMinutes + decimal_value (group 1 r)
  | None => totalMinutes
  end.

(** [None] is [null]. *)
Definition parseTimeToMinutes (timeString : string) : option Q :=
  if String.eqb timeString EmptyString || String.eqb timeString "Unknown" then None
  else
    match weekRangeMatch timeString with
    | Some r =>
        let avgWeeks := (group_int 1 r + group_int 2 r) / 2 in
        Some (Qred (avgWeeks * 5 * 8 * 60))
    | None =>
    match weeksMatch timeString with
    | Some r => Some (Qred (group_int 1 r * 5 * 8 * 60))
    | None =>
    match dayRangeMatch timeString with
    | Some r =>
        let avgDays := (group_int 1 r + group_int 2 r) / 2 in
        Some (Qred (avgDays * 8 * 60))
    | None =>
    match daysMatch timeString with
    | Some r => Some (Qred (group_int 1 r * 8 * 60))
    | None =>
        let totalMinutes := Qred (hours_and_minutes timeString) in
        if Qpos totalMinutes then Some totalMinutes else None
    end end end end.

(** *** Formatting *)

(** [Math.floor], [Math.round] and [%] on numbers that are not negative *)
Definition floor (q : Q) : Z := Qfloor q.
Definition round (q : Q) : Z := Qfloor (q + (1 # 2)).
Definition rem (q : Q) (d : Z) : Q := q - inject_Z (d * Qfloor (q / inject_Z d)).

Definition plural (n : Z) : string := if (n =? 1)%Z then EmptyString else "s".

Definition count (n : Z) (unit : string) : string :=
  Js.string_of_Z n +:+ " " +:+ unit +:+ plural n.

(** The argument is [None] for [null]. *)
Definition formatMinutesToTime (minutes : option Q) : string :=
  match minutes with
  | None => "Unknown"
  | Some minutes =>
      if Qle_bool 0 minutes then
        if Qle_bool (60 * 24) minutes then
          let days := floor (minutes / (8 * 60)) in
          let hours := floor (rem minutes (8 * 60) / 60) in
          let remainingMinutes := round (rem minutes 60) in
          count days "day"
            +:+ (if (0 <? hours)%Z then " " +:+ count hours "hour" else EmptyString)
            +:+ (if (0 <? remainingMinutes)%Z then " " +:+ count remainingMinutes "minute"
                 else EmptyString)
        else if Qle_bool 60 minutes then
          let hours := floor (minutes / 60) in
          let remainingMinutes := round (rem minutes 60) in
          count hours "hour"
            +:+ (if (0 <? remainingMinutes)%Z then " " +:+ count remainingMinutes "minute"
                 else EmptyString)
        else count (round minutes) "minute"
      else "Unknown"
  end.

(** *** Merging *)

(** A step entry.  [timeMinutes] is [None] for [null] or an absent
    field; [source] is the tag the merge adds. *)
Record StepTime := mkStep {
  step : string;
  stepName : string;
  time : string;
  timeMinutes : option Q;
  source : option string
}.

Record ProcessMetrics := mkMetrics {
  totalSteps : option Z;
  totalTime : string;
  totalTimeMinutes : Q;
  stepTimes : option (list StepTime);
  metricsSource : string;
  timestamp : Z
}.

Definition createDefaultMetrics (now : Z) (source : string) : ProcessMetrics :=
  mkMetrics (Some 0%Z) "Unknown" 0 (Some []) source now.

(** [{...step, source: tag}] *)
Definition tagged (tag : string) (s : StepTime) : StepTime :=
  mkStep (step s) (stepName s) (time s) (timeMinutes s) (Some tag).

(** A [Map] keyed by step: the entries in the order their keys were
    first set. *)
Definition step_map := list (string * StepTime).

Definition map_has (k : string) (m : step_map) : bool :=
  existsb (fun e => String.eqb (fst e) k) m.

Fixpoint map_set (k : string) (v : StepTime) (m : step_map) : step_map :=
  match m with
  | [] => [(k, v)]
  | (k', v') :: m' =>
      if String.eqb k' k then (k, v) :: m' else (k', v') :: map_set k v m'
  end.

Definition map_values (m : step_map) : list StepTime := map snd m.

(** [m.get(k)] *)
Definition map_get (k : string) (m : step_map) : option StepTime :=
  option_map snd (List.find (fun e => String.eqb (fst e) k) m).

(** [parseInt(s, 10)]: white space, a sign, digits; [None] is [NaN]. *)
Fixpoint leading_digits (l : chars) : chars :=
  match l with
  | x :: l' => if Chr.digit x then x :: leading_digits l' else []
  | [] => []
  end.

Definition parseInt (s : string) : option Z :=
  let l := Js.trim_start (s2l s) in
  let '(neg, l) :=
    match l with
    | x :: l' =>
        if Chr.is_code 45 x then (true, l')
        else if Chr.is_code 43 x then (false, l')
        else (false, l)
    | [] => (false, l)
    end in
  match leading_digits l with
  | [] => None
  | ds => let n := digits_value (l2s ds) in Some (if neg then (- n)%Z else n)
  end.

Definition MAX_SAFE_INTEGER : Z := 9007199254740991.

(** [parseInt(a.step, 10) || Number.MAX_SAFE_INTEGER] *)
Definition step_number (a : StepTime) : Z :=
  match parseInt (step a) with
  | Some n => if (n =? 0)%Z then MAX_SAFE_INTEGER else n
  | None => MAX_SAFE_INTEGER
  end.

(** [Array.prototype.sort] with the comparator [aNum - bNum]: the
    stable sort by step number. *)
Fixpoint insert_step (a : StepTime) (l : list StepTime) : list StepTime :=
  match l with
  | [] => [a]
  | b :: l' =>
      if (step_number a <=? step_number b)%Z then a :: l
      else b :: insert_step a l'
  end.

Definition sort_steps (l : list StepTime) : list StepTime :=
  foldr insert_step [] l.

(** [step.timeMinutes || 0] *)
Definition minutes_or_zero (s : StepTime) : Q :=
  match timeMinutes s with Some q => q | None => 0 end.

Definition sum_minutes (l : list StepTime) : Q :=
  fold_left (fun sum s => sum + minutes_or_zero s) l 0.

Definition add_document_steps (l : list StepTime) (m : step_map) : step_map :=
  fold_left (fun m s => map_set (step s) (tagged "document" s) m) l m.

Definition add_workflow_steps (l : list StepTime) (m : step_map) : step_map :=
  fold_left (fun m s => if map_has (step s) m then m
                        else map_set (step s) (tagged "workflow" s) m) l m.

(** The entries of the merged [Map], before sorting. *)
Definition merged_map (workflow document : ProcessMetrics) : step_map :=
  let entries : step_map := [] in
  let entries :=
    match stepTimes document with
    | Some l => add_document_steps l entries
    | None => entries
    end in
  match stepTimes workflow with
  | Some l => add_workflow_steps l entries
  | None => entries
  end.

Definition count_or_zero (m : ProcessMetrics) : Z := default 0%Z (totalSteps m).

(** [now] is the value of [Date.now()]. *)
Definition mergeMetrics (now : Z) (workflowMetrics documentMetrics : option ProcessMetrics)
  : ProcessMetrics :=
  let workflow := default (createDefaultMetrics now "workflow") workflowMetrics in
  let document := default (createDefaultMetrics now "document") documentMetrics in
  let sorted := sort_steps (map_values (merged_map workflow document)) in
  let total := sum_minutes sorted in
  mkMetrics (Some (Z.max (count_or_zero workflow) (count_or_zero document)))
            (formatMinutesToTime (Some total))
            total
            (Some sorted)
            "merged"
            now.

End Metrics.

(** ** Documents: [utils/documentEditor.js] *)

Module Document.

(** A node of the document tree: an element with its lower-case tag
    name, or a text node. *)
#[warnings="-register-all"]
Inductive Dom :=
| Element (tag : string) (attrs : list (string * string)) (children : list Dom)
| Text (data : string).

Definition has_tag (tags : list string) (d : Dom) : bool :=
  match d with
  | Element t _ _ => bool_decide (t ∈ tags)
  | Text _ => false
  end.

Definition is_element (d : Dom) : bool :=
  match d with Element _ _ _ => true | Text _ => false end.

Definition children_of (d : Dom) : list Dom :=
  match d with Element _ _ cs => cs | Text _ => [] end.

(** The descendants of a node, in document order. *)
Fixpoint descendants (d : Dom) : list Dom :=
  match d with
  | Element _ _ cs => flat_map (fun c => c :: descendants c) cs
  | Text _ => []
  end.

(** [querySelectorAll] and [querySelector] for a list of tag names *)
Definition querySelectorAll (tags : list string) (d : Dom) : list Dom :=
  filter (fun x => has_tag tags x = true) (descendants d).

Definition querySelector (tags : list string) (d : Dom) : option Dom :=
  head (querySelectorAll tags d).

(** [textContent] *)
Fixpoint textContent (d : Dom) : string :=
  match d with
  | Element _ _ cs => fold_right (fun c acc => textContent c +:+ acc) EmptyString cs
  | Text s => s
  end.

(** Every table of the tree in document order, each with the element
    siblings before it, the nearest first. *)
Fixpoint tables_in (d : Dom) : list (list Dom * Dom) :=
  match d with
  | Element _ _ cs =>
      (fix scan (before cs : list Dom) : list (list Dom * Dom) :=
         match cs with
         | [] => []
         | c :: cs' =>
             (if has_tag ["table"] c then [(before, c)] else [])
               ++ tables_in c
               ++ scan (if is_element c then c :: before else before) cs'
         end) [] cs
  | Text _ => []
  end.

Definition headings : list string := ["h1"; "h2"; "h3"; "h4"; "h5"; "h6"].

Record Cell := mkCell {
  content : string;
  cellText : string;
  isHeader : bool;
  colSpan : Z;
  rowSpan : Z
}.

Record Row := mkRow { cells : list Cell; rowIndex : nat }.

Record Section_ := mkSection { title : string; tableIndex : nat; rows : list Row }.

Inductive TextBlock :=
| Paragraph (content text : string)
| ListBlock (tag : string) (items : list (string * string)) (content : string).

Record ParsedDocument := mkParsed {
  docTitle : option string;
  sections : list Section_;
  textualContent : option (list TextBlock);
  parseError : bool
}.

Record UpdateInfo := mkUpdate {
  sectionIndex : Z;
  updRowIndex : Z;
  cellIndex : Z;
  newContent : string
}.

Section WithDom.
(** The document library, which is not part of the repository:
    [JSDOM] builds the tree of a text ([None] if the constructor
    throws), [serialize] and [innerHTML] print a tree and the inside
    of an element, [fragment] reads the value assigned to
    [innerHTML], [colSpanOf] and [rowSpanOf] are the [colSpan] and
    [rowSpan] properties of a cell. *)
Variable JSDOM : string -> option Dom.
Variable serialize : Dom -> string.
Variable innerHTML : Dom -> string.
Variable fragment : string -> list Dom.
Variable colSpanOf rowSpanOf : Dom -> Z.

Definition spans_columns (row : Dom) : bool :=
  match querySelector ["th"; "td"] row with
  | Some firstCell => (1 <? colSpanOf firstCell)%Z
  | None => false
  end.

Definition section_title (before : list Dom) (table : Dom) (tableIndex : nat)
  : string :=
  match querySelector ["caption"] table with
  | Some caption => Js.trim (textContent caption)
  | None =>
      match List.find (has_tag headings) before with
      | Some previousElement => Js.trim (textContent previousElement)
      | None =>
          match querySelector ["tr"] table with
          | Some firstRow =>
              match querySelector ["th"; "td"] firstRow with
              | Some firstCell =>
                  if (1 <? colSpanOf firstCell)%Z
                  then Js.trim (textContent firstCell)
                  else "Section " +:+ Js.string_of_nat (tableIndex + 1)
              | None => "Section " +:+ Js.string_of_nat (tableIndex + 1)
              end
          | None => "Section " +:+ Js.string_of_nat (tableIndex + 1)
          end
      end
  end.

(** [x || 1] on a number *)
Definition or_one (z : Z) : Z := if (z =? 0)%Z then 1%Z else z.

Definition cell_data (cell : Dom) : Cell :=
  mkCell (innerHTML cell) (Js.trim (textContent cell)) (has_tag ["th"] cell)
         (or_one (colSpanOf cell)) (or_one (rowSpanOf cell)).

Definition row_data (rowIndex : nat) (row : Dom) : option Row :=
  if (rowIndex =? 0)%nat && spans_columns row then None
  else
    match querySelectorAll ["th"; "td"] row with
    | [] => None
    | cells => Some (mkRow (map cell_data cells) rowIndex)
    end.

Definition table_rows (table : Dom) : list Row :=
  omap (fun '(rowIndex, row) => row_data rowIndex row)
       (imap (fun rowIndex row => (rowIndex, row)) (querySelectorAll ["tr"] table)).

Definition table_section (tableIndex : nat) (t : list Dom * Dom) : option Section_ :=
  match table_rows (snd t) with
  | [] => None
  | rows => Some (mkSection (section_title (fst t) (snd t) tableIndex) tableIndex rows)
  end.

Definition paragraph_blocks (document : Dom) : list TextBlock :=
  omap (fun p => if String.eqb (Js.trim (textContent p)) EmptyString then None
                 else Some (Paragraph (innerHTML p) (Js.trim (textContent p))))
       (querySelectorAll ["p"] document).

Definition list_blocks (document : Dom) : list TextBlock :=
  omap (fun l =>
          if String.eqb (Js.trim (textContent l)) EmptyString then None
          else
            match l with
            | Element tag _ _ =>
                Some (ListBlock tag
                        (map (fun li => (innerHTML li, Js.trim (textContent li)))
                             (querySelectorAll ["li"] l))
                        (innerHTML l))
            | Text _ => None
            end)
       (querySelectorAll ["ul"; "ol"] document).

Definition document_title (document : Dom) : string :=
  match querySelector ["h1"; "h2"] document with
  | Some h => if String.eqb (textContent h) EmptyString then "Process Document"
              else textContent h
  | None => "Process Document"
  end.

Definition parseDocumentContent (documentContent : string) : ParsedDocument :=
  if String.eqb documentContent EmptyString then mkParsed None [] None false
  else
    match JSDOM documentContent with
    | None => mkParsed None [] None true
    | Some document =>
        let sections :=
          omap (fun '(tableIndex, t) => table_section tableIndex t)
               (imap (fun tableIndex t => (tableIndex, t)) (tables_in document)) in
        let blocks := paragraph_blocks document ++ list_blocks document in
        mkParsed (Some (document_title document)) sections
                 (match blocks with [] => None | _ => Some blocks end) false
    end.

(** [a[i]] for an index that can be negative *)
Definition at_index {A} (l : list A) (i : Z) : option A :=
  if (i <? 0)%Z then None else l !! Z.to_nat i.

Definition out_of_range {A} (i : Z) (l : list A) : bool :=
  (i <? 0)%Z || (Z.of_nat (length l) <=? i)%Z.

(** The tree with [f] applied to the [k]-th descendant that has one
    of the tags, in document order; the count left when there are
    fewer. *)
Fixpoint update_nth (tags : list string) (f : Dom -> Dom) (k : nat) (d : Dom)
  : Dom * option nat :=
  match d with
  | Text _ => (d, Some k)
  | Element t a cs =>
      let '(cs', k') :=
        (fix go (cs : list Dom) (k : nat) : list Dom * option nat :=
           match cs with
           | [] => ([], Some k)
           | c :: cs' =>
               if has_tag tags c && (k =? 0)%nat then (f c :: cs', None)
               else
                 let k1 := if has_tag tags c then (k - 1)%nat else k in
                 match update_nth tags f k1 c with
                 | (c', None) => (c' :: cs', None)
                 | (c', Some k2) =>
                     let '(cs'', r) := go cs' k2 in (c' :: cs'', r)
                 end
           end) cs k in
      (Element t a cs', k')
  end.

Definition set_inner (newContent : string) (cell : Dom) : Dom :=
  match cell with
  | Element t a _ => Element t a (fragment newContent)
  | Text _ => cell
  end.

Definition invalid (what : string) (i : Z) : error :=
  Error ("Invalid " +:+ what +:+ " index: " +:+ Js.string_of_Z i).

Definition updateDocumentCell (documentContent : string) (updateInfo : UpdateInfo)
  : outcome :=
  let parsedDocument := parseDocumentContent documentContent in
  if out_of_range (sectionIndex updateInfo) (sections parsedDocument) then
    Thrown (invalid "section" (sectionIndex updateInfo))
  else
    match at_index (sections parsedDocument) (sectionIndex updateInfo) with
    | None => Thrown TypeError
    | Some section =>
        if out_of_range (updRowIndex updateInfo) (rows section) then
          Thrown (invalid "row" (updRowIndex updateInfo))
        else
          match at_index (rows section) (updRowIndex updateInfo) with
          | None => Thrown TypeError
          | Some row =>
              if out_of_range (cellIndex updateInfo) (cells row) then
                Thrown (invalid "cell" (cellIndex updateInfo))
              else
                match JSDOM documentContent with
                | None => Thrown TypeError
                | Some document =>
                    match map snd (tables_in document) !! tableIndex section with
                    | None =>
                        Thrown (Error ("Table with index "
                                         +:+ Js.string_of_nat (tableIndex section)
                                         +:+ " not found"))
                    | Some targetTable =>
                        match querySelectorAll ["tr"] targetTable !! rowIndex row with
                        | None =>
                            Thrown (Error ("Row with index "
                                             +:+ Js.string_of_nat (rowIndex row)
                                             +:+ " not found in table "
                                             +:+ Js.string_of_nat (tableIndex section)))
                        | Some targetRow =>
                            match at_index (querySelectorAll ["th"; "td"] targetRow)
                                           (cellIndex updateInfo) with
                            | None =>
                                Thrown (Error ("Cell with index "
                                                 +:+ Js.string_of_Z (cellIndex updateInfo)
                                                 +:+ " not found in row "
                                                 +:+ Js.string_of_nat (rowIndex row)))
                            | Some _ =>
                                let edit_cell :=
                                  update_nth ["th"; "td"]
                                    (set_inner (newContent updateInfo))
                                    (Z.to_nat (cellIndex updateInfo)) in
                                let edit_row :=
                                  update_nth ["tr"] (fun r => fst (edit_cell r))
                                             (rowIndex row) in
                                let edit_table :=
                                  update_nth ["table"] (fun t => fst (edit_row t))
                                             (tableIndex section) in
                                Returned (serialize (fst (edit_table document)))
                            end
                        end
                    end
                end
          end
    end.
End WithDom.

End Document.

(** ** What the specification states, as predicates *)

Module Spec.

(** *** Group balance *)









End Spec.

(** ** Shapes of lines *)

Module Shape.

(** White space only, no line feed, word units only. *)
Definition blank (l : chars) : Prop := Forall (fun c => Chr.space c = true) l.
Definition word (l : chars) : Prop := Forall (fun c => Chr.word c = true) l.

End Shape.

(** The body of the validator's result, before the closers are added,
    and the lines its second pass hands over. *)
Module Body.
Import Validator.

Definition fixed_lines (code : string) : list string :=
  let lines := prepared_lines code in
  fst (fix_lines (defined_nodes false lines ∅) lines 0 false).

Definition body (code : string) : string :=
  rewrite_last (with_default_nodes (Js.join_lines (fixed_lines code))).


End Body.

(** ** Sample diagrams *)

Module Samples.

Definition node (nodeId lbl : string) : string := nodeId +:+ "[" +:+ Js.quoted lbl +:+ "]".

(** An unclosed group whose last line names [endNode]. *)
Definition open_group_endNode : string :=
  Js.join_lines ["graph TD"; "subgraph S"; node "X" "a" +:+ " --> endNode"].



End Samples.

(** ** Sample calls of the editor *)

Module EditorSamples.
Import Editor.

(** One connection, no declaration. *)
Definition a_to_b : string := "A-->B".


(** One declared node. *)
Definition one_node : string := Js.join_lines ["graph TD"; Samples.node "A" "x"].




End EditorSamples.

(** ** What the specification states about the editor *)

Module EditorSpec.
Import Editor.




End EditorSpec.

(** ** What the specification states about time strings and merging *)

Module MetricsSpec.
Import RegExp Metrics.
Local Open Scope Q_scope.

(** *** The precedence of the patterns, in the words of the
    specification *)

Inductive unit_of_time := Week | Day.

Definition hours_per_day : Q := 8.
Definition days_per_week : Q := 5.
Definition minutes_per_hour : Q := 60.

Definition minutes_in (u : unit_of_time) : Q :=
  match u with
  | Week => days_per_week * hours_per_day * minutes_per_hour
  | Day => hours_per_day * minutes_per_hour
  end.

(** A range counts as the mean of its ends, a single count as itself. *)
Definition range_count (r : result) : Q := (group_int 1 r + group_int 2 r) / 2.
Definition single_count (r : result) : Q := group_int 1 r.

(** Week ranges, single week counts, day ranges, single day counts. *)
Definition precedence : list (re * (result -> Q) * unit_of_time) :=
  [ (re_week_range, range_count, Week);
    (re_weeks, single_count, Week);
    (re_day_range, range_count, Day);
    (re_days, single_count, Day) ].

(** The first pattern that matches wins. *)
Fixpoint first_match (ps : list (re * (result -> Q) * unit_of_time)) (s : string)
  : option Q :=
  match ps with
  | [] => None
  | (r, count, u) :: ps' =>
      match exec flag_i r s with
      | Some found => Some (count found * minutes_in u)
      | None => first_match ps' s
      end
  end.

Definition minutes_by_precedence (s : string) : option Q :=
  if String.eqb s EmptyString || String.eqb s "Unknown" then None
  else
    match first_match precedence s with
    | Some q => Some q
    | None =>
        if Qle_bool (hours_and_minutes s) 0 then None else Some (hours_and_minutes s)
    end.

(** Two results that are the same number of minutes, or both [null]. *)
Definition same_minutes (a b : option Q) : Prop :=
  match a, b with
  | Some x, Some y => x == y
  | None, None => True
  | _, _ => False
  end.

(** No week or day pattern matches. *)
Definition no_week_or_day (s : string) : Prop :=
  weekRangeMatch s = None /\ weeksMatch s = None
  /\ dayRangeMatch s = None /\ daysMatch s = None.

(** The parser never returns zero, as stated. *)
Definition never_zero (s : string) : Prop :=
  forall q : Q, parseTimeToMinutes s = Some q -> ~ q == 0.

(** *** Merging *)

(** The first entry of a list under a step key, and the last one. *)
Definition entry_for (k : string) (l : list StepTime) : option StepTime :=
  List.find (fun s => String.eqb (step s) k) l.

Definition last_entry_for (k : string) (l : list StepTime) : option StepTime :=
  entry_for k (rev l).

Definition steps_of (m : option ProcessMetrics) : list StepTime :=
  match m with
  | Some m => default [] (stepTimes m)
  | None => []
  end.

(** Every value of the [Map] sits under its own step. *)
Definition keyed (m : step_map) : Prop := Forall (fun e => step (snd e) = fst e) m.

(** The merge keeps every step entry of the document, as stated. *)
Definition keeps_every_document_entry (now : Z)
    (workflow document : option ProcessMetrics) : Prop :=
  forall s : StepTime,
    s ∈ steps_of document ->
    tagged "document" s ∈ default [] (stepTimes (mergeMetrics now workflow document)).

End MetricsSpec.

(** ** Sample metrics *)

Module MetricsSamples.
Import Metrics.
Local Open Scope Q_scope.

Definition entry (k : string) (minutes : Q) : StepTime :=
  mkStep k EmptyString EmptyString (Some minutes) None.

Definition metrics (l : list StepTime) : option ProcessMetrics :=
  Some (mkMetrics (Some (Z.of_nat (length l))) "Unknown" 0 (Some l) "sample" 0).

(** The scenario of the specification. *)
Definition document_30 := metrics [entry "1" 30].
Definition workflow_99_20 := metrics [entry "1" 99; entry "2" 20].

(** A document with two entries under one key. *)
Definition document_twice := metrics [entry "1" 30; entry "1" 40].

End MetricsSamples.

(** ** A sample document *)

Module DocumentSamples.
Import Document.

Definition td (s : string) : Dom := Element "td" [] [Text s].
Definition tr (cells : list Dom) : Dom := Element "tr" [] cells.

(** A heading, a table of two rows, a paragraph, a table with a caption. *)
Definition two_tables : Dom :=
  Element "html" []
    [Element "body" []
       [Element "h2" [] [Text "Steps"];
        Element "table" []
          [tr [td "Step 1"; td "Review"; td "30 minutes"];
           tr [td "Step 2"; td "Sign"; td "1 hour"]];
        Element "p" [] [Text "A note"];
        Element "table" []
          [Element "caption" [] [Text "Roles"]; tr [td "Clerk"; td "Signs"]]]].

(** A plain printer of trees, and the library it makes with a reader
    that knows the sample only. *)
Fixpoint print (d : Dom) : string :=
  match d with
  | Text s => s
  | Element t _ cs =>
      "<" +:+ t +:+ ">" +:+ fold_right (fun c acc => print c +:+ acc) EmptyString cs
          +:+ "</" +:+ t +:+ ">"
  end.

Definition print_inside (d : Dom) : string :=
  fold_right (fun c acc => print c +:+ acc) EmptyString (children_of d).

Definition read_sample (s : string) : option Dom := Some two_tables.
Definition read_text (s : string) : list Dom := [Text s].
Definition span_one (d : Dom) : Z := 1%Z.

Definition sample_parse : string -> ParsedDocument :=
  parseDocumentContent read_sample print_inside span_one span_one.

Definition sample_update : string -> UpdateInfo -> outcome :=
  updateDocumentCell read_sample print print_inside read_text span_one span_one.

End DocumentSamples.

(** ** What a match is *)

(** The matches of a pattern, as a relation between the position and
    captures before and after: every answer of the matcher is one of
    them. *)
Module Semantics.
Import RegExp.

Section Matches.
Variable f : flags.

Inductive matches : re -> st -> caps -> st -> caps -> Prop :=
| matches_eps s c : matches Eps s c s c
| matches_cls p s c x s' :
    step s = Some (x, s') -> in_class f p x = true -> matches (Cls p) s c s' c
| matches_lit l s c r :
    strip_prefix (unit_eq f) (s2l l) (rest s) = Some r ->
    matches (Lit l) s c (advance (String.length l) s) c
| matches_seq a b s c s1 c1 s2 c2 :
    matches a s c s1 c1 -> matches b s1 c1 s2 c2 -> matches (Seq a b) s c s2 c2
| matches_alt_l a b s c s' c' : matches a s c s' c' -> matches (Alt a b) s c s' c'
| matches_alt_r a b s c s' c' : matches b s c s' c' -> matches (Alt a b) s c s' c'
| matches_star_nil g a s c : matches (Star g a) s c s c
| matches_star_cons g a s c s1 c1 s2 c2 :
    matches a s c s1 c1 -> pos s1 <> pos s -> matches (Star g a) s1 c1 s2 c2 ->
    matches (Star g a) s c s2 c2
| matches_grp n a s c s' c' :
    matches a s c s' c' ->
    matches (Grp n a) s c s' (set_cap n (take (pos s' - pos s) (rest s)) c')
| matches_ref_none n s c : get_cap n c = None -> matches (Ref n) s c s c
| matches_ref_some n s c v r :
    get_cap n c = Some v -> strip_prefix (unit_eq f) v (rest s) = Some r ->
    matches (Ref n) s c (advance (length v) s) c
| matches_bol s c :
    (pos s =? 0)%nat || (multiline f && is_lt (prev s)) = true -> matches Bol s c s c
| matches_eol_end s c : rest s = [] -> matches Eol s c s c
| matches_eol_line s c x r :
    rest s = x :: r -> multiline f && Chr.line_terminator x = true -> matches Eol s c s c
| matches_wb s c :
    xorb (is_word (prev s)) (is_word (head (rest s))) = true -> matches Wb s c s c
| matches_nlook a s c :
    m f a (fun s' c' => Some (s', c')) s c = None -> matches (NLook a) s c s c.

End Matches.

(** The groups a pattern can set. *)
Fixpoint binds (n : nat) (r : re) : bool :=
  match r with
  | Seq a b | Alt a b => binds n a || binds n b
  | Star _ a => binds n a
  | Grp k a => (k =? n)%nat || binds n a
  | _ => false
  end.

(** The group is set on every way through the pattern. *)
Fixpoint sure (n : nat) (r : re) : bool :=
  match r with
  | Seq a b => sure n a || sure n b
  | Alt a b => sure n a && sure n b
  | Grp k a => (k =? n)%nat || sure n a
  | _ => false
  end.

(** The patterns inside the groups numbered [n]. *)
Fixpoint group_bodies (n : nat) (r : re) : list re :=
  match r with
  | Seq a b | Alt a b => group_bodies n a ++ group_bodies n b
  | Star _ a => group_bodies n a
  | Grp k a => (if (k =? n)%nat then [a] else []) ++ group_bodies n a
  | _ => []
  end.

(** The text between two positions of the same subject. *)
Definition between (s s' : st) : chars := take (pos s' - pos s) (rest s).

(** [s'] is [s] moved over the text [w]. *)
Definition moved (s : st) (w : chars) (s' : st) : Prop :=
  rest s = w ++ rest s' /\ pos s' = (pos s + length w)%nat
  /\ prev s' = match last w with Some x => Some x | None => prev s end.

(** The position after the text [w], [t] being what is left. *)
Definition after (s : st) (w t : chars) : st :=
  St (match last w with Some x => Some x | None => prev s end) (pos s + length w) t.

(** The class ends where [t] begins. *)
Definition not_next (f : flags) (p : ascii -> bool) (t : chars) : Prop :=
  match t with [] => True | y :: _ => in_class f p y = false end.

(** The pattern takes a unit equal to [ch] on every way through. *)
Fixpoint takes (ch : ascii) (r : re) : bool :=
  match r with
  | Lit l => existsb (Chr.eqb ch) (s2l l)
  | Seq a b => takes ch a || takes ch b
  | Alt a b => takes ch a && takes ch b
  | Grp _ a => takes ch a
  | _ => false
  end.

(** A continuation that answers wherever it is called. *)
Definition accepts (K : cont) : Prop := forall s c, exists res, K s c = Some res.

(** The continuation answers at [s], and the answer has [P]. *)
Definition answers (K : cont) (s : st) (c : caps) (P : st * caps -> Prop) : Prop :=
  exists res, K s c = Some res /\ P res.

End Semantics.
(** ** What the parser keeps *)

Module ParserSpec.
Import Editor.

(** The property names every object inherits from [Object.prototype].
    The [nodes] object of the parser is read and written under the
    ids of the diagram; the finite map of the model holds its own
    properties, so the model speaks for the sources that use none of
    these names. *)
Definition inherited : list string :=
  ["constructor"; "__defineGetter__"; "__defineSetter__"; "hasOwnProperty";
   "__lookupGetter__"; "__lookupSetter__"; "isPrototypeOf"; "propertyIsEnumerable";
   "toString"; "valueOf"; "__proto__"; "toLocaleString"].

Definition plain (diagramCode : string) : bool :=
  forallb (fun name => negb (Js.includes name diagramCode)) inherited.

(** A word of [[A-Za-z0-9_]] that is not empty. *)
Definition is_id (v : string) : Prop := v <> EmptyString /\ Shape.word (s2l v).

(** What holds of the record stored under [key] when the source has
    [count] lines. *)
Definition node_ok (count : nat) (key : string) (n : Node) : Prop :=
  id n = key /\ is_id key
  /\ (forall i, line n = Some i -> (i < count)%nat)
  /\ (isImplicit n = true -> line n = None).

Definition nodes_ok (count : nat) (ns : gmap string Node) : Prop :=
  forall key n, ns !! key = Some n -> node_ok count key n.

Definition connection_ok (count : nat) (c : Connection) : Prop :=
  is_id (from c) /\ is_id (to c) /\ (connLine c < count)%nat.

(** The later passes add and rewrite records and drop none. *)
Definition grows (ns ns' : gmap string Node) : Prop :=
  forall key, is_Some (ns !! key) -> is_Some (ns' !! key).

(** The node under [key] has a line of its own and is not implicit. *)
Definition lined (ns : gmap string Node) (key : string) : Prop :=
  exists n, ns !! key = Some n /\ is_Some (line n) /\ isImplicit n = false.

(** A label a definition can hold: not empty, no double quote. *)
Definition no_dq (x : ascii) : bool := negb (Chr.eqb x Js.dq).

Definition is_label (v : string) : Prop :=
  v <> EmptyString /\ Forall (fun x => no_dq x = true) (s2l v).

End ParserSpec.
(** ** The connection mutators: [utils/workflowEditor.js] *)

Module Connections.
Import RegExp Pat Editor.

(** [from -->|"label"| to] and [from --> to], as the mutators spell
    them. *)
Definition labeled_text (a lbl b : string) : string :=
  a +:+ " -->|" +:+ Js.quoted lbl +:+ "| " +:+ b.

Definition plain_text (a b : string) : string := a +:+ " --> " +:+ b.

Definition connection_not_found (fromNodeId toNodeId : string) : error :=
  Error ("Connection from " +:+ Js.quoted fromNodeId +:+ " to "
           +:+ Js.quoted toNodeId +:+ " not found").

(** [connections.find(c => c.from === fromNodeId && c.to === toNodeId)] *)
Definition find_connection (fromNodeId toNodeId : string) (cs : list Connection)
  : option Connection :=
  List.find (fun c => String.eqb (from c) fromNodeId && String.eqb (to c) toNodeId) cs.

(** The line of the connection after the edit. *)
Definition relabel_connection (connection : Connection)
    (fromNodeId toNodeId newLabel l : string) : string :=
  if negb (String.eqb (connLabel connection) EmptyString) then
    Js.replace_str (labeled_text fromNodeId (connLabel connection) toNodeId)
                   (labeled_text fromNodeId newLabel toNodeId) l
  else
    Js.replace_str (plain_text fromNodeId toNodeId)
                   (labeled_text fromNodeId newLabel toNodeId) l.

Definition updateConnectionLabel (diagramCode fromNodeId toNodeId newLabel : string)
  : outcome :=
  let cs := connections (parseMermaidDiagram diagramCode) in
  let lines := Js.split_lines diagramCode in
  match find_connection fromNodeId toNodeId cs with
  | None => Thrown (connection_not_found fromNodeId toNodeId)
  | Some connection =>
      match lines !! connLine connection with
      | None => Thrown TypeError
      | Some l =>
          let l' := relabel_connection connection fromNodeId toNodeId newLabel l in
          Returned (Validator.validateAndFixMermaidSyntax
                      (Js.join_lines (<[ connLine connection := l' ]> lines)))
      end
  end.

(** [/[A-Za-z0-9_]+\s*-->/] *)
Definition re_arrow_from_id : re := seqs [ident; star ws; Lit "-->"].

(** An id and an opening bracket, brace, or parenthesised bracket,
    anywhere in the line. *)
Definition looks_like_definition (line : string) : bool :=
  test no_flags (seqs [ident; star ws; Lit "["]) line
  || test no_flags (seqs [ident; star ws; Lit "{"]) line
  || test no_flags (seqs [ident; star ws; Lit "(["]) line.

Definition has_arrow (line : string) : bool := test no_flags re_arrow_from_id line.

(** The loop from the last line down to the first: [back] holds the
    lines still to visit, the nearest first, so that the line visited
    has the index [length back - 1].  The loop stops at the first
    line with an arrow; before that, every line that looks like a
    definition resets the index. *)
Fixpoint scan_back (back : list string) (insertIndex : nat) : nat :=
  match back with
  | [] => insertIndex
  | l :: back' =>
      let i := length back' in
      let line := Js.trim l in
      if has_arrow line then S i
      else scan_back back' (if looks_like_definition line then S i else insertIndex)
  end.

Definition insert_index (lines : list string) : nat :=
  scan_back (reverse lines) (length lines - 1).

(** The text of the new connection: a label that is not blank is
    trimmed, its double quotes get a backslash. *)
Definition sanitized (connectionLabel : string) : string :=
  Js.replace_all_re no_flags quote 0 ("\" +:+ Js.Q) (Js.trim connectionLabel).

Definition connection_string (fromNodeId toNodeId connectionLabel : string) : string :=
  if negb (String.eqb connectionLabel EmptyString)
     && negb (String.eqb (Js.trim connectionLabel) EmptyString)
  then labeled_text fromNodeId (sanitized connectionLabel) toNodeId
  else plain_text fromNodeId toNodeId.

Definition no_diagram : error := Error "No diagram code provided".
Definition ids_missing : error :=
  Error "Both source and target node IDs must be provided".
Definition no_source (fromNodeId : string) : error :=
  Error ("Source node " +:+ Js.quoted fromNodeId +:+ " does not exist in the diagram").
Definition no_target (toNodeId : string) : error :=
  Error ("Target node " +:+ Js.quoted toNodeId +:+ " does not exist in the diagram").

Definition addConnection (diagramCode fromNodeId toNodeId connectionLabel : string)
  : outcome :=
  if String.eqb diagramCode EmptyString then Thrown no_diagram
  else if String.eqb fromNodeId EmptyString || String.eqb toNodeId EmptyString
  then Thrown ids_missing
  else
    let ns := nodes (parseMermaidDiagram diagramCode) in
    match ns !! fromNodeId with
    | None => Thrown (no_source fromNodeId)
    | Some _ =>
        match ns !! toNodeId with
        | None => Thrown (no_target toNodeId)
        | Some _ =>
            let lines := Js.split_lines diagramCode in
            let connectionString :=
              connection_string fromNodeId toNodeId connectionLabel in
            Returned (Validator.validateAndFixMermaidSyntax
                        (Js.join_lines
                           (splice_in (insert_index lines) connectionString lines)))
        end
    end.

End Connections.

(** ** The editor form: [components/WorkflowEditor.jsx] *)

Module EditorForm.
Import Editor.

(** What a handler of the form does with the result of a mutator: it
    hands the new diagram to [onUpdate], or shows the message of the
    error it caught after a prefix. *)
Inductive handled :=
| OnUpdate (updatedDiagram : string)
| SetError (prefix : string) (caught : error).

Definition handle (prefix : string) (o : outcome) : handled :=
  match o with
  | Returned updatedDiagram => OnUpdate updatedDiagram
  | Thrown e => SetError prefix e
  end.

Definition type_name (t : NodeType) : string :=
  match t with
  | process => "process"
  | decision => "decision"
  | startEnd => "startEnd"
  end.

(** The details [handleDefineImplicitNode] builds from a node of the
    list on display. *)
Definition definition_details (node : Node) : NodeDetails :=
  mkDetails (Some (id node))
            (or_else (label node) (id node))
            (Some (default EmptyString (timeEstimate node)))
            (type_name (type node))
            None None None.

Definition handleDefineImplicitNode (diagramCode : string) (node : Node) : handled :=
  handle "Failed to define implicit node: "
         (addNode diagramCode (definition_details node)).

End EditorForm.

(** ** Where a new connection goes, and samples *)

Module ConnectionsSpec.
Import Editor Connections.

Definition arrow_line (l : string) : bool := has_arrow (Js.trim l).
Definition definition_line (l : string) : bool := looks_like_definition (Js.trim l).

(** [l] is the last line that satisfies [p], at index [i]. *)
Definition last_line (p : string -> bool) (lines : list string) (i : nat) : Prop :=
  (exists l, lines !! i = Some l /\ p l = true)
  /\ forall j l, (i < j)%nat -> lines !! j = Some l -> p l = false.

Definition first_line (p : string -> bool) (lines : list string) (i : nat) : Prop :=
  (exists l, lines !! i = Some l /\ p l = true)
  /\ forall j l, (j < i)%nat -> lines !! j = Some l -> p l = false.

Definition no_line (p : string -> bool) (lines : list string) : Prop :=
  forall j l, lines !! j = Some l -> p l = false.

(** The index the loop of [addConnection] ends with, [start] being
    the one it begins with. *)
Definition placed (lines : list string) (start k : nat) : Prop :=
  (forall i, last_line arrow_line lines i -> k = S i)
  /\ (no_line arrow_line lines ->
      forall i, first_line definition_line lines i -> k = S i)
  /\ (no_line arrow_line lines -> no_line definition_line lines -> k = start).

(** The text [updateConnectionLabel] looks for in the line of a
    connection. *)
Definition searched_text (c : Connection) (fromNodeId toNodeId : string) : string :=
  if negb (String.eqb (connLabel c) EmptyString)
  then labeled_text fromNodeId (connLabel c) toNodeId
  else plain_text fromNodeId toNodeId.

(** Two declared nodes and no connection. *)
Definition two_nodes : string :=
  Js.join_lines ["graph TD"; Samples.node "A" "x"; Samples.node "B" "y"].

(** A connection written without spaces around the arrow. *)
Definition tight_arrow : string :=
  Js.join_lines ["graph TD"; Samples.node "A" "x"; Samples.node "B" "y"; "A-->B"].

End ConnectionsSpec.
(** ** Time savings: [calculateTimeSavings] in [utils/metricsProcessor.js] *)

Module Savings.
Import Metrics.
Local Open Scope Q_scope.






End Savings.

(** ** What the time functions keep *)

Module TimeSpec.
Import Metrics.
Local Open Scope Q_scope.

(** Decimal digits, and the value [digits_value] reads from a start
    value. *)
Definition digits (l : chars) : Prop := Forall (fun c => Chr.digit c = true) l.

Definition read_from (a : Z) (l : chars) : Z :=
  fold_left (fun acc c => (10 * acc + Z.of_nat (Chr.code c - 48))%Z) l a.


Definition before (a b : StepTime) : Prop := (step_number a <= step_number b)%Z.


(** The units between a count and its unit word, and the units that
    begin the word for minutes. *)
Definition numeric (x : ascii) : bool := Chr.digit x || Chr.eqb "."%char x || Chr.space x.
Definition m_like (x : ascii) : bool := RegExp.unit_eq RegExp.flag_i "m"%char x.

(** No unit of [l] is [ch] in either case. *)
Definition lacks (ch : ascii) (l : chars) : bool :=
  forallb (fun x => negb (RegExp.unit_eq RegExp.flag_i ch x)) l.

(** The units that tell the patterns apart. *)
Definition unit_marks : chars := ["w"; "d"; "h"; "m"; "-"]%char.

(** The text the formatter writes for whole minutes: days of eight
    hours from a day of twenty-four hours on, then hours, then
    minutes, a part that is zero left out. *)
Definition hours_part (h : Z) : string :=
  if (0 <? h)%Z then " " +:+ count h "hour" else EmptyString.

Definition minutes_part (m : Z) : string :=
  if (0 <? m)%Z then " " +:+ count m "minute" else EmptyString.

Definition written (m : Z) : string :=
  if (1440 <=? m)%Z then
    count (m / 480) "day" +:+ hours_part (m mod 480 / 60) +:+ minutes_part (m mod 60)
  else if (60 <=? m)%Z then count (m / 60) "hour" +:+ minutes_part (m mod 60)
  else count m "minute".

End TimeSpec.
(** ** Rows of a document: [utils/documentEditor.js] *)

Module DocumentRows.
Import Document.

Record RemoveInfo := mkRemove { rmSectionIndex : Z; rmRowIndex : Z }.

Record AddInfo := mkAdd {
  addSectionIndex : Z;
  position : Z;
  cellContents : list string
}.

(** The tree without the [k]-th descendant that has one of the tags,
    in document order; the count left when there are fewer. *)
Fixpoint remove_nth (tags : list string) (k : nat) (d : Dom) : Dom * option nat :=
  match d with
  | Text _ => (d, Some k)
  | Element t a cs =>
      let '(cs', k') :=
        (fix go (cs : list Dom) (k : nat) : list Dom * option nat :=
           match cs with
           | [] => ([], Some k)
           | c :: cs' =>
               if has_tag tags c && (k =? 0)%nat then (cs', None)
               else
                 let k1 := if has_tag tags c then (k - 1)%nat else k in
                 match remove_nth tags k1 c with
                 | (c', None) => (c' :: cs', None)
                 | (c', Some k2) =>
                     let '(cs'', r) := go cs' k2 in (c' :: cs'', r)
                 end
           end) cs k in
      (Element t a cs', k')
  end.

(** [parent.insertBefore(node, reference)], the reference being the
    [k]-th descendant of [parent] with one of the tags: the children
    with [node] put before the reference when it is one of them,
    [None] when the reference lies deeper. *)
Fixpoint insert_before (tags : list string) (node : Dom) (k : nat) (cs : list Dom)
  : option (list Dom) :=
  match cs with
  | [] => Some [node]
  | c :: cs' =>
      if has_tag tags c && (k =? 0)%nat then Some (node :: c :: cs')
      else
        let k1 := if has_tag tags c then (k - 1)%nat else k in
        let inside := length (querySelectorAll tags c) in
        if (k1 <? inside)%nat then None
        else option_map (cons c) (insert_before tags node (k1 - inside) cs')
  end.

Definition append_child (node : Dom) (parent : Dom) : Dom :=
  match parent with
  | Element t a cs => Element t a (cs ++ [node])
  | Text _ => parent
  end.

Section WithDom.
(** The document library, as for [updateDocumentCell]; [not_a_child]
    is the error of [insertBefore] for a reference that is no child
    of the parent. *)
Variable JSDOM : string -> option Dom.
Variable serialize : Dom -> string.
Variable innerHTML : Dom -> string.
Variable fragment : string -> list Dom.
Variable colSpanOf rowSpanOf : Dom -> Z.
Variable not_a_child : error.

Let parse := parseDocumentContent JSDOM innerHTML colSpanOf rowSpanOf.

Definition table_not_found (tableIndex : nat) : error :=
  Error ("Table with index " +:+ Js.string_of_nat tableIndex +:+ " not found").

Definition row_not_found (rowIndex tableIndex : nat) : error :=
  Error ("Row with index " +:+ Js.string_of_nat rowIndex +:+ " not found in table "
           +:+ Js.string_of_nat tableIndex).

(** The document with [f] applied to its [k]-th table. *)
Definition edit_table (f : Dom -> Dom) (k : nat) (document : Dom) : Dom :=
  fst (update_nth ["table"] f k document).

Definition removeDocumentRow (documentContent : string) (removeInfo : RemoveInfo)
  : outcome :=
  let parsedDocument := parse documentContent in
  if out_of_range (rmSectionIndex removeInfo) (sections parsedDocument) then
    Thrown (invalid "section" (rmSectionIndex removeInfo))
  else
    match at_index (sections parsedDocument) (rmSectionIndex removeInfo) with
    | None => Thrown TypeError
    | Some section =>
        if out_of_range (rmRowIndex removeInfo) (rows section) then
          Thrown (invalid "row" (rmRowIndex removeInfo))
        else
          match JSDOM documentContent, at_index (rows section) (rmRowIndex removeInfo) with
          | Some document, Some row =>
              match map snd (tables_in document) !! tableIndex section with
              | None => Thrown (table_not_found (tableIndex section))
              | Some targetTable =>
                  match querySelectorAll ["tr"] targetTable !! rowIndex row with
                  | None => Thrown (row_not_found (rowIndex row) (tableIndex section))
                  | Some _ =>
                      Returned
                        (serialize
                           (edit_table (fun t => fst (remove_nth ["tr"] (rowIndex row) t))
                                       (tableIndex section) document))
                  end
              end
          | _, _ => Thrown TypeError
          end
    end.

(** The row [addDocumentRow] builds: one [td] for each content. *)
Definition new_row (contents : list string) : Dom :=
  Element "tr" [] (map (fun cellContent => Element "td" [] (fragment cellContent)) contents).

(** The table with the new row: appended when the position is -1, is
    not below the number of rows, or names no row; put before the row
    at the position otherwise. *)
Definition place_row (newRow : Dom) (position : Z) (targetTable : Dom) : option Dom :=
  let rows := querySelectorAll ["tr"] targetTable in
  if (position =? -1)%Z || (Z.of_nat (length rows) <=? position)%Z
  then Some (append_child newRow targetTable)
  else
    match at_index rows position, targetTable with
    | Some _, Element t a cs =>
        option_map (Element t a) (insert_before ["tr"] newRow (Z.to_nat position) cs)
    | _, _ => Some (append_child newRow targetTable)
    end.

Definition addDocumentRow (documentContent : string) (addInfo : AddInfo) : outcome :=
  let parsedDocument := parse documentContent in
  if out_of_range (addSectionIndex addInfo) (sections parsedDocument) then
    Thrown (invalid "section" (addSectionIndex addInfo))
  else
    match JSDOM documentContent,
          at_index (sections parsedDocument) (addSectionIndex addInfo) with
    | Some document, Some section =>
        match map snd (tables_in document) !! tableIndex section with
        | None => Thrown (table_not_found (tableIndex section))
        | Some targetTable =>
            match place_row (new_row (cellContents addInfo)) (position addInfo)
                            targetTable with
            | None => Thrown not_a_child
            | Some table' =>
                Returned (serialize (edit_table (fun _ => table')
                                                (tableIndex section) document))
            end
        end
    | _, _ => Thrown TypeError
    end.

End WithDom.

End DocumentRows.
(** ** The last pass of the optimizer route: [ensureEndNodeConsistency]
    in [pages/api/optimize-process.js] *)

Module EndNodes.
Import RegExp Validator.








End EndNodes.
(** ** Lists of units and lines *)

Section Lines.

Lemma l2s_s2l (s : string) : l2s (s2l s) = s.
Proof. apply string_of_list_ascii_of_string. Qed.

Lemma s2l_l2s (l : chars) : s2l (l2s l) = l.
Proof. apply list_ascii_of_string_of_list_ascii. Qed.

Lemma s2l_app (a b : string) : s2l (a +:+ b) = s2l a ++ s2l b.
Proof. induction a as [|x a IH]; simpl; [reflexivity | now rewrite IH]. Qed.

Lemma l2s_app (a b : chars) : l2s (a ++ b) = l2s a +:+ l2s b.
Proof. induction a as [|x a IH]; simpl; [reflexivity | now rewrite IH]. Qed.

Lemma split_nl_cons (l : chars) : exists p ps, Js.split_nl l = p :: ps.
Proof.
  induction l as [|x l [p [ps IH]]]; simpl; [eauto |].
  destruct (Chr.eqb x Js.nl); [eauto | rewrite IH; eauto].
Qed.



Lemma join_lines_cons (x y : string) (l : list string) :
  Js.join_lines (x :: y :: l) = x +:+ Js.NL +:+ Js.join_lines (y :: l).
Proof. reflexivity. Qed.

Lemma join_split_nl (l : chars) : Js.join_lines (map l2s (Js.split_nl l)) = l2s l.
Proof.
  induction l as [|x l IH]; [reflexivity |].
  simpl. destruct (split_nl_cons l) as [p [ps Hp]]. rewrite Hp in *.
  simpl map in *.
  destruct (Chr.eqb x Js.nl) eqn:E.
  - apply Ascii.eqb_eq in E. subst x.
    simpl map. rewrite join_lines_cons, IH. reflexivity.
  - simpl map. destruct ps as [|q ps].
    + simpl in *. now rewrite IH.
    + simpl map in *. rewrite join_lines_cons in *. simpl l2s.
      simpl. now rewrite <- IH.
Qed.

(** Joining the lines of a text gives the text back. *)
Lemma join_split (s : string) : Js.join_lines (Js.split_lines s) = s.
Proof. unfold Js.split_lines. rewrite join_split_nl. apply l2s_s2l. Qed.

End Lines.

(** ** White space and lines *)

Module TextFacts.
Import Shape.


Lemma trim_start_blank (a l : chars) :
  blank a -> Js.trim_start (a ++ l) = Js.trim_start l.
Proof.
  induction 1 as [|x a Hx _ IH]; cbn; [reflexivity | now rewrite Hx].
Qed.

Lemma trim_start_blank_all (a : chars) : blank a -> Js.trim_start a = [].
Proof.
  intros H. rewrite <- (app_nil_r a). now rewrite trim_start_blank.
Qed.









End TextFacts.
(** ** Facts about the matcher *)

Module EngineFacts.
Import RegExp Pat Shape TextFacts.

(** A comparison of units is unfolded when both are known. *)
Local Arguments Chr.eqb !a !b.


(** *** The search for the word [endNode] *)









(** *** The id at the start of a line *)










End EngineFacts.
(** ** Properties of the validator *)

Module ValidatorFacts.
Import Validator Spec.














(** C1: the validator is not idempotent.  With a group left open and
    [endNode] as the last word of the text, the first run keeps the
    word and appends the closer, and the second run renames the word;
    the text returned for an empty source is rewritten as well. *)
Theorem validate_twice_differs :
  validateAndFixMermaidSyntax Samples.open_group_endNode
    = Js.join_lines ["graph TD"; "subgraph S"; Samples.node "X" "a" +:+ " --> endNode"; "end"]
  /\ validateAndFixMermaidSyntax (validateAndFixMermaidSyntax Samples.open_group_endNode)
    = Js.join_lines ["graph TD"; "subgraph S"; Samples.node "X" "a" +:+ " --> endProcess"; "end"]
  /\ validateAndFixMermaidSyntax EmptyString
    = Js.join_lines ["graph TD"; "A[No diagram available]"]
  /\ validateAndFixMermaidSyntax (validateAndFixMermaidSyntax EmptyString)
    = Js.join_lines ["graph TD"; Samples.node "A" "No diagram available"].
Proof. repeat split; vm_compute; reflexivity. Qed.






End ValidatorFacts.

(** ** Properties of the editor *)

Module EditorFacts.
Import Editor EditorSamples EditorSpec.




(** C4: when the parsed model of a source holds two nodes or fewer,
    [removeNode] fails for every id, with the not-found error or with
    the floor error (the floor error whenever the id is in the model),
    and returns no source. *)
Theorem removeNode_floor (source nodeId : string) :
  (size (nodes (parseMermaidDiagram source)) <= 2)%nat ->
  (removeNode source nodeId = Thrown (not_found nodeId)
   \/ removeNode source nodeId = Thrown floor_error)
  /\ (is_Some (nodes (parseMermaidDiagram source) !! nodeId) ->
      removeNode source nodeId = Thrown floor_error)
  /\ forall out : string, removeNode source nodeId <> Returned out.
Proof.
  intros Hsize. unfold removeNode.
  destruct (nodes (parseMermaidDiagram source) !! nodeId) as [n|].
  - apply Nat.leb_le in Hsize. rewrite Hsize.
    split; [now right |]. split; [reflexivity | discriminate].
  - split; [now left |]. split; [intros [x Hx]; discriminate | discriminate].
Qed.

Lemma removeNode_floor_witness :
  removeNode a_to_b "A" = Thrown floor_error.
Proof.
  apply (removeNode_floor a_to_b "A").
  - vm_compute. lia.
  - vm_compute. eauto.
Defined.











End EditorFacts.

(** ** Properties of the time parser and of the merge *)

Module MetricsFacts.
Import RegExp Metrics MetricsSpec MetricsSamples.
Local Open Scope Q_scope.

Lemma Qpos_lt (q : Q) : Qpos q = true -> 0 < q.
Proof.
  unfold Qpos. intros H. apply negb_true_iff in H.
  apply Qnot_le_lt. intros Hle. apply Qle_bool_iff in Hle. congruence.
Qed.

Lemma Qpos_Qred (q : Q) : Qpos (Qred q) = negb (Qle_bool q 0).
Proof.
  unfold Qpos. f_equal.
  destruct (Qle_bool q 0) eqn:E.
  - apply Qle_bool_iff. rewrite Qred_correct. now apply Qle_bool_iff.
  - destruct (Qle_bool (Qred q) 0) eqn:E'; [| reflexivity].
    apply Qle_bool_iff in E'. rewrite Qred_correct in E'.
    apply Qle_bool_iff in E'. congruence.
Qed.

(** The parser follows the precedence of the specification. *)
Lemma parse_by_precedence (s : string) :
  same_minutes (parseTimeToMinutes s) (minutes_by_precedence s).
Proof.
  unfold parseTimeToMinutes, minutes_by_precedence.
  destruct (String.eqb s EmptyString || String.eqb s "Unknown"); [exact I |].
  unfold precedence, first_match.
  unfold weekRangeMatch, weeksMatch, dayRangeMatch, daysMatch.
  destruct (exec flag_i re_week_range s) as [r|].
  { cbn. rewrite Qred_correct. unfold range_count, minutes_in, days_per_week,
      hours_per_day, minutes_per_hour. field. }
  destruct (exec flag_i re_weeks s) as [r|].
  { cbn. rewrite Qred_correct. unfold single_count, minutes_in, days_per_week,
      hours_per_day, minutes_per_hour. ring. }
  destruct (exec flag_i re_day_range s) as [r|].
  { cbn. rewrite Qred_correct. unfold range_count, minutes_in,
      hours_per_day, minutes_per_hour. field. }
  destruct (exec flag_i re_days s) as [r|].
  { cbn. rewrite Qred_correct. unfold single_count, minutes_in,
      hours_per_day, minutes_per_hour. ring. }
  rewrite Qpos_Qred.
  destruct (Qle_bool (hours_and_minutes s) 0); cbn; [exact I | apply Qred_correct].
Qed.

Lemma no_pattern_in_sentinels (s : string) :
  String.eqb s EmptyString || String.eqb s "Unknown" = true ->
  first_match precedence s = None.
Proof.
  intros H. apply orb_true_iff in H as [H|H]; apply String.eqb_eq in H; subst s;
    vm_compute; reflexivity.
Qed.


(** C10, as stated, fails: a zero count of days is returned as 0. *)
Lemma zero_days_is_zero : ~ never_zero "0 days".
Proof. intros H. apply (H 0); [vm_compute; reflexivity | reflexivity]. Qed.

(** C10, amended: when no week or day pattern matches, the parser
    returns [null] or a number of minutes above zero, and [null]
    whenever the hours and minutes found add up to nothing; when a week
    or day pattern matches, it returns the count times the unit, also
    when that is zero. *)
Theorem zero_minutes_is_null (s : string) :
  (no_week_or_day s ->
   (forall q : Q, parseTimeToMinutes s = Some q -> 0 < q)
   /\ (hours_and_minutes s <= 0 -> parseTimeToMinutes s = None))
  /\ (forall q : Q,
        first_match precedence s = Some q ->
        exists q' : Q, parseTimeToMinutes s = Some q' /\ q' == q).
Proof.
  split.
  - intros (H1 & H2 & H3 & H4). unfold parseTimeToMinutes.
    rewrite H1, H2, H3, H4.
    destruct (String.eqb s EmptyString || String.eqb s "Unknown").
    + split; [discriminate | reflexivity].
    + split.
      * intros q. destruct (Qpos (Qred (hours_and_minutes s))) eqn:E; [| discriminate].
        intros [= <-]. now apply Qpos_lt.
      * intros Hle. rewrite Qpos_Qred. apply Qle_bool_iff in Hle. now rewrite Hle.
  - intros q Hq. pose proof (parse_by_precedence s) as H.
    unfold minutes_by_precedence in H.
    destruct (String.eqb s EmptyString || String.eqb s "Unknown") eqn:E.
    + rewrite (no_pattern_in_sentinels s E) in Hq. discriminate.
    + rewrite Hq in H. destruct (parseTimeToMinutes s) as [q'|]; [| contradiction].
      exists q'. split; [reflexivity | exact H].
Qed.

Lemma zero_minutes_is_null_witness :
  parseTimeToMinutes "0 minutes" = None
  /\ exists q' : Q, parseTimeToMinutes "0 days" = Some q' /\ q' == 0.
Proof.
  split.
  - apply (proj1 (zero_minutes_is_null "0 minutes")).
    + repeat split; vm_compute; reflexivity.
    + vm_compute. discriminate.
  - apply (proj2 (zero_minutes_is_null "0 days")). vm_compute. reflexivity.
Defined.

(** *** The merge *)

Lemma map_get_set (k k' : string) (v : StepTime) (m : step_map) :
  map_get k' (map_set k v m) = if String.eqb k k' then Some v else map_get k' m.
Proof.
  unfold map_get. induction m as [|[k0 v0] m IH]; cbn.
  - destruct (String.eqb k k'); reflexivity.
  - destruct (String.eqb k0 k) eqn:E0; cbn.
    + apply String.eqb_eq in E0. subst k0.
      destruct (String.eqb k k'); reflexivity.
    + destruct (String.eqb k0 k') eqn:E1; cbn.
      * apply String.eqb_eq in E1. subst k0.
        rewrite String.eqb_sym in E0. now rewrite E0.
      * exact IH.
Qed.

Lemma map_has_get (k : string) (m : step_map) :
  map_has k m = match map_get k m with Some _ => true | None => false end.
Proof.
  unfold map_has, map_get. induction m as [|[k0 v0] m IH]; cbn; [reflexivity |].
  destruct (String.eqb k0 k); cbn; [reflexivity | exact IH].
Qed.

Lemma keyed_set (k : string) (v : StepTime) (m : step_map) :
  step v = k -> keyed m -> keyed (map_set k v m).
Proof.
  intros Hv. unfold keyed. induction m as [|[k0 v0] m IH]; intros H; cbn.
  - repeat constructor. exact Hv.
  - apply Forall_cons in H as [H0 H].
    destruct (String.eqb k0 k); constructor; auto.
Qed.

Lemma keys_set (k : string) (v : StepTime) (m : step_map) :
  map fst (map_set k v m) = map fst m
  \/ ((k ∉ map fst m) /\ map fst (map_set k v m) = map fst m ++ [k]).
Proof.
  induction m as [|[k0 v0] m IH]; cbn.
  - right. split; [apply not_elem_of_nil | reflexivity].
  - destruct (String.eqb k0 k) eqn:E; cbn.
    + apply String.eqb_eq in E. subst k0. now left.
    + apply String.eqb_neq in E. destruct IH as [IH|[Hn IH]].
      * left. now rewrite IH.
      * right. split; [| now rewrite IH].
        intros H. apply elem_of_cons in H as [H|H]; [congruence | contradiction].
Qed.

Lemma NoDup_keys_set (k : string) (v : StepTime) (m : step_map) :
  NoDup (map fst m) -> NoDup (map fst (map_set k v m)).
Proof.
  intros H. destruct (keys_set k v m) as [->|[Hn ->]]; [exact H |].
  apply NoDup_app. split; [exact H |]. split.
  - intros x Hx Hk. apply list_elem_of_singleton in Hk. subst x. contradiction.
  - apply NoDup_singleton.
Qed.

Lemma entry_for_app (k : string) (a b : list StepTime) :
  entry_for k (a ++ b)
  = match entry_for k a with Some x => Some x | None => entry_for k b end.
Proof.
  unfold entry_for. induction a as [|x a IH]; cbn; [reflexivity |].
  destruct (String.eqb (step x) k); [reflexivity | exact IH].
Qed.

(** The document entries: the last one under each key is kept. *)
Lemma get_document_steps (k : string) (l : list StepTime) :
  forall m : step_map,
    map_get k (add_document_steps l m)
    = match last_entry_for k l with
      | Some d => Some (tagged "document" d)
      | None => map_get k m
      end.
Proof.
  unfold add_document_steps, last_entry_for.
  induction l as [|x l IH]; intros m; cbn [fold_left rev]; [reflexivity |].
  rewrite IH, entry_for_app, map_get_set.
  destruct (entry_for k (rev l)); [reflexivity |].
  unfold entry_for. cbn. destruct (String.eqb (step x) k); reflexivity.
Qed.

(** The workflow entries: the first one under each key the [Map] does
    not hold yet. *)
Lemma get_workflow_steps (k : string) (l : list StepTime) :
  forall m : step_map,
    map_get k (add_workflow_steps l m)
    = match map_get k m with
      | Some v => Some v
      | None => option_map (tagged "workflow") (entry_for k l)
      end.
Proof.
  unfold add_workflow_steps.
  induction l as [|x l IH]; intros m; cbn [fold_left].
  - destruct (map_get k m); reflexivity.
  - rewrite IH. unfold entry_for. cbn [List.find].
    rewrite map_has_get.
    destruct (map_get (step x) m) as [v|] eqn:Ex.
    + destruct (map_get k m) eqn:Ek; [reflexivity |].
      destruct (String.eqb (step x) k) eqn:E; [| reflexivity].
      apply String.eqb_eq in E. congruence.
    + rewrite map_get_set.
      destruct (String.eqb (step x) k) eqn:E.
      * apply String.eqb_eq in E. rewrite <- E, Ex. reflexivity.
      * reflexivity.
Qed.

Lemma fold_invariant {A} (P : step_map -> Prop) (f : step_map -> A -> step_map)
    (l : list A) :
  (forall m x, P m -> P (f m x)) -> forall m, P m -> P (fold_left f l m).
Proof. intros Hf. induction l as [|x l IH]; intros m Hm; cbn; auto. Qed.

Lemma merged_map_shape (workflow document : ProcessMetrics) :
  keyed (merged_map workflow document)
  /\ NoDup (map fst (merged_map workflow document)).
Proof.
  unfold merged_map.
  set (P := fun m : step_map => keyed m /\ NoDup (map fst m)).
  assert (P0 : P []) by (split; constructor).
  assert (Pd : forall l m, P m -> P (add_document_steps l m)).
  { intros l. apply fold_invariant. intros m x [H1 H2].
    split; [now apply keyed_set | now apply NoDup_keys_set]. }
  assert (Pw : forall l m, P m -> P (add_workflow_steps l m)).
  { intros l. apply fold_invariant. intros m x [H1 H2].
    destruct (map_has (step x) m); [now split |].
    split; [now apply keyed_set | now apply NoDup_keys_set]. }
  destruct (stepTimes document), (stepTimes workflow).
  - apply (Pw _ _ (Pd _ _ P0)).
  - apply (Pd _ _ P0).
  - apply (Pw _ _ P0).
  - exact P0.
Qed.

Lemma merged_map_get (k : string) (workflow document : ProcessMetrics) :
  map_get k (merged_map workflow document)
  = match last_entry_for k (default [] (stepTimes document)) with
    | Some d => Some (tagged "document" d)
    | None => option_map (tagged "workflow")
                (entry_for k (default [] (stepTimes workflow)))
    end.
Proof.
  unfold merged_map.
  destruct (stepTimes document) as [ld|], (stepTimes workflow) as [lw|];
    cbn [default from_option id].
  - rewrite get_workflow_steps, get_document_steps.
    destruct (last_entry_for k ld); reflexivity.
  - rewrite get_document_steps. destruct (last_entry_for k ld); reflexivity.
  - rewrite get_workflow_steps. reflexivity.
  - reflexivity.
Qed.

(** The values of a keyed [Map], looked up by step. *)
Lemma entry_for_values (k : string) (m : step_map) :
  keyed m -> entry_for k (map_values m) = map_get k m.
Proof.
  unfold keyed, entry_for, map_values, map_get.
  induction m as [|[k0 v0] m IH]; intros H; cbn; [reflexivity |].
  apply Forall_cons in H as [H0 H]. cbn in H0. rewrite H0.
  destruct (String.eqb k0 k); [reflexivity | auto].
Qed.

Lemma steps_of_values (m : step_map) :
  keyed m -> map step (map_values m) = map fst m.
Proof.
  unfold keyed, map_values. induction m as [|[k0 v0] m IH]; intros H; cbn; [reflexivity |].
  apply Forall_cons in H as [H0 H]. cbn in H0. rewrite H0. f_equal. auto.
Qed.

(** *** The sort *)

Lemma insert_step_perm (a : StepTime) (l : list StepTime) :
  Permutation (insert_step a l) (a :: l).
Proof.
  induction l as [|b l IH]; cbn; [reflexivity |].
  destruct (step_number a <=? step_number b)%Z; [reflexivity |].
  rewrite IH. apply perm_swap.
Qed.

Lemma sort_steps_perm (l : list StepTime) : Permutation (sort_steps l) l.
Proof.
  unfold sort_steps. induction l as [|a l IH]; cbn; [reflexivity |].
  rewrite insert_step_perm. now constructor.
Qed.

Lemma entry_for_Some (k : string) (l : list StepTime) (x : StepTime) :
  entry_for k l = Some x -> x ∈ l /\ step x = k.
Proof.
  unfold entry_for. intros H. apply find_some in H as [H1 H2].
  split; [now apply list_elem_of_In | now apply String.eqb_eq].
Qed.

Lemma entry_for_None (k : string) (l : list StepTime) (x : StepTime) :
  entry_for k l = None -> x ∈ l -> step x <> k.
Proof.
  unfold entry_for. intros H Hx. apply list_elem_of_In in Hx.
  pose proof (find_none _ _ H x Hx) as Hn. now apply String.eqb_neq.
Qed.

Lemma same_step_same_entry (l : list StepTime) (x y : StepTime) :
  NoDup (map step l) -> x ∈ l -> y ∈ l -> step x = step y -> x = y.
Proof.
  induction l as [|z l IH]; intros Hnd Hx Hy Hs; [inversion Hx |].
  cbn in Hnd. apply NoDup_cons in Hnd as [Hz Hnd].
  apply elem_of_cons in Hx as [->|Hx]; apply elem_of_cons in Hy as [->|Hy]; auto.
  - exfalso. apply Hz. rewrite Hs. now apply list_elem_of_fmap_2.
  - exfalso. apply Hz. rewrite <- Hs. now apply list_elem_of_fmap_2.
Qed.

(** With one entry for each step, the order does not matter to a
    lookup. *)
Lemma entry_for_perm (k : string) (l l' : list StepTime) :
  Permutation l l' -> NoDup (map step l) -> entry_for k l' = entry_for k l.
Proof.
  intros Hp Hnd.
  destruct (entry_for k l) as [x|] eqn:E.
  - apply entry_for_Some in E as [Hx Hk].
    destruct (entry_for k l') as [y|] eqn:E'.
    + apply entry_for_Some in E' as [Hy Hk'].
      f_equal. apply (same_step_same_entry l); auto.
      * now rewrite Hp.
      * congruence.
    + exfalso. apply (entry_for_None k l' x E'); [now rewrite <- Hp | exact Hk].
  - destruct (entry_for k l') as [y|] eqn:E'; [| reflexivity].
    apply entry_for_Some in E' as [Hy Hk'].
    exfalso. apply (entry_for_None k l y E); [now rewrite Hp | exact Hk'].
Qed.

(** C8, as stated, fails: of two document entries under one step key
    the merge keeps the later one only. *)
Lemma earlier_document_entry_dropped :
  ~ keeps_every_document_entry 0 None document_twice.
Proof.
  intros H. specialize (H (entry "1" 30)).
  assert (Hin : entry "1" 30 ∈ steps_of document_twice) by (left; reflexivity).
  specialize (H Hin). vm_compute in H.
  apply list_elem_of_singleton in H. discriminate.
Qed.

(** C8, amended: the merged step list holds one entry for each step
    key; under a key of the document it is the document's last entry
    with that key, tagged as the document's; under any other key it is
    the workflow's first entry with that key, if there is one; and the
    merged total is the sum of the minutes over the merged step list.
    In the scenario of the specification step 1 keeps the 30 minutes of
    the document, step 2 takes the 20 minutes of the workflow, and the
    total is 50. *)
Theorem merge_precedence (now : Z) (workflow document : option ProcessMetrics) :
  exists l : list StepTime,
    stepTimes (mergeMetrics now workflow document) = Some l
    /\ NoDup (map step l)
    /\ (forall (k : string) (d : StepTime),
          last_entry_for k (steps_of document) = Some d ->
          entry_for k l = Some (tagged "document" d))
    /\ (forall k : string,
          last_entry_for k (steps_of document) = None ->
          entry_for k l = option_map (tagged "workflow") (entry_for k (steps_of workflow)))
    /\ totalTimeMinutes (mergeMetrics now workflow document) = sum_minutes l
    /\ totalTime (mergeMetrics now workflow document)
       = formatMinutesToTime (Some (sum_minutes l)).
Proof.
  unfold mergeMetrics.
  set (w := default (createDefaultMetrics now "workflow") workflow).
  set (d := default (createDefaultMetrics now "document") document).
  assert (Hw : default [] (stepTimes w) = steps_of workflow)
    by (destruct workflow; reflexivity).
  assert (Hd : default [] (stepTimes d) = steps_of document)
    by (destruct document; reflexivity).
  destruct (merged_map_shape w d) as [Hkeyed Hnodup].
  eexists. split; [reflexivity |].
  assert (Hsteps : NoDup (map step (map_values (merged_map w d))))
    by (rewrite steps_of_values; assumption).
  assert (Hget : forall k, entry_for k (sort_steps (map_values (merged_map w d)))
                           = map_get k (merged_map w d)).
  { intros k. rewrite (entry_for_perm k _ _ (symmetry (sort_steps_perm _)) Hsteps).
    now apply entry_for_values. }
  split.
  { apply (proj2 (NoDup_Permutation_proper _ _ (Permutation_map step (sort_steps_perm _)))).
    exact Hsteps. }
  split.
  { intros k e He. rewrite Hget, merged_map_get, Hd, He. reflexivity. }
  split.
  { intros k He. rewrite Hget, merged_map_get, Hd, He, Hw. reflexivity. }
  split; reflexivity.
Qed.

Lemma merge_precedence_witness :
  exists l : list StepTime,
    stepTimes (mergeMetrics 0 workflow_99_20 document_30) = Some l
    /\ entry_for "1" l = Some (tagged "document" (entry "1" 30))
    /\ entry_for "2" l = Some (tagged "workflow" (entry "2" 20))
    /\ totalTimeMinutes (mergeMetrics 0 workflow_99_20 document_30) = 50.
Proof.
  destruct (merge_precedence 0 workflow_99_20 document_30)
    as (l & Hl & _ & Hdoc & Hwf & Htot & _).
  exists l. split; [exact Hl |].
  split; [apply Hdoc; vm_compute; reflexivity |].
  split; [rewrite Hwf by (vm_compute; reflexivity); vm_compute; reflexivity |].
  vm_compute. reflexivity.
Defined.

End MetricsFacts.

(** ** Properties of the document editor *)

Module DocumentFacts.
Import Document DocumentSamples.

Section WithDom.
Variable JSDOM : string -> option Dom.
Variable serialize : Dom -> string.
Variable innerHTML : Dom -> string.
Variable fragment : string -> list Dom.
Variable colSpanOf rowSpanOf : Dom -> Z.

Let parse := parseDocumentContent JSDOM innerHTML colSpanOf rowSpanOf.
Let update := updateDocumentCell JSDOM serialize innerHTML fragment colSpanOf rowSpanOf.

Lemma out_of_range_iff {A} (i : Z) (l : list A) :
  out_of_range i l = true <-> (i < 0 \/ Z.of_nat (length l) <= i)%Z.
Proof.
  unfold out_of_range. rewrite orb_true_iff, Z.ltb_lt, Z.leb_le. reflexivity.
Qed.

Lemma in_range_at_index {A} (i : Z) (l : list A) (x : A) :
  at_index l i = Some x -> out_of_range i l = false.
Proof.
  unfold at_index, out_of_range. destruct (i <? 0)%Z eqn:E; [discriminate |].
  intros H. apply lookup_lt_Some in H. apply Z.ltb_ge in E.
  cbn. apply Z.leb_gt. lia.
Qed.

(** C9: whatever the document, an update whose section index is out of
    the range of the parsed sections fails with the error that names
    the section index; with a section in range, a row index out of the
    range of its rows fails with the error that names the row index;
    with section and row in range, a cell index out of the range of the
    row's cells fails with the error that names the cell index.  In
    each case the call throws before it builds the tree it would edit,
    and returns no document. *)
Theorem updateDocumentCell_validates (documentContent : string) (u : UpdateInfo) :
  let sections := sections (parse documentContent) in
  ((sectionIndex u < 0 \/ Z.of_nat (length sections) <= sectionIndex u)%Z ->
   update documentContent u = Thrown (invalid "section" (sectionIndex u)))
  /\ (forall section : Section_,
        at_index sections (sectionIndex u) = Some section ->
        (updRowIndex u < 0 \/ Z.of_nat (length (rows section)) <= updRowIndex u)%Z ->
        update documentContent u = Thrown (invalid "row" (updRowIndex u)))
  /\ (forall (section : Section_) (row : Row),
        at_index sections (sectionIndex u) = Some section ->
        at_index (rows section) (updRowIndex u) = Some row ->
        (cellIndex u < 0 \/ Z.of_nat (length (cells row)) <= cellIndex u)%Z ->
        update documentContent u = Thrown (invalid "cell" (cellIndex u))).
Proof.
  intros secs. subst secs update parse. unfold updateDocumentCell.
  split; [| split].
  - intros H. apply out_of_range_iff in H. rewrite H. reflexivity.
  - intros section Hs H. apply out_of_range_iff in H.
    rewrite (in_range_at_index _ _ _ Hs), Hs, H. reflexivity.
  - intros section row Hs Hr H. apply out_of_range_iff in H.
    rewrite (in_range_at_index _ _ _ Hs), Hs, (in_range_at_index _ _ _ Hr), Hr, H.
    reflexivity.
Qed.

End WithDom.

Lemma updateDocumentCell_validates_witness :
  length (sections (sample_parse "doc")) = 2%nat
  /\ sample_update "doc" (mkUpdate 99 0 0 "x") = Thrown (Error "Invalid section index: 99")
  /\ sample_update "doc" (mkUpdate 0 2 0 "x") = Thrown (Error "Invalid row index: 2")
  /\ sample_update "doc" (mkUpdate 0 1 (-1) "x") = Thrown (Error "Invalid cell index: -1").
Proof.
  split; [vm_compute; reflexivity |].
  pose proof (updateDocumentCell_validates read_sample print print_inside read_text
                span_one span_one "doc") as H.
  split; [| split].
  - apply (H (mkUpdate 99 0 0 "x")). vm_compute. right. discriminate.
  - destruct (sections (sample_parse "doc")) as [|s0 l] eqn:E; [vm_compute in E; discriminate E |].
    apply (proj1 (proj2 (H (mkUpdate 0 2 0 "x"))) s0).
    + unfold sample_parse in E. rewrite E. reflexivity.
    + vm_compute in E. injection E as <- _. vm_compute. right. discriminate.
  - destruct (sections (sample_parse "doc")) as [|s0 l] eqn:E; [vm_compute in E; discriminate E |].
    destruct (rows s0) as [|r0 [|r1 rs]] eqn:Er;
      [vm_compute in E; injection E as <- _; vm_compute in Er; discriminate Er
      |vm_compute in E; injection E as <- _; vm_compute in Er; discriminate Er |].
    apply (proj2 (proj2 (H (mkUpdate 0 1 (-1) "x"))) s0 r1).
    + unfold sample_parse in E. rewrite E. reflexivity.
    + cbn. rewrite Er. reflexivity.
    + vm_compute. left. reflexivity.
Defined.

End DocumentFacts.
Module SemanticsFacts.
Import RegExp Semantics.

Lemma repeat_loop_sound (f : flags) (body : cont -> cont) (a : re) (g : bool) (k : cont) :
  (forall k s c res, body k s c = Some res ->
     exists s' c', matches f a s c s' c' /\ k s' c' = Some res) ->
  forall fuel s c res,
    repeat_loop body g k fuel s c = Some res ->
    exists s' c', matches f (Star g a) s c s' c' /\ k s' c' = Some res.
Proof.
  intros Hbody. induction fuel as [|fuel IH]; intros s c res H.
  - exists s, c. split; [constructor | exact H].
  - cbn [repeat_loop] in H.
    set (again := body (fun s' c' => if (pos s' =? pos s)%nat then None
                                     else repeat_loop body g k fuel s' c') s c) in H.
    assert (Hagain : forall res, again = Some res ->
              exists s' c', matches f (Star g a) s c s' c' /\ k s' c' = Some res).
    { intros res' E. apply Hbody in E as (s1 & c1 & Ha & E).
      destruct (pos s1 =? pos s)%nat eqn:Ep; [discriminate E |].
      apply Nat.eqb_neq in Ep.
      apply IH in E as (s2 & c2 & Hs & E).
      exists s2, c2. split; [| exact E]. eapply matches_star_cons; eauto. }
    assert (Hnil : forall res, k s c = Some res ->
              exists s' c', matches f (Star g a) s c s' c' /\ k s' c' = Some res).
    { intros res' E. exists s, c. split; [constructor | exact E]. }
    destruct g.
    + destruct again as [x|] eqn:E.
      * injection H as <-. now apply Hagain.
      * now apply Hnil.
    + destruct (k s c) as [x|] eqn:E.
      * injection H as <-. exists s, c. split; [constructor | exact E].
      * now apply Hagain.
Qed.

(** Every answer of the matcher is a match of the pattern, followed by
    an answer of the continuation. *)
Lemma m_sound (f : flags) (r : re) :
  forall k s c res,
    m f r k s c = Some res ->
    exists s' c', matches f r s c s' c' /\ k s' c' = Some res.
Proof.
  induction r as [|p|l|a IHa b IHb|a IHa b IHb|g a IHa|n a IHa|n| | | |a IHa];
    intros k s c res H; cbn [m] in H.
  - exists s, c. split; [constructor | exact H].
  - destruct (step s) as [[x s']|] eqn:Es; [| discriminate H].
    destruct (in_class f p x) eqn:Ec; [| discriminate H].
    exists s', c. split; [econstructor; eauto | exact H].
  - destruct (strip_prefix (unit_eq f) (s2l l) (rest s)) as [r|] eqn:Ep; [| discriminate H].
    eexists _, c. split; [econstructor; eauto | exact H].
  - apply IHa in H as (s1 & c1 & Ha & H). apply IHb in H as (s2 & c2 & Hb & H).
    exists s2, c2. split; [econstructor; eauto | exact H].
  - destruct (m f a k s c) as [x|] eqn:E.
    + injection H as <-. apply IHa in E as (s' & c' & Ha & E).
      exists s', c'. split; [now apply matches_alt_l | exact E].
    + apply IHb in H as (s' & c' & Hb & H).
      exists s', c'. split; [now apply matches_alt_r | exact H].
  - eapply repeat_loop_sound; [| exact H]. intros; now apply IHa.
  - apply IHa in H as (s' & c' & Ha & H).
    eexists _, _. split; [apply matches_grp; exact Ha | exact H].
  - destruct (get_cap n c) as [v|] eqn:Eg.
    + destruct (strip_prefix (unit_eq f) v (rest s)) as [r|] eqn:Ep; [| discriminate H].
      eexists _, c. split; [eapply matches_ref_some; eauto | exact H].
    + exists s, c. split; [now apply matches_ref_none | exact H].
  - destruct ((pos s =? 0)%nat || multiline f && is_lt (prev s)) eqn:E; [| discriminate H].
    exists s, c. split; [now constructor | exact H].
  - destruct (rest s) as [|x r] eqn:Er.
    + exists s, c. split; [now apply matches_eol_end | exact H].
    + destruct (multiline f && Chr.line_terminator x) eqn:E; [| discriminate H].
      exists s, c. split; [eapply matches_eol_line; eauto | exact H].
  - destruct (xorb (is_word (prev s)) (is_word (head (rest s)))) eqn:E; [| discriminate H].
    exists s, c. split; [now constructor | exact H].
  - destruct (m f a (fun s' c' => Some (s', c')) s c) eqn:E; [discriminate H |].
    exists s, c. split; [now constructor | exact H].
Qed.

Lemma match_at_sound (f : flags) (r : re) (s e : st) (c : caps) :
  match_at f r s = Some (e, c) -> matches f r s [] e c.
Proof.
  unfold match_at. intros H. apply m_sound in H as (s' & c' & Hm & H).
  now injection H as <- <-.
Qed.

Lemma search_from_sound (f : flags) (r : re) :
  forall l p i b e c,
    search_from f r p i l = Some (b, e, c) ->
    exists pre, l = pre ++ rest b /\ pos b = (i + length pre)%nat
                /\ matches f r b [] e c.
Proof.
  induction l as [|x l IH]; intros p i b e c H; cbn [search_from] in H.
  - destruct (match_at f r (St p i [])) as [[e' c']|] eqn:E; [| discriminate H].
    injection H as <- <- <-. exists []. cbn. split; [reflexivity |].
    split; [lia | now apply match_at_sound].
  - destruct (match_at f r (St p i (x :: l))) as [[e' c']|] eqn:E.
    + injection H as <- <- <-. exists []. cbn. split; [reflexivity |].
      split; [lia | now apply match_at_sound].
    + apply IH in H as (pre & -> & Hp & Hm).
      exists (x :: pre). cbn. split; [reflexivity |]. split; [lia | exact Hm].
Qed.

Lemma length_s2l (l : string) : length (s2l l) = String.length l.
Proof. induction l as [|x l IH]; cbn; [reflexivity | now f_equal]. Qed.

(** Moving over text. *)
Lemma moved_refl (s : st) : moved s [] s.
Proof. repeat split. cbn. lia. Qed.

Lemma moved_trans (s s1 s2 : st) (w1 w2 : chars) :
  moved s w1 s1 -> moved s1 w2 s2 -> moved s (w1 ++ w2) s2.
Proof.
  intros (H1 & H2 & H3) (H4 & H5 & H6). repeat split.
  - now rewrite H1, H4, app_assoc.
  - rewrite H5, H2, length_app. lia.
  - rewrite H6, H3. destruct w2 as [|y w2] using rev_ind.
    + now rewrite app_nil_r.
    + now rewrite app_assoc, !last_snoc.
Qed.

Lemma moved_between (s s' : st) (w : chars) : moved s w s' -> between s s' = w.
Proof.
  intros (H1 & H2 & _). unfold between. rewrite H1, H2.
  replace (pos s + length w - pos s)%nat with (length w) by lia.
  now rewrite take_app_length.
Qed.

Lemma moved_step (s s' : st) (x : ascii) : step s = Some (x, s') -> moved s [x] s'.
Proof.
  unfold step. destruct s as [p i [|y r]]; cbn; [discriminate |].
  intros H. injection H as <- <-. repeat split. cbn. lia.
Qed.

Lemma strip_prefix_app (eq : ascii -> ascii -> bool) (p l r : chars) :
  strip_prefix eq p l = Some r ->
  exists w, l = w ++ r /\ length w = length p /\ Forall2 (fun a b => eq a b = true) p w.
Proof.
  revert l. induction p as [|x p IH]; intros l H; cbn in H.
  - injection H as ->. exists []. repeat split. constructor.
  - destruct l as [|y l]; [discriminate H |].
    destruct (eq x y) eqn:E; [| discriminate H].
    apply IH in H as (w & -> & Hl & Hf).
    exists (y :: w). cbn. repeat split; [now f_equal | now constructor].
Qed.

Lemma moved_advance (w r : chars) :
  forall s, rest s = w ++ r -> moved s w (advance (length w) s) /\ rest (advance (length w) s) = r.
Proof.
  induction w as [|x w IH]; intros s H; cbn [advance length].
  - split; [apply moved_refl | exact H].
  - unfold step. rewrite H. cbn [app].
    destruct (IH (St (Some x) (S (pos s)) (w ++ r)) eq_refl) as [Hm Hr].
    split; [| exact Hr].
    change (x :: w) with ([x] ++ w). eapply moved_trans; [| exact Hm].
    repeat split; cbn; [exact H | lia].
Qed.

(** A match moves over the text it takes. *)
Lemma matches_moved (f : flags) (r : re) (s s' : st) (c c' : caps) :
  matches f r s c s' c' -> exists w, moved s w s'.
Proof.
  induction 1;
    try (exists []; apply moved_refl).
  - exists [x]. now apply moved_step.
  - apply strip_prefix_app in H as (w & Hw & Hl & _).
    exists w. rewrite <- (length_s2l l), <- Hl. now apply moved_advance with (r := r).
  - destruct IHmatches1 as [w1 Hw1]. destruct IHmatches2 as [w2 Hw2].
    exists (w1 ++ w2). eapply moved_trans; eauto.
  - exact IHmatches.
  - exact IHmatches.
  - destruct IHmatches1 as [w1 Hw1]. destruct IHmatches2 as [w2 Hw2].
    exists (w1 ++ w2). eapply moved_trans; eauto.
  - exact IHmatches.
  - apply strip_prefix_app in H0 as (w & Hw & Hl & _).
    exists w. rewrite <- Hl. now apply moved_advance with (r := r).
Qed.

(** Inversions. *)
Lemma matches_seq_inv (f : flags) (a b : re) (s s' : st) (c c' : caps) :
  matches f (Seq a b) s c s' c' ->
  exists s1 c1, matches f a s c s1 c1 /\ matches f b s1 c1 s' c'.
Proof. intros H. inversion H; subst. eauto. Qed.

Lemma matches_grp_inv (f : flags) (n : nat) (a : re) (s s' : st) (c c' : caps) :
  matches f (Grp n a) s c s' c' -> exists c1, matches f a s c s' c1.
Proof. intros H. inversion H; subst. eauto. Qed.

Lemma matches_alt_inv (f : flags) (a b : re) (s s' : st) (c c' : caps) :
  matches f (Alt a b) s c s' c' -> matches f a s c s' c' \/ matches f b s c s' c'.
Proof. intros H. inversion H; subst; auto. Qed.

Lemma matches_eps_inv (f : flags) (s s' : st) (c c' : caps) :
  matches f Eps s c s' c' -> s' = s /\ c' = c.
Proof. intros H. inversion H; subst. auto. Qed.

End SemanticsFacts.
Module CaptureFacts.
Import RegExp Semantics SemanticsFacts ParserSpec.

Lemma get_cap_set_same (n : nat) (v : chars) (c : caps) :
  get_cap n (set_cap n v c) = Some v.
Proof.
  unfold get_cap. revert c. induction n as [|n IH]; intros [|x c]; cbn; try reflexivity.
  - apply (IH []).
  - apply IH.
Qed.

Lemma get_cap_set_other (n k : nat) (v : chars) (c : caps) :
  k <> n -> get_cap n (set_cap k v c) = get_cap n c.
Proof.
  unfold get_cap. revert n c. induction k as [|k IH]; intros n c Hne.
  - destruct n as [|n]; [lia |]. destruct c as [|x c]; cbn; [| reflexivity].
    now destruct n.
  - destruct n as [|n]; destruct c as [|x c]; cbn; try reflexivity.
    + specialize (IH n [] ltac:(lia)). cbn in IH. etransitivity; [exact IH |].
      now destruct n.
    + apply IH. lia.
Qed.

(** A group the pattern does not hold keeps its value. *)
Lemma matches_frame (f : flags) (r : re) (s s' : st) (c c' : caps) (n : nat) :
  matches f r s c s' c' -> binds n r = false -> get_cap n c' = get_cap n c.
Proof.
  induction 1; cbn [binds]; intros Hb; try reflexivity.
  - apply orb_false_iff in Hb as [Ha Hb]. now rewrite IHmatches2, IHmatches1.
  - apply orb_false_iff in Hb as [Ha Hb]. auto.
  - apply orb_false_iff in Hb as [Ha Hb]. auto.
  - now rewrite IHmatches2, IHmatches1.
  - apply orb_false_iff in Hb as [Hk Hb]. apply Nat.eqb_neq in Hk.
    rewrite get_cap_set_other by exact Hk. auto.
Qed.

(** Where the value of a group comes from: it is the one before, or
    the text of a match of one of the patterns inside that group; and
    it is such a text when the group is on every way through. *)
Lemma matches_origin (f : flags) (n : nat) (P : chars -> Prop) (r : re)
    (s s' : st) (c c' : caps) :
  matches f r s c s' c' ->
  (forall a s1 c1 s2 c2,
     In a (group_bodies n r) -> matches f a s1 c1 s2 c2 -> P (between s1 s2)) ->
  (sure n r = false /\ get_cap n c' = get_cap n c)
  \/ (exists v, get_cap n c' = Some v /\ P v).
Proof.
  induction 1; cbn [sure group_bodies]; intros HP;
    try (left; split; reflexivity).
  - destruct IHmatches2 as [[Hs2 E2]|Hr].
    { intros; eapply HP; [apply in_or_app; right |]; eauto. }
    + destruct IHmatches1 as [[Hs1 E1]|Hr].
      { intros; eapply HP; [apply in_or_app; left |]; eauto. }
      * left. rewrite Hs1, Hs2, E2, E1. now split.
      * right. now rewrite E2.
    + now right.
  - destruct IHmatches as [[Hs1 E1]|Hr].
    { intros; eapply HP; [apply in_or_app; left |]; eauto. }
    + left. rewrite Hs1. now split.
    + now right.
  - destruct IHmatches as [[Hs1 E1]|Hr].
    { intros; eapply HP; [apply in_or_app; right |]; eauto. }
    + left. rewrite Hs1, andb_false_r. now split.
    + now right.
  - destruct IHmatches2 as [[Hs2 E2]|Hr]; [exact HP | | now right].
    destruct IHmatches1 as [[Hs1 E1]|Hr]; [exact HP | | right; now rewrite E2].
    left. rewrite E2, E1. now split.
  - destruct (Nat.eqb_spec n0 n) as [Heq|Hneq].
    + subst n0. right. eexists. split; [apply get_cap_set_same |].
      eapply HP; [| exact H]. cbn. now left.
    + destruct IHmatches as [[Hs1 E1]|Hr].
      { intros; eapply HP; [apply in_or_app; right |]; eauto. }
      * left. rewrite get_cap_set_other by exact Hneq. cbn. now split.
      * right. now rewrite get_cap_set_other.
Qed.

(** The groups of a result are the captures. *)
Lemma group_mk_result (n : nat) (b e : st) (c : caps) :
  (1 <= n)%nat ->
  group n (mk_result b e c) = match get_cap n c with Some v => l2s v | None => EmptyString end.
Proof.
  intros Hn. unfold group, mk_result, get_cap. cbn [groups].
  rewrite list_lookup_fmap, lookup_drop.
  replace (1 + (n - 1))%nat with n by lia.
  unfold caps in *. generalize (c !! n). intros [[v|]|]; reflexivity.
Qed.

(** Runs of units of a class. *)
Lemma matches_class_star (f : flags) (g : bool) (p : ascii -> bool) (r : re)
    (s s' : st) (c c' : caps) :
  matches f r s c s' c' -> r = Star g (Cls p) ->
  c' = c /\ exists w, moved s w s' /\ Forall (fun x => in_class f p x = true) w.
Proof.
  induction 1; intros E; try discriminate E.
  - split; [reflexivity |]. exists []. split; [apply moved_refl | constructor].
  - injection E as -> ->. destruct (IHmatches2 eq_refl) as [-> (w & Hw & Hf)].
    inversion H; subst. split; [reflexivity |].
    exists ([x] ++ w). split.
    + eapply moved_trans; [apply moved_step; eassumption | exact Hw].
    + constructor; assumption.
Qed.

Lemma matches_class_plus (f : flags) (p : ascii -> bool) (s s' : st) (c c' : caps) :
  matches f (Pat.plus (Cls p)) s c s' c' ->
  c' = c /\ exists w, moved s w s' /\ w <> [] /\ Forall (fun x => in_class f p x = true) w.
Proof.
  unfold Pat.plus. intros H. inversion H; subst.
  match goal with Hc : matches _ (Cls _) _ _ _ _ |- _ => inversion Hc; subst end.
  match goal with Hs : matches _ (Star _ _) _ _ _ _ |- _ =>
    destruct (matches_class_star _ _ _ _ _ _ _ _ Hs eq_refl) as [-> (w & Hw & Hf)] end.
  split; [reflexivity |]. exists ([x] ++ w). split; [| split].
  - eapply moved_trans; [apply moved_step; eassumption | exact Hw].
  - discriminate.
  - constructor; assumption.
Qed.

(** The text of a match of [[A-Za-z0-9_]+] is a word that is not empty. *)
Lemma matches_ident (s s' : st) (c c' : caps) :
  matches no_flags Pat.ident s c s' c' ->
  between s s' <> [] /\ Shape.word (between s s').
Proof.
  intros H. apply matches_class_plus in H as [_ (w & Hw & Hne & Hf)].
  rewrite (moved_between _ _ _ Hw). split; [exact Hne | exact Hf].
Qed.

Lemma l2s_is_id (w : chars) : w <> [] -> Shape.word w -> is_id (l2s w).
Proof.
  intros Hne Hw. split.
  - intros E. apply Hne. rewrite <- (s2l_l2s w), E. reflexivity.
  - now rewrite s2l_l2s.
Qed.

(** A group that holds [[A-Za-z0-9_]+] and lies on every way through
    the pattern: in a result it is a word that is not empty. *)
Lemma match_group_id (r : re) (n : nat) (b e : st) (c : caps) :
  matches no_flags r b [] e c ->
  (1 <= n)%nat -> sure n r = true ->
  Forall (fun a => a = Pat.ident) (group_bodies n r) ->
  is_id (group n (mk_result b e c)).
Proof.
  intros Hm Hn Hs Hb.
  destruct (matches_origin no_flags n (fun v => v <> [] /\ Shape.word v) r _ _ _ _ Hm)
    as [[Hs' _]|(v & Hv & Hne & Hw)].
  - intros a s1 c1 s2 c2 Hin Ha. rewrite List.Forall_forall in Hb.
    rewrite (Hb a Hin) in Ha. eapply matches_ident; exact Ha.
  - rewrite Hs in Hs'. discriminate Hs'.
  - rewrite group_mk_result by exact Hn. rewrite Hv. now apply l2s_is_id.
Qed.

Lemma exec_group_id (r : re) (n : nat) (line : string) (res : result) :
  exec no_flags r line = Some res ->
  (1 <= n)%nat -> sure n r = true ->
  Forall (fun a => a = Pat.ident) (group_bodies n r) ->
  is_id (group n res).
Proof.
  unfold exec, search. intros H Hn Hs Hb.
  destruct (search_from no_flags r _ _ _) as [[[b e] c]|] eqn:E; [| discriminate H].
  injection H as <-. apply search_from_sound in E as (pre & _ & _ & Hm).
  now apply (match_group_id r).
Qed.

End CaptureFacts.
Module GreedyFacts.
Import RegExp Pat Semantics SemanticsFacts CaptureFacts.

Lemma after_nil (s : st) : after s [] (rest s) = s.
Proof. unfold after. destruct s as [p i l]. cbn. now rewrite Nat.add_0_r. Qed.

Lemma after_cons (p : option ascii) (i : nat) (x : ascii) (w t l : chars) :
  after (St (Some x) (S i) l) w t = after (St p i (x :: l)) (x :: w) t.
Proof.
  unfold after. cbn [prev pos length]. f_equal; [| lia].
  destruct w as [|y w]; [reflexivity |]. rewrite last_cons_cons.
  destruct (last (y :: w)) eqn:E; [reflexivity |].
  apply last_None in E. discriminate E.
Qed.

(** A greedy repetition of a class goes as far as the class goes,
    when the continuation accepts that. *)
Lemma repeat_body_max (f : flags) (p : ascii -> bool) (k : cont) (body : cont -> cont) :
  (forall K s c,
     body K s c = match step s with
                  | Some (x, s') => if in_class f p x then K s' c else None
                  | None => None
                  end) ->
  forall (w t : chars) (fuel : nat) (s : st) (c : caps) (res : st * caps),
    rest s = w ++ t ->
    Forall (fun x => in_class f p x = true) w ->
    not_next f p t ->
    (length w < fuel)%nat ->
    k (after s w t) c = Some res ->
    repeat_loop body true k fuel s c = Some res.
Proof.
  intros Hbody.
  induction w as [|x w IH]; intros t fuel s c res Hr Hw Ht Hf Hk;
    (destruct fuel as [|fuel]; [cbn in Hf; lia |]); cbn [repeat_loop];
    rewrite Hbody.
  - cbn [app] in Hr. rewrite <- Hr, after_nil in Hk.
    unfold step. rewrite Hr. destruct t as [|y t]; [exact Hk |].
    cbn in Ht. rewrite Ht. exact Hk.
  - destruct s as [pv i l]. cbn [rest] in Hr. subst l.
    unfold step. cbn [rest app pos].
    apply Forall_cons in Hw as [Hx Hw]. rewrite Hx.
    replace (S i =? i)%nat with false by (symmetry; apply Nat.eqb_neq; lia).
    rewrite (IH t fuel (St (Some x) (S i) (w ++ t)) c res eq_refl Hw Ht).
    + reflexivity.
    + cbn in Hf. lia.
    + rewrite after_cons with (p := pv). exact Hk.
Qed.

Lemma repeat_class_max (f : flags) (p : ascii -> bool) (k : cont) :
  forall (w t : chars) (fuel : nat) (s : st) (c : caps) (res : st * caps),
    rest s = w ++ t ->
    Forall (fun x => in_class f p x = true) w ->
    not_next f p t ->
    (length w < fuel)%nat ->
    k (after s w t) c = Some res ->
    repeat_loop (m f (Cls p)) true k fuel s c = Some res.
Proof. apply repeat_body_max. reflexivity. Qed.

Lemma star_class_max (f : flags) (p : ascii -> bool) (k : cont)
    (w t : chars) (s : st) (c : caps) (res : st * caps) :
  rest s = w ++ t ->
  Forall (fun x => in_class f p x = true) w ->
  not_next f p t ->
  k (after s w t) c = Some res ->
  m f (star (Cls p)) k s c = Some res.
Proof.
  intros Hr Hw Ht Hk. unfold star.
  change (m f (Star true (Cls p)) k s c)
    with (repeat_loop (m f (Cls p)) true k (S (length (rest s))) s c).
  apply (repeat_class_max f p k w t); try assumption.
  rewrite Hr, length_app. lia.
Qed.

Lemma plus_class_max (f : flags) (p : ascii -> bool) (k : cont)
    (x : ascii) (w t : chars) (s : st) (c : caps) (res : st * caps) :
  rest s = (x :: w) ++ t ->
  Forall (fun x => in_class f p x = true) (x :: w) ->
  not_next f p t ->
  k (after s (x :: w) t) c = Some res ->
  m f (plus (Cls p)) k s c = Some res.
Proof.
  intros Hr Hw Ht Hk. unfold plus.
  destruct s as [pv i l]. cbn [rest] in Hr. subst l.
  apply Forall_cons in Hw as [Hx Hw].
  change (m f (Seq (Cls p) (Star true (Cls p))) k (St pv i ((x :: w) ++ t)) c)
    with (if in_class f p x
          then repeat_loop (m f (Cls p)) true k (S (length (w ++ t)))
                 (St (Some x) (S i) (w ++ t)) c
          else None).
  rewrite Hx.
  apply (repeat_class_max f p k w t); try assumption.
  - reflexivity.
  - rewrite length_app. lia.
  - rewrite after_cons with (p := pv). exact Hk.
Qed.

(** A literal matches itself, whatever the flags. *)
Lemma unit_eq_refl (f : flags) (a : ascii) : unit_eq f a a = true.
Proof. unfold unit_eq, Chr.eqb. destruct (icase f); apply Ascii.eqb_refl. Qed.

Lemma strip_prefix_self (f : flags) (w t : chars) :
  strip_prefix (unit_eq f) w (w ++ t) = Some t.
Proof.
  induction w as [|x w IH]; cbn; [reflexivity |]. now rewrite unit_eq_refl.
Qed.

(** The text a literal takes. *)
Lemma matches_lit_moved (f : flags) (l : string) (s s' : st) (c c' : caps) :
  matches f (Lit l) s c s' c' ->
  c' = c /\ exists w, moved s w s'
                      /\ Forall2 (fun a b => unit_eq f a b = true) (s2l l) w.
Proof.
  intros H. inversion H; subst. split; [reflexivity |].
  match goal with Hp : strip_prefix _ _ _ = Some _ |- _ =>
    apply strip_prefix_app in Hp as (w & Hw & Hl & Hf) end.
  exists w. split; [| exact Hf].
  rewrite <- (length_s2l l), <- Hl. now apply moved_advance with (r := r).
Qed.

(** What never occurs in the subject cannot be matched. *)
Lemma takes_moved (f : flags) (ch : ascii) (r : re) (s s' : st) (c c' : caps) :
  matches f r s c s' c' ->
  exists w, moved s w s'
            /\ (takes ch r = true -> exists x, x ∈ w /\ unit_eq f ch x = true).
Proof.
  induction 1; cbn [takes];
    try (exists []; split; [apply moved_refl | discriminate]).
  - exists [x]. split; [now apply moved_step | discriminate].
  - apply strip_prefix_app in H as (w & Hw & Hl & Hf).
    exists w. split.
    + rewrite <- (length_s2l l), <- Hl. now apply moved_advance with (r := r).
    + intros Ht. apply existsb_exists in Ht as (a & Ha & Ea).
      apply Ascii.eqb_eq in Ea. subst a.
      apply list_elem_of_In in Ha. apply list_elem_of_lookup in Ha as [i Hi].
      destruct (Forall2_lookup_l _ _ _ _ _ Hf Hi) as (y & Hy & Hu).
      exists y. split; [eapply list_elem_of_lookup_2; exact Hy | exact Hu].
  - destruct IHmatches1 as (w1 & Hw1 & T1). destruct IHmatches2 as (w2 & Hw2 & T2).
    exists (w1 ++ w2). split; [eapply moved_trans; eauto |].
    intros Ht. apply orb_true_iff in Ht as [Ht|Ht].
    + destruct (T1 Ht) as (x & Hx & Hu). exists x. split; [| exact Hu].
      apply elem_of_app. now left.
    + destruct (T2 Ht) as (x & Hx & Hu). exists x. split; [| exact Hu].
      apply elem_of_app. now right.
  - destruct IHmatches as (w & Hw & T). exists w. split; [exact Hw |].
    intros Ht. apply andb_true_iff in Ht as [Ht _]. now apply T.
  - destruct IHmatches as (w & Hw & T). exists w. split; [exact Hw |].
    intros Ht. apply andb_true_iff in Ht as [_ Ht]. now apply T.
  - destruct IHmatches1 as (w1 & Hw1 & _). destruct IHmatches2 as (w2 & Hw2 & _).
    exists (w1 ++ w2). split; [eapply moved_trans; eauto | discriminate].
  - exact IHmatches.
  - apply strip_prefix_app in H0 as (w & Hw & Hl & _).
    exists w. split; [| discriminate].
    rewrite <- Hl. now apply moved_advance with (r := r).
Qed.

Lemma exec_needs (f : flags) (ch : ascii) (r : re) (text : string) :
  takes ch r = true ->
  Forall (fun x => unit_eq f ch x = false) (s2l text) ->
  exec f r text = None.
Proof.
  intros Ht Hno. unfold exec, search.
  destruct (search_from f r _ _ _) as [[[b e] c]|] eqn:E; [| reflexivity].
  apply search_from_sound in E as (pre & Hpre & _ & Hm).
  apply (takes_moved f ch) in Hm as (w & (Hw & _) & T).
  destruct (T Ht) as (x & Hx & Hu).
  cbn [start rest] in Hpre. rewrite Hpre, Hw in Hno.
  apply Forall_app in Hno as [_ Hno]. apply Forall_app in Hno as [Hno _].
  rewrite Forall_forall in Hno. rewrite (Hno x Hx) in Hu. discriminate Hu.
Qed.

(** The leftmost match is not in a stretch where no match starts. *)
Lemma search_skips (f : flags) (r : re) (text : chars) :
  forall (pre : chars) (p : option ascii) (i : nat),
    (forall j pv idx, (j < length pre)%nat ->
       match_at f r (St pv idx (drop j pre ++ text)) = None) ->
    search_from f r p i (pre ++ text)
    = search_from f r (match last pre with Some x => Some x | None => p end)
        (i + length pre) text.
Proof.
  induction pre as [|x pre IH]; intros p i Hnone.
  - cbn. now rewrite Nat.add_0_r.
  - cbn [app search_from].
    pose proof (Hnone 0%nat p i ltac:(cbn; lia)) as H0. cbn [drop app] in H0.
    rewrite H0, IH.
    + cbn [length]. replace (S i + length pre)%nat with (i + S (length pre))%nat by lia.
      f_equal. destruct pre as [|y pre]; [reflexivity |]. rewrite last_cons_cons.
      destruct (last (y :: pre)) eqn:E; [reflexivity |].
      apply last_None in E. discriminate E.
    + intros j pv idx Hj. apply (Hnone (S j) pv idx). cbn. lia.
Qed.

End GreedyFacts.
Module ParserFacts.
Import RegExp Pat Editor Semantics SemanticsFacts CaptureFacts ParserSpec.

Ltac ident_group :=
  first [ lia | reflexivity | repeat (constructor; try reflexivity) ].

Lemma timed_node_fields (ty : NodeType) (nodeId nodeLabel : string) (i : nat)
    (sgs : list Subgraph) :
  let n := timed_node ty nodeId nodeLabel i sgs in
  id n = nodeId /\ line n = Some i /\ isImplicit n = false.
Proof. unfold timed_node. destruct (split_time nodeLabel) as [[t l]|]; now cbn. Qed.

Lemma declared_ok (count i : nat) (n : Node) (key : string) :
  (i < count)%nat -> is_id key ->
  id n = key -> line n = Some i -> isImplicit n = false -> node_ok count key n.
Proof.
  intros Hi Hk E1 E2 E3. repeat split; try exact E1; try apply Hk.
  - intros j Hj. rewrite E2 in Hj. injection Hj as <-. exact Hi.
  - rewrite E3. discriminate.
Qed.

Lemma nodes_ok_insert (count : nat) (key : string) (n : Node) (ns : gmap string Node) :
  nodes_ok count ns -> node_ok count key n -> nodes_ok count (<[ key := n ]> ns).
Proof.
  intros Hns Hn k x Hk. destruct (decide (key = k)) as [<-|Hne].
  - rewrite lookup_insert_eq in Hk. injection Hk as <-. exact Hn.
  - rewrite lookup_insert_ne in Hk by exact Hne. now apply Hns.
Qed.

(** *** The second pass *)

Lemma parse_line_ok (count i : nat) (l : string) (d : Diagram) :
  (i < count)%nat ->
  nodes_ok count (nodes d) -> Forall (connection_ok count) (connections d) ->
  nodes_ok count (nodes (parse_line i l d))
  /\ Forall (connection_ok count) (connections (parse_line i l d)).
Proof.
  intros Hi Hn Hc. unfold parse_line.
  destruct (skipped_line (Js.trim l)); [auto |].
  assert (Hdef : forall n,
            is_id (id n) -> line n = Some i -> isImplicit n = false ->
            nodes_ok count (<[ id n := n ]> (nodes d))).
  { intros n Hid Hl Him. apply nodes_ok_insert; [exact Hn |].
    now apply (declared_ok count i). }
  destruct (exec no_flags (re_process line_id 2) (Js.trim l)) as [r|] eqn:E1.
  { cbn [nodes connections subgraphList]. split; [| exact Hc].
    destruct (timed_node_fields process (group 1 r) (group 2 r) i (subgraphList d))
      as (Ha & Hb & Hc').
    apply Hdef; [rewrite Ha | exact Hb | exact Hc'].
    apply (exec_group_id _ 1 _ _ E1); ident_group.
    }
  destruct (exec no_flags (re_decision line_id 2) (Js.trim l)) as [r|] eqn:E2.
  { cbn [nodes connections subgraphList]. split; [| exact Hc].
    destruct (timed_node_fields decision (group 1 r) (group 2 r) i (subgraphList d))
      as (Ha & Hb & Hc').
    apply Hdef; [rewrite Ha | exact Hb | exact Hc'].
    apply (exec_group_id _ 1 _ _ E2); ident_group.
    }
  destruct (exec no_flags (re_startEnd line_id 2) (Js.trim l)) as [r|] eqn:E3.
  { cbn [nodes connections subgraphList]. split; [| exact Hc].
    apply Hdef; cbn; try reflexivity.
      apply (exec_group_id _ 1 _ _ E3); ident_group.
    }
  destruct (exec no_flags re_labeled_connection (Js.trim l)) as [r|] eqn:E4.
  { cbn [nodes connections subgraphList]. split; [exact Hn |].
    apply Forall_app. split; [exact Hc |]. constructor; [| constructor].
    repeat split; cbn [from to connLine]; try exact Hi;
      first [ apply (exec_group_id _ 1 _ _ E4); ident_group
            | apply (exec_group_id _ 3 _ _ E4); ident_group ]. }
  destruct (exec no_flags re_basic_connection (Js.trim l)) as [r|] eqn:E5.
  { cbn [nodes connections subgraphList]. split; [exact Hn |].
    apply Forall_app. split; [exact Hc |]. constructor; [| constructor].
    repeat split; cbn [from to connLine]; try exact Hi;
      first [ apply (exec_group_id _ 1 _ _ E5); ident_group
            | apply (exec_group_id _ 2 _ _ E5); ident_group ]. }
  auto.
Qed.

Lemma parse_lines_ok (count : nat) (lines : list string) :
  forall i d,
    (i + length lines <= count)%nat ->
    nodes_ok count (nodes d) -> Forall (connection_ok count) (connections d) ->
    nodes_ok count (nodes (parse_lines i lines d))
    /\ Forall (connection_ok count) (connections (parse_lines i lines d)).
Proof.
  induction lines as [|l lines IH]; intros i d Hi Hn Hc; cbn [parse_lines]; [auto |].
  cbn [length] in Hi.
  destruct (parse_line_ok count i l d ltac:(lia) Hn Hc) as (Hn' & Hc').
  apply IH; [lia | exact Hn' | exact Hc'].
Qed.

(** *** The later passes: they add and rewrite records, and drop none *)

Lemma grows_refl (ns : gmap string Node) : grows ns ns.
Proof. intros k H. exact H. Qed.

Lemma grows_trans (a b c : gmap string Node) : grows a b -> grows b c -> grows a c.
Proof. intros H1 H2 k H. apply H2, H1, H. Qed.

Lemma grows_insert (key : string) (n : Node) (ns : gmap string Node) :
  grows ns (<[ key := n ]> ns).
Proof.
  intros k H. destruct (decide (key = k)) as [<-|Hne].
  - rewrite lookup_insert_eq. eauto.
  - now rewrite lookup_insert_ne.
Qed.

Lemma resolve_endpoint_fields (diagramCode nodeId : string) :
  let n := resolve_endpoint diagramCode nodeId in
  id n = nodeId /\ line n = None.
Proof.
  unfold resolve_endpoint.
  destruct (exec no_flags (re_process (Lit nodeId) 1) diagramCode) as [r|].
  - destruct (split_time (group 1 r)) as [[t l]|]; now cbn.
  - destruct (exec no_flags (re_startEnd (Lit nodeId) 1) diagramCode) as [r|]; [now cbn |].
    destruct (exec no_flags (re_decision (Lit nodeId) 1) diagramCode) as [r|]; now cbn.
Qed.

Lemma ensure_endpoint_ok (count : nat) (diagramCode nodeId : string)
    (ns : gmap string Node) :
  nodes_ok count ns -> is_id nodeId ->
  nodes_ok count (ensure_endpoint diagramCode nodeId ns)
  /\ grows ns (ensure_endpoint diagramCode nodeId ns)
  /\ is_Some (ensure_endpoint diagramCode nodeId ns !! nodeId).
Proof.
  intros Hn Hid. unfold ensure_endpoint.
  destruct (ns !! nodeId) as [n|] eqn:E.
  - split; [exact Hn |]. split; [apply grows_refl | rewrite E; eauto].
  - destruct (resolve_endpoint_fields diagramCode nodeId) as [Ha Hb].
    split; [| split; [apply grows_insert | rewrite lookup_insert_eq; eauto]].
    apply nodes_ok_insert; [exact Hn |].
    repeat split; try exact Ha; try apply Hid.
    + intros i Hi. rewrite Hb in Hi. discriminate Hi.
    + intros _. exact Hb.
Qed.

Lemma implicit_nodes_ok (count : nat) (diagramCode : string) (cs : list Connection) :
  forall ns,
    nodes_ok count ns -> Forall (connection_ok count) cs ->
    let ns' := implicit_nodes diagramCode cs ns in
    nodes_ok count ns' /\ grows ns ns'
    /\ Forall (fun c => is_Some (ns' !! from c) /\ is_Some (ns' !! to c)) cs.
Proof.
  induction cs as [|c cs IH]; intros ns Hn Hc; cbn [implicit_nodes].
  - split; [exact Hn |]. split; [apply grows_refl | constructor].
  - apply Forall_cons in Hc as [(Hf & Ht & _) Hc].
    destruct (ensure_endpoint_ok count diagramCode (from c) ns Hn Hf) as (H1 & G1 & S1).
    destruct (ensure_endpoint_ok count diagramCode (to c) _ H1 Ht) as (H2 & G2 & S2).
    destruct (IH _ H2 Hc) as (H3 & G3 & F3).
    split; [exact H3 |]. split; [eauto using grows_trans |].
    constructor; [| exact F3]. split; apply G3; [apply G2, S1 | exact S2].
Qed.

Lemma comment_line_ok (count : nat) (l : string) (ns : gmap string Node) :
  nodes_ok count ns ->
  nodes_ok count (comment_line l ns) /\ grows ns (comment_line l ns).
Proof.
  intros Hn. unfold comment_line.
  destruct (Js.starts_with "%%" (Js.trim l) && Js.includes ":" (Js.trim l));
    [| split; [exact Hn | apply grows_refl]].
  destruct (exec no_flags re_comment (Js.trim l)) as [r|];
    [| split; [exact Hn | apply grows_refl]].
  destruct (ns !! group 1 r) as [n|] eqn:E; [| split; [exact Hn | apply grows_refl]].
  destruct (isImplicit n || String.eqb (label n) (group 1 r));
    [| split; [exact Hn | apply grows_refl]].
  split; [| apply grows_insert].
  apply nodes_ok_insert; [exact Hn |].
  destruct (Hn _ _ E) as (H1 & H2 & H3 & H4).
  repeat split; cbn; try exact H1; try apply H2; try exact H3. discriminate.
Qed.

Lemma comment_labels_ok (count : nat) (lines : list string) :
  forall ns, nodes_ok count ns ->
    nodes_ok count (comment_labels lines ns) /\ grows ns (comment_labels lines ns).
Proof.
  unfold comment_labels.
  induction lines as [|l lines IH]; intros ns Hn; cbn [foldl].
  - split; [exact Hn | apply grows_refl].
  - destruct (comment_line_ok count l ns Hn) as [H1 G1].
    destruct (IH _ H1) as [H2 G2]. split; [exact H2 | eauto using grows_trans].
Qed.

Lemma connection_target_ok (count : nat) (lines : list string) (conn : Connection)
    (ns : gmap string Node) :
  nodes_ok count ns -> connection_ok count conn ->
  nodes_ok count (connection_target lines conn ns)
  /\ grows ns (connection_target lines conn ns).
Proof.
  intros Hn (_ & Ht & Hl). unfold connection_target.
  destruct (lines !! connLine conn) as [l|]; [| split; [exact Hn | apply grows_refl]].
  destruct (exec no_flags (re_startEnd (Lit (to conn)) 1) l) as [r|];
    [| split; [exact Hn | apply grows_refl]].
  destruct (negb (String.eqb (to conn) EmptyString));
    [| split; [exact Hn | apply grows_refl]].
  split; [| apply grows_insert].
  apply nodes_ok_insert; [exact Hn |].
  repeat split; cbn; try apply Ht.
  - intros i Hi. injection Hi as <-. exact Hl.
  - discriminate.
Qed.

Lemma connection_targets_ok (count : nat) (lines : list string) (cs : list Connection) :
  forall ns, nodes_ok count ns -> Forall (connection_ok count) cs ->
    nodes_ok count (connection_targets lines cs ns)
    /\ grows ns (connection_targets lines cs ns).
Proof.
  unfold connection_targets.
  induction cs as [|c cs IH]; intros ns Hn Hc; cbn [foldl].
  - split; [exact Hn | apply grows_refl].
  - apply Forall_cons in Hc as [Hc0 Hc].
    destruct (connection_target_ok count lines c ns Hn Hc0) as [H1 G1].
    destruct (IH _ H1 Hc) as [H2 G2]. split; [exact H2 | eauto using grows_trans].
Qed.

(** Every result of a repeated [exec] is a match of the pattern. *)
Lemma exec_loop_matches (f : flags) (r : re) (fuel : nat) :
  forall s,
    Forall (fun res => exists b e c, res = mk_result b e c /\ matches f r b [] e c)
           (exec_loop fuel f r s).
Proof.
  induction fuel as [|fuel IH]; intros s; cbn [exec_loop]; [constructor |].
  unfold search.
  destruct (search_from f r (prev s) (pos s) (rest s)) as [[[b e] c]|] eqn:E;
    [| constructor].
  apply search_from_sound in E as (pre & _ & _ & Hm).
  constructor; [now exists b, e, c |].
  destruct (pos e =? pos b)%nat; [| apply IH].
  destruct (step e) as [[x e']|]; [apply IH | constructor].
Qed.

Lemma scan_match_ok (count : nat) (r : result) (ns : gmap string Node) :
  nodes_ok count ns -> is_id (group 1 r) ->
  nodes_ok count (scan_match r ns) /\ grows ns (scan_match r ns).
Proof.
  intros Hn Hid. unfold scan_match.
  destruct (match ns !! group 1 r with None => true | Some n => isImplicit n end);
    [| split; [exact Hn | apply grows_refl]].
  split; [| apply grows_insert].
  apply nodes_ok_insert; [exact Hn |].
  repeat split; cbn; try apply Hid; discriminate.
Qed.

Lemma full_scan_ok (count : nat) (diagramCode : string) (ns : gmap string Node) :
  nodes_ok count ns ->
  nodes_ok count (full_scan diagramCode ns) /\ grows ns (full_scan diagramCode ns).
Proof.
  unfold full_scan, exec_all.
  generalize (exec_loop_matches no_flags (re_startEnd (Grp 1 ident) 2)
                (S (String.length diagramCode)) (start (s2l diagramCode))).
  generalize (exec_loop (S (String.length diagramCode)) no_flags
                (re_startEnd (Grp 1 ident) 2) (start (s2l diagramCode))).
  intros rs. revert ns. induction rs as [|r rs IH]; intros ns Hrs Hn; cbn [foldl].
  - split; [exact Hn | apply grows_refl].
  - apply Forall_cons in Hrs as [(b & e & c & -> & Hm) Hrs].
    destruct (scan_match_ok count (mk_result b e c) ns Hn) as [H1 G1].
    { apply (match_group_id (re_startEnd (Grp 1 ident) 2)); [exact Hm | ident_group ..]. }
    destruct (IH _ Hrs H1) as [H2 G2]. split; [exact H2 | eauto using grows_trans].
Qed.

Lemma infer_labels_ok (count : nat) (ns : gmap string Node) :
  nodes_ok count ns ->
  nodes_ok count (infer_labels ns) /\ grows ns (infer_labels ns).
Proof.
  intros Hn. unfold infer_labels. split.
  - intros k n Hk. rewrite map_lookup_imap in Hk.
    destruct (ns !! k) as [n0|] eqn:E; [| discriminate Hk].
    cbn in Hk. injection Hk as <-.
    pose proof (Hn _ _ E) as Hok. destruct Hok as (H1 & H2 & H3 & H4).
    pose proof (Hn _ _ E) as Hok.
    unfold infer_label. destruct (subgraphs n0) as [[|t ts]|]; try exact Hok.
    destruct ((String.length k =? 1)%nat && String.eqb (label n0) k); [| exact Hok].
    repeat split; cbn; try assumption; apply H2.
  - intros k [n Hk]. rewrite map_lookup_imap, Hk. cbn. eauto.
Qed.

(** *** The parsed model *)

Lemma parse_ok (diagramCode : string) :
  let d := parseMermaidDiagram diagramCode in
  let count := length (Js.split_lines diagramCode) in
  nodes_ok count (nodes d)
  /\ Forall (connection_ok count) (connections d)
  /\ Forall (fun c => is_Some (nodes d !! from c) /\ is_Some (nodes d !! to c))
            (connections d).
Proof.
  unfold parseMermaidDiagram.
  destruct (String.eqb diagramCode EmptyString).
  { cbn. split; [| split; constructor]. intros k n Hk. rewrite lookup_empty in Hk.
    discriminate Hk. }
  cbv zeta. set (lines := Js.split_lines diagramCode).
  set (d := parse_lines 0 lines _).
  destruct (parse_lines_ok (length lines) lines 0
              (mkDiagram ∅ [] (boundaries (length lines) 0 lines []))) as [Hn Hc].
  { lia. }
  { intros k n Hk. cbn in Hk. rewrite lookup_empty in Hk. discriminate Hk. }
  { constructor. }
  fold d in Hn, Hc.
  destruct (implicit_nodes_ok (length lines) diagramCode (connections d) (nodes d) Hn Hc)
    as (H1 & G1 & F1).
  destruct (comment_labels_ok (length lines) lines _ H1) as [H2 G2].
  destruct (connection_targets_ok (length lines) lines (connections d) _ H2 Hc) as [H3 G3].
  destruct (full_scan_ok (length lines) diagramCode _ H3) as [H4 G4].
  destruct (infer_labels_ok (length lines) _ H4) as [H5 G5].
  cbn [nodes connections]. split; [exact H5 |]. split; [exact Hc |].
  eapply Forall_impl; [exact F1 |].
  intros c [Ha Hb]. split; apply G5, G4, G3, G2; assumption.
Qed.

End ParserFacts.
Module ParserTheorems.
Import Editor ParserSpec ParserFacts.

(** X1: Every record of the parsed model is stored under its own id, a
    word of letters, digits and underscores that is not empty; the
    line it records is a line of the source; and a record flagged
    implicit records no line. *)
Theorem parsed_nodes_are_keyed (diagramCode key : string) (n : Node) :
  plain diagramCode = true ->
  nodes (parseMermaidDiagram diagramCode) !! key = Some n ->
  id n = key /\ is_id key
  /\ (forall i, line n = Some i -> is_Some (Js.split_lines diagramCode !! i))
  /\ (isImplicit n = true -> line n = None).
Proof.
  intros _ Hk. destruct (parse_ok diagramCode) as (Hn & _ & _).
  destruct (Hn _ _ Hk) as (H1 & H2 & H3 & H4).
  repeat split; try assumption; try apply H2.
  intros i Hi. apply lookup_lt_is_Some. now apply H3.
Qed.

Lemma parsed_nodes_are_keyed_witness :
  exists n, nodes (parseMermaidDiagram EditorSamples.a_to_b) !! "B" = Some n
            /\ id n = "B" /\ line n = None.
Proof.
  destruct (nodes (parseMermaidDiagram EditorSamples.a_to_b) !! "B") as [n|] eqn:E;
    [| vm_compute in E; discriminate E].
  exists n. split; [reflexivity |].
  destruct (parsed_nodes_are_keyed EditorSamples.a_to_b "B" n) as (H1 & _ & _ & H4).
  - vm_compute. reflexivity.
  - exact E.
  - split; [exact H1 |]. apply H4. vm_compute in E. injection E as <-. reflexivity.
Defined.

(** X2: Every connection of the parsed model joins two nodes of the
    model, named by words that are not empty, and its line is a line
    of the source. *)
Theorem parsed_connections_join_nodes (diagramCode : string) (c : Connection) :
  plain diagramCode = true ->
  c ∈ connections (parseMermaidDiagram diagramCode) ->
  is_Some (nodes (parseMermaidDiagram diagramCode) !! from c)
  /\ is_Some (nodes (parseMermaidDiagram diagramCode) !! to c)
  /\ is_id (from c) /\ is_id (to c)
  /\ is_Some (Js.split_lines diagramCode !! connLine c).
Proof.
  intros _ Hc. destruct (parse_ok diagramCode) as (_ & Hok & Hin).
  rewrite Forall_forall in Hok, Hin.
  destruct (Hok _ Hc) as (H1 & H2 & H3). destruct (Hin _ Hc) as [H4 H5].
  repeat split; try assumption; try apply H1; try apply H2.
  now apply lookup_lt_is_Some.
Qed.

Lemma parsed_connections_join_nodes_witness :
  is_Some (nodes (parseMermaidDiagram EditorSamples.a_to_b) !! "A")
  /\ is_Some (nodes (parseMermaidDiagram EditorSamples.a_to_b) !! "B").
Proof.
  destruct (parsed_connections_join_nodes EditorSamples.a_to_b (mkConnection "A" "B" EmptyString 0))
    as (H1 & H2 & _).
  - vm_compute. reflexivity.
  - vm_compute. apply list_elem_of_here.
  - split; [exact H1 | exact H2].
Defined.

End ParserTheorems.
Module MutatorFacts.
Import RegExp Editor Connections ConnectionsSpec EditorForm ParserSpec ParserFacts.

Lemma find_sub_none_includes (p s : string) :
  Js.includes p s = false -> Js.find_sub (s2l p) (s2l s) 0 = None.
Proof. unfold Js.includes. now destruct (Js.find_sub (s2l p) (s2l s) 0). Qed.

(** Replacing a text that does not occur changes nothing. *)
Lemma replace_str_absent (pat tmpl s : string) :
  Js.includes pat s = false -> Js.replace_str pat tmpl s = s.
Proof.
  intros H. unfold Js.replace_str. now rewrite (find_sub_none_includes _ _ H).
Qed.

Lemma find_connection_elem (a b : string) (cs : list Connection) (c : Connection) :
  find_connection a b cs = Some c -> c ∈ cs /\ from c = a /\ to c = b.
Proof.
  unfold find_connection. intros H. apply find_some in H as [Hin Hp].
  apply andb_true_iff in Hp as [Ha Hb].
  apply String.eqb_eq in Ha, Hb. split; [| now split].
  now apply list_elem_of_In.
Qed.

Lemma connection_line_exists (diagramCode : string) (c : Connection) :
  c ∈ connections (parseMermaidDiagram diagramCode) ->
  is_Some (Js.split_lines diagramCode !! connLine c).
Proof.
  intros Hc. destruct (parse_ok diagramCode) as (_ & Hok & _).
  rewrite Forall_forall in Hok. destruct (Hok _ Hc) as (_ & _ & H3).
  now apply lookup_lt_is_Some.
Qed.

(** *** The loop of [addConnection] *)

Lemma lookup_snoc_inv (back : list string) (l x : string) (i : nat) :
  (reverse back ++ [l]) !! i = Some x ->
  ((i < length back)%nat /\ reverse back !! i = Some x) \/ (i = length back /\ x = l).
Proof.
  intros H. destruct (decide (i < length back)%nat) as [Hlt|Hge].
  - left. split; [exact Hlt |]. rewrite lookup_app_l in H; [exact H |].
    now rewrite length_reverse.
  - right. rewrite lookup_app_r in H by (rewrite length_reverse; lia).
    rewrite length_reverse in H.
    destruct (i - length back)%nat as [|k] eqn:E; cbn in H; [| discriminate H].
    injection H as <-. split; [lia | reflexivity].
Qed.

Lemma lookup_snoc_last (back : list string) (l : string) :
  (reverse back ++ [l]) !! length back = Some l.
Proof.
  rewrite lookup_app_r by (rewrite length_reverse; lia).
  rewrite length_reverse, Nat.sub_diag. reflexivity.
Qed.

Lemma lookup_snoc_before (back : list string) (l x : string) (i : nat) :
  reverse back !! i = Some x -> (reverse back ++ [l]) !! i = Some x.
Proof. intros H. apply lookup_app_l_Some. exact H. Qed.

Lemma no_line_snoc (p : string -> bool) (back : list string) (l : string) :
  no_line p (reverse back ++ [l]) -> no_line p (reverse back) /\ p l = false.
Proof.
  intros H. split.
  - intros j x Hj. apply (H j). now apply lookup_snoc_before.
  - apply (H (length back)). apply lookup_snoc_last.
Qed.

Lemma scan_back_placed (back : list string) :
  forall start, placed (reverse back) start (scan_back back start).
Proof.
  induction back as [|l back IH]; intros start; cbn [scan_back].
  - split; [| split].
    + intros i [(x & Hx & _) _]. rewrite reverse_nil in Hx. discriminate Hx.
    + intros _ i [(x & Hx & _) _]. rewrite reverse_nil in Hx. discriminate Hx.
    + reflexivity.
  - rewrite reverse_cons. fold (arrow_line l). fold (definition_line l).
    destruct (arrow_line l) eqn:Ea.
    + split; [| split].
      * intros i [(x & Hx & Hp) Hlast].
        apply lookup_snoc_inv in Hx as [[Hlt Hx]|[-> _]]; [| reflexivity].
        rewrite (Hlast (length back) l Hlt (lookup_snoc_last back l)) in Ea.
        discriminate Ea.
      * intros Hno. apply no_line_snoc in Hno as [_ Hl]. rewrite Hl in Ea. discriminate Ea.
      * intros Hno. apply no_line_snoc in Hno as [_ Hl]. rewrite Hl in Ea. discriminate Ea.
    + specialize (IH (if definition_line l then S (length back) else start)).
      destruct IH as (IH1 & IH2 & IH3).
      split; [| split].
      * intros i [(x & Hx & Hp) Hlast]. apply IH1.
        apply lookup_snoc_inv in Hx as [[Hlt Hx]|[-> ->]];
          [| rewrite Hp in Ea; discriminate Ea].
        split; [now exists x |].
        intros j y Hj Hy. apply (Hlast j y Hj). now apply lookup_snoc_before.
      * intros Hno i [(x & Hx & Hp) Hfirst].
        apply no_line_snoc in Hno as [Hno _].
        apply lookup_snoc_inv in Hx as [[Hlt Hx]|[-> ->]].
        -- apply (IH2 Hno). split; [now exists x |].
           intros j y Hj Hy. apply (Hfirst j y Hj). now apply lookup_snoc_before.
        -- rewrite Hp in IH3 |- *. apply (IH3 Hno).
           intros j y Hy.
           assert (Hj : (j < length back)%nat).
           { apply lookup_lt_Some in Hy. now rewrite length_reverse in Hy. }
           apply (Hfirst j y Hj). now apply lookup_snoc_before.
      * intros Hno Hnd. apply no_line_snoc in Hno as [Hno _].
        apply no_line_snoc in Hnd as [Hnd Hl]. rewrite Hl in IH3 |- *. now apply IH3.
Qed.

Lemma scan_back_bound (back : list string) :
  forall start bound,
    (start <= bound)%nat -> (length back <= bound)%nat ->
    (scan_back back start <= bound)%nat.
Proof.
  induction back as [|l back IH]; intros start bound Hs Hb; cbn [scan_back length] in *;
    [exact Hs |].
  destruct (has_arrow (Js.trim l)); [lia |].
  apply IH; [| lia]. destruct (looks_like_definition (Js.trim l)); lia.
Qed.

Lemma insert_index_placed (lines : list string) :
  placed lines (length lines - 1) (insert_index lines)
  /\ (insert_index lines <= length lines)%nat.
Proof.
  unfold insert_index. split.
  - rewrite <- (reverse_involutive lines) at 1. apply scan_back_placed.
  - apply scan_back_bound; [lia | now rewrite length_reverse].
Qed.

(** X4: A node of the model that records no line cannot be relabelled:
    [updateNodeLabel] reads the line under its missing index and
    fails with the engine's [TypeError].  This is the case of every
    node flagged implicit.  A node that records a line always gets a
    result. *)
Theorem label_edit_needs_a_line (diagramCode nodeId newLabel : string) (n : Node) :
  plain diagramCode = true ->
  nodes (parseMermaidDiagram diagramCode) !! nodeId = Some n ->
  (line n = None -> updateNodeLabel diagramCode nodeId newLabel = Thrown TypeError)
  /\ (isImplicit n = true ->
      updateNodeLabel diagramCode nodeId newLabel = Thrown TypeError)
  /\ (is_Some (line n) ->
      exists out, updateNodeLabel diagramCode nodeId newLabel = Returned out).
Proof.
  intros _ Hn. destruct (parse_ok diagramCode) as (Hok & _ & _).
  destruct (Hok _ _ Hn) as (_ & _ & H3 & H4).
  assert (Hnone : line n = None ->
            updateNodeLabel diagramCode nodeId newLabel = Thrown TypeError).
  { intros Hl. unfold updateNodeLabel. rewrite Hn, Hl. reflexivity. }
  split; [exact Hnone |]. split; [intros Hi; apply Hnone, H4, Hi |].
  intros [i Hi]. unfold updateNodeLabel, relabel_lines. rewrite Hn, Hi.
  destruct (lookup_lt_is_Some_2 (Js.split_lines diagramCode) i (H3 i Hi)) as [l ->].
  eauto.
Qed.

Lemma label_edit_needs_a_line_witness :
  updateNodeLabel EditorSamples.a_to_b "B" "Review" = Thrown TypeError.
Proof.
  destruct (nodes (parseMermaidDiagram EditorSamples.a_to_b) !! "B") as [n|] eqn:E;
    [| vm_compute in E; discriminate E].
  destruct (label_edit_needs_a_line EditorSamples.a_to_b "B" "Review" n) as (_ & H & _).
  - vm_compute. reflexivity.
  - exact E.
  - apply H. vm_compute in E. injection E as <-. reflexivity.
Defined.

(** X5: The form cannot define a node of the list it shows: for every
    node of the model whose id is no reserved word,
    [handleDefineImplicitNode] calls [addNode] with the id of the
    node, which the model holds, and shows the already-exists error. *)
Theorem define_implicit_node_is_refused (diagramCode key : string) (node : Node) :
  plain diagramCode = true ->
  nodes (parseMermaidDiagram diagramCode) !! key = Some node ->
  is_reserved (id node) = false ->
  handleDefineImplicitNode diagramCode node
  = SetError "Failed to define implicit node: " (already_exists (id node)).
Proof.
  intros _ Hn Hres. destruct (parse_ok diagramCode) as (Hok & _ & _).
  destruct (Hok _ _ Hn) as (H1 & [Hne _] & _ & _).
  unfold handleDefineImplicitNode, addNode, chosen_id, requested_id, definition_details.
  cbn [newId truthy default from_option].
  rewrite <- H1 in Hne. apply String.eqb_neq in Hne. rewrite Hne.
  cbn [negb default from_option]. unfold Datatypes.id. rewrite Hres. rewrite H1 at 1. rewrite Hn.
  reflexivity.
Qed.

Lemma define_implicit_node_is_refused_witness :
  exists node,
    nodes (parseMermaidDiagram EditorSamples.a_to_b) !! "B" = Some node
    /\ handleDefineImplicitNode EditorSamples.a_to_b node
       = SetError "Failed to define implicit node: " (already_exists "B").
Proof.
  destruct (nodes (parseMermaidDiagram EditorSamples.a_to_b) !! "B") as [n|] eqn:E;
    [| vm_compute in E; discriminate E].
  exists n. split; [reflexivity |].
  assert (Hid : id n = "B") by (vm_compute in E; injection E as <-; reflexivity).
  rewrite <- Hid.
  apply (define_implicit_node_is_refused EditorSamples.a_to_b "B" n).
  - vm_compute. reflexivity.
  - exact E.
  - rewrite Hid. vm_compute. reflexivity.
Defined.

(** X6: [updateConnectionLabel] fails with its not-found error when the
    parsed model has no connection between the two ids.  Otherwise it
    returns the validated source in which the line of the first such
    connection has had the first occurrence of the spelling
    [from --> to] (or [from -->|label| to] with the label in double
    quotes) replaced; when that line does not hold this exact
    spelling, the result is the validated source and the new label is
    written nowhere. *)
Theorem connection_label_edit (diagramCode fromNodeId toNodeId newLabel : string) :
  match find_connection fromNodeId toNodeId
          (connections (parseMermaidDiagram diagramCode)) with
  | None =>
      updateConnectionLabel diagramCode fromNodeId toNodeId newLabel
      = Thrown (connection_not_found fromNodeId toNodeId)
  | Some c =>
      exists l,
        Js.split_lines diagramCode !! connLine c = Some l
        /\ updateConnectionLabel diagramCode fromNodeId toNodeId newLabel
           = Returned (Validator.validateAndFixMermaidSyntax
                         (Js.join_lines
                            (<[ connLine c :=
                                  Js.replace_str (searched_text c fromNodeId toNodeId)
                                    (labeled_text fromNodeId newLabel toNodeId) l ]>
                               (Js.split_lines diagramCode))))
        /\ (Js.includes (searched_text c fromNodeId toNodeId) l = false ->
            updateConnectionLabel diagramCode fromNodeId toNodeId newLabel
            = Returned (Validator.validateAndFixMermaidSyntax diagramCode))
  end.
Proof.
  unfold updateConnectionLabel.
  destruct (find_connection fromNodeId toNodeId _) as [c|] eqn:E; [| reflexivity].
  apply find_connection_elem in E as (Hin & _ & _).
  destruct (connection_line_exists diagramCode c Hin) as [l Hl].
  exists l. rewrite Hl.
  assert (Hsame : relabel_connection c fromNodeId toNodeId newLabel l
                  = Js.replace_str (searched_text c fromNodeId toNodeId)
                      (labeled_text fromNodeId newLabel toNodeId) l).
  { unfold relabel_connection, searched_text.
    now destruct (negb (String.eqb (connLabel c) EmptyString)). }
  rewrite Hsame. split; [reflexivity |]. split; [reflexivity |].
  intros Habs. rewrite (replace_str_absent _ _ _ Habs).
  rewrite (list_insert_id _ _ _ Hl), join_split. reflexivity.
Qed.

(** X7: The line of a new connection goes right after the last line that
    holds an arrow after an id; when no line does, right after the
    first line that looks like a node definition, not the last one;
    when no line does either, before the last line of the source. *)
Theorem new_connection_position
    (diagramCode fromNodeId toNodeId connectionLabel : string) :
  plain diagramCode = true ->
  diagramCode <> EmptyString ->
  fromNodeId <> EmptyString -> toNodeId <> EmptyString ->
  is_Some (nodes (parseMermaidDiagram diagramCode) !! fromNodeId) ->
  is_Some (nodes (parseMermaidDiagram diagramCode) !! toNodeId) ->
  let lines := Js.split_lines diagramCode in
  exists k : nat,
    (k <= length lines)%nat
    /\ placed lines (length lines - 1) k
    /\ addConnection diagramCode fromNodeId toNodeId connectionLabel
       = Returned (Validator.validateAndFixMermaidSyntax
                     (Js.join_lines
                        (take k lines
                           ++ connection_string fromNodeId toNodeId connectionLabel
                           :: drop k lines))).
Proof.
  intros _ Hc Ha Hb [na Hna] [nb Hnb] lines.
  destruct (insert_index_placed lines) as [Hp Hk].
  exists (insert_index lines). split; [exact Hk |]. split; [exact Hp |].
  unfold addConnection.
  apply String.eqb_neq in Hc, Ha, Hb. rewrite Hc, Ha, Hb, Hna, Hnb. reflexivity.
Qed.

Lemma new_connection_position_witness :
  addConnection two_nodes "A" "B" EmptyString
  = Returned (Validator.validateAndFixMermaidSyntax
                (Js.join_lines ["graph TD"; Samples.node "A" "x"; "A --> B";
                                Samples.node "B" "y"])).
Proof.
  destruct (new_connection_position two_nodes "A" "B" EmptyString)
    as (k & _ & (_ & Hfirst & _) & Hret).
  - vm_compute. reflexivity.
  - discriminate.
  - discriminate.
  - discriminate.
  - vm_compute. eauto.
  - vm_compute. eauto.
  - assert (Hk : k = 2%nat).
    { apply Hfirst.
      - intros j l Hj. vm_compute in Hj.
        destruct j as [|[|[|j]]]; try discriminate Hj; injection Hj as <-;
          vm_compute; reflexivity.
      - split.
        + eexists. split; [vm_compute; reflexivity | vm_compute; reflexivity].
        + intros j l Hj Hl. assert (j = 0%nat) as -> by lia.
          vm_compute in Hl. injection Hl as <-. vm_compute. reflexivity. }
    rewrite Hret, Hk. vm_compute. reflexivity.
Defined.

End MutatorFacts.

Module DefineFacts.
Import RegExp Pat Editor Semantics SemanticsFacts CaptureFacts GreedyFacts ParserSpec ParserFacts.

(** *** Matching forward, the continuation answering at the end *)

Section Forward.
Variable f : flags.
Variable P : st * caps -> Prop.

Lemma moved_after (s : st) (w t : chars) : rest s = w ++ t -> moved s w (after s w t).
Proof. intros H. unfold after. repeat split. exact H. Qed.

Lemma ans_plus (p : ascii -> bool) (K : cont) (x : ascii) (w t : chars) (s : st) (c : caps) :
  rest s = (x :: w) ++ t ->
  Forall (fun y => in_class f p y = true) (x :: w) ->
  not_next f p t ->
  (forall s', moved s (x :: w) s' -> rest s' = t -> answers K s' c P) ->
  answers (m f (plus (Cls p)) K) s c P.
Proof.
  intros Hr Hw Ht HK.
  destruct (HK (after s (x :: w) t) (moved_after _ _ _ Hr) eq_refl) as (res & E & HP).
  exists res. split; [| exact HP]. now apply (plus_class_max f p K x w t).
Qed.

Lemma ans_star (p : ascii -> bool) (K : cont) (w t : chars) (s : st) (c : caps) :
  rest s = w ++ t ->
  Forall (fun y => in_class f p y = true) w ->
  not_next f p t ->
  (forall s', moved s w s' -> rest s' = t -> answers K s' c P) ->
  answers (m f (star (Cls p)) K) s c P.
Proof.
  intros Hr Hw Ht HK.
  destruct (HK (after s w t) (moved_after _ _ _ Hr) eq_refl) as (res & E & HP).
  exists res. split; [| exact HP]. now apply (star_class_max f p K w t).
Qed.

Lemma ans_lit (l : string) (K : cont) (t : chars) (s : st) (c : caps) :
  rest s = s2l l ++ t ->
  (forall s', moved s (s2l l) s' -> rest s' = t -> answers K s' c P) ->
  answers (m f (Lit l) K) s c P.
Proof.
  intros Hr HK. destruct (moved_advance (s2l l) t s Hr) as [Hm Ht].
  rewrite length_s2l in Hm, Ht.
  destruct (HK _ Hm Ht) as (res & E & HP). exists res. split; [| exact HP].
  cbn [m]. rewrite Hr, strip_prefix_self. exact E.
Qed.

Lemma ans_grp (n : nat) (a : re) (K : cont) (s : st) (c : caps) :
  answers (m f a (fun s' c' => K s' (set_cap n (take (pos s' - pos s) (rest s)) c'))) s c P ->
  answers (m f (Grp n a) K) s c P.
Proof. intros H. exact H. Qed.

Lemma ans_grp_plus (n : nat) (p : ascii -> bool) (K : cont) (x : ascii) (w t : chars)
    (s : st) (c : caps) :
  rest s = (x :: w) ++ t ->
  Forall (fun y => in_class f p y = true) (x :: w) ->
  not_next f p t ->
  (forall s', moved s (x :: w) s' -> rest s' = t ->
     answers K s' (set_cap n (x :: w) c) P) ->
  answers (m f (Grp n (plus (Cls p))) K) s c P.
Proof.
  intros Hr Hw Ht HK. apply ans_grp.
  apply (ans_plus p _ x w t); [exact Hr | exact Hw | exact Ht |].
  intros s' M R. unfold answers.
  pose proof (moved_between _ _ _ M) as B. unfold between in B. rewrite B.
  now apply HK.
Qed.

Lemma ans_seq (a b : re) (K : cont) (s : st) (c : caps) :
  answers (m f a (fun s' c' => m f b K s' c')) s c P ->
  answers (m f (Seq a b) K) s c P.
Proof. intros H. exact H. Qed.

Lemma ans_bol (K : cont) (s : st) (c : caps) :
  pos s = 0%nat -> answers K s c P -> answers (m f Bol K) s c P.
Proof. intros H0 H. unfold answers. cbn [m]. rewrite H0. exact H. Qed.

End Forward.

(** *** A process definition is matched whole *)

Lemma s2l_process_text (nodeId lbl : string) :
  s2l (process_text nodeId lbl)
  = s2l nodeId ++ "["%char :: Js.dq :: s2l lbl ++ [Js.dq; "]"%char].
Proof.
  unfold process_text, Js.quoted. rewrite !s2l_app. cbn. now rewrite <- !app_assoc.
Qed.

Lemma process_line_match (i0 b0 : ascii) (iw bw : chars) (text : chars) :
  Forall (fun y => Chr.word y = true) (i0 :: iw) ->
  Forall (fun y => no_dq y = true) (b0 :: bw) ->
  text = (i0 :: iw) ++ "["%char :: Js.dq :: (b0 :: bw) ++ [Js.dq; "]"%char] ->
  answers (m no_flags (re_process line_id 2) (fun s' c' => Some (s', c')))
    (start text) []
    (fun res => get_cap 1 (snd res) = Some (i0 :: iw)
                /\ get_cap 2 (snd res) = Some (b0 :: bw)).
Proof.
  intros Hid Hlbl ->.
  unfold re_process, line_id, quoted_label. cbn [seqs].
  apply ans_seq, ans_seq, ans_bol; [reflexivity |].
  unfold ident, idc.
  eapply (ans_grp_plus _ _ 1 Chr.word); [reflexivity | exact Hid | reflexivity |].
  intros s1 M1 R1. apply ans_seq. unfold ws.
  eapply (ans_star _ _ Chr.space _ []); [exact R1 | constructor | reflexivity |].
  intros s2 M2 R2. apply ans_seq.
  eapply (ans_lit _ _ "["); [exact R2 |].
  intros s3 M3 R3. apply ans_seq, ans_seq.
  eapply (ans_star _ _ Chr.space _ []); [exact R3 | constructor | reflexivity |].
  intros s4 M4 R4. apply ans_seq. unfold quote.
  eapply (ans_lit _ _ Js.Q); [exact R4 |].
  intros s5 M5 R5. apply ans_seq. unfold not_quote.
  eapply (ans_grp_plus _ _ 2 (fun c => negb (Chr.eqb c Js.dq)));
    [exact R5 | exact Hlbl | reflexivity |].
  intros s6 M6 R6. apply ans_seq.
  eapply (ans_lit _ _ Js.Q); [exact R6 |].
  intros s7 M7 R7.
  eapply (ans_star _ _ Chr.space _ []); [exact R7 | constructor | reflexivity |].
  intros s8 M8 R8.
  eapply (ans_lit _ _ "]" _ []); [exact R8 |].
  intros s9 M9 R9. eexists. split; [reflexivity |]. cbn [snd]. split.
  - rewrite get_cap_set_other by lia. apply get_cap_set_same.
  - apply get_cap_set_same.
Qed.

Lemma process_line_exec (nodeId lbl : string) :
  is_id nodeId -> is_label lbl ->
  exists r,
    exec no_flags (re_process line_id 2) (process_text nodeId lbl) = Some r
    /\ group 1 r = nodeId /\ group 2 r = lbl.
Proof.
  intros [Hne Hw] [Hle Hl].
  destruct (s2l nodeId) as [|i0 iw] eqn:Ei.
  { destruct nodeId; [contradiction | discriminate Ei]. }
  destruct (s2l lbl) as [|b0 bw] eqn:El.
  { destruct lbl; [contradiction | discriminate El]. }
  destruct (process_line_match i0 b0 iw bw _ Hw Hl eq_refl) as ([e c] & E & H1 & H2).
  cbn [snd] in H1, H2.
  unfold exec, search. rewrite s2l_process_text, Ei, El.
  cbn [start prev pos rest app search_from]. unfold match_at.
  cbn [app] in E. unfold start in E. rewrite E.
  eexists. split; [reflexivity |].
  rewrite !group_mk_result by lia. rewrite H1, H2, <- Ei, <- El.
  now rewrite !l2s_s2l.
Qed.

(** *** The line is not one the parser skips *)

Lemma strip_prefix_word (p : chars) :
  forall (w t : chars),
    Shape.word w ->
    existsb (fun x => negb (Chr.word x)) p = true ->
    ~ In "["%char p ->
    strip_prefix Chr.eqb p (w ++ "["%char :: t) = None.
Proof.
  induction p as [|x p IH]; intros w t Hw Hp Hn; [discriminate Hp |].
  destruct w as [|a w]; cbn [app strip_prefix].
  - destruct (Chr.eqb x "[") eqn:E; [| reflexivity].
    apply Ascii.eqb_eq in E. subst x. exfalso. apply Hn. now left.
  - destruct (Chr.eqb x a) eqn:E; [| reflexivity].
    apply Ascii.eqb_eq in E. subst x.
    unfold Shape.word in Hw. apply Forall_cons in Hw as [Ha Hw].
    cbn [existsb] in Hp. rewrite Ha in Hp. cbn in Hp.
    apply IH; [exact Hw | exact Hp |]. intros H. apply Hn. now right.
Qed.

Lemma process_line_kept (nodeId lbl : string) :
  is_id nodeId -> skipped_line (process_text nodeId lbl) = false.
Proof.
  intros [Hne Hw]. unfold skipped_line, Js.starts_with.
  rewrite s2l_process_text.
  rewrite !(strip_prefix_word _ (s2l nodeId)); try exact Hw; try reflexivity;
    try (cbn; intuition discriminate).
  assert (E : forall v, ~ In "["%char (s2l v) ->
                String.eqb (process_text nodeId lbl) v = false).
  { intros v Hv. apply String.eqb_neq. intros <-. apply Hv.
    rewrite s2l_process_text. apply in_or_app. right. now left. }
  rewrite !E; [reflexivity | |]; cbn; intuition discriminate.
Qed.

(** *** The node of a definition line stays *)

Lemma lined_insert (ns : gmap string Node) (key k : string) (n : Node) :
  lined ns key ->
  (k = key -> is_Some (line n) /\ isImplicit n = false) ->
  lined (<[ k := n ]> ns) key.
Proof.
  intros (x & Hx & Hl & Hi) Hn. destruct (decide (k = key)) as [->|Hne].
  - exists n. rewrite lookup_insert_eq. destruct (Hn eq_refl). auto.
  - exists x. rewrite lookup_insert_ne by exact Hne. auto.
Qed.

Lemma parse_line_lined (i : nat) (l : string) (d : Diagram) (key : string) :
  lined (nodes d) key -> lined (nodes (parse_line i l d)) key.
Proof.
  intros H. unfold parse_line.
  destruct (skipped_line (Js.trim l)); [exact H |].
  destruct (exec no_flags (re_process line_id 2) (Js.trim l)) as [r|].
  { cbn [nodes]. apply lined_insert; [exact H |]. intros _.
    destruct (timed_node_fields process (group 1 r) (group 2 r) i (subgraphList d))
      as (_ & -> & ->). eauto. }
  destruct (exec no_flags (re_decision line_id 2) (Js.trim l)) as [r|].
  { cbn [nodes]. apply lined_insert; [exact H |]. intros _.
    destruct (timed_node_fields decision (group 1 r) (group 2 r) i (subgraphList d))
      as (_ & -> & ->). eauto. }
  destruct (exec no_flags (re_startEnd line_id 2) (Js.trim l)) as [r|].
  { cbn [nodes]. apply lined_insert; [exact H |]. intros _. cbn. eauto. }
  destruct (exec no_flags re_labeled_connection (Js.trim l)) as [r|]; [exact H |].
  destruct (exec no_flags re_basic_connection (Js.trim l)) as [r|]; exact H.
Qed.

Lemma parse_lines_lined (lines : list string) (key : string) :
  forall i d, lined (nodes d) key -> lined (nodes (parse_lines i lines d)) key.
Proof.
  induction lines as [|l lines IH]; intros i d H; cbn [parse_lines]; [exact H |].
  apply IH, parse_line_lined, H.
Qed.

Lemma parse_line_defines (i : nat) (l : string) (d : Diagram) (nodeId lbl : string) :
  Js.trim l = process_text nodeId lbl -> is_id nodeId -> is_label lbl ->
  lined (nodes (parse_line i l d)) nodeId.
Proof.
  intros Ht Hid Hlbl. unfold parse_line. rewrite Ht, (process_line_kept _ _ Hid).
  destruct (process_line_exec nodeId lbl Hid Hlbl) as (r & -> & G1 & G2).
  cbn [nodes]. rewrite G1, G2.
  destruct (timed_node_fields process nodeId lbl i (subgraphList d))
    as (E1 & E2 & E3).
  eexists. rewrite E1, lookup_insert_eq. split; [reflexivity |].
  rewrite E2, E3. eauto.
Qed.

Lemma parse_lines_app (a b : list string) :
  forall i d, parse_lines i (a ++ b) d = parse_lines (i + length a) b (parse_lines i a d).
Proof.
  induction a as [|l a IH]; intros i d; cbn [app parse_lines length].
  - now rewrite Nat.add_0_r.
  - rewrite IH. f_equal. lia.
Qed.

Lemma ensure_endpoint_lined (diagramCode nodeId key : string) (ns : gmap string Node) :
  lined ns key -> lined (ensure_endpoint diagramCode nodeId ns) key.
Proof.
  intros H. unfold ensure_endpoint. destruct (ns !! nodeId) eqn:E; [exact H |].
  apply lined_insert; [exact H |]. intros ->.
  destruct H as (n & Hn & _). rewrite Hn in E. discriminate E.
Qed.

Lemma implicit_nodes_lined (diagramCode key : string) (cs : list Connection) :
  forall ns, lined ns key -> lined (implicit_nodes diagramCode cs ns) key.
Proof.
  induction cs as [|c cs IH]; intros ns H; cbn [implicit_nodes]; [exact H |].
  apply IH. now do 2 apply ensure_endpoint_lined.
Qed.

Lemma comment_line_lined (l key : string) (ns : gmap string Node) :
  lined ns key -> lined (comment_line l ns) key.
Proof.
  intros H. unfold comment_line.
  destruct (Js.starts_with "%%" (Js.trim l) && Js.includes ":" (Js.trim l));
    [| exact H].
  destruct (exec no_flags re_comment (Js.trim l)) as [r|]; [| exact H].
  destruct (ns !! group 1 r) as [n|] eqn:E; [| exact H].
  destruct (isImplicit n || String.eqb (label n) (group 1 r)); [| exact H].
  apply lined_insert; [exact H |]. intros Hk. rewrite Hk in E.
  destruct H as (x & Hx & Hl & Hi). rewrite Hx in E. injection E as <-.
  cbn. auto.
Qed.

Lemma foldl_lined {A} (g : gmap string Node -> A -> gmap string Node) (key : string) :
  (forall ns a, lined ns key -> lined (g ns a) key) ->
  forall l ns, lined ns key -> lined (foldl g ns l) key.
Proof.
  intros Hg. induction l as [|a l IH]; intros ns H; cbn [foldl]; [exact H |].
  apply IH, Hg, H.
Qed.

Lemma connection_target_lined (lines : list string) (conn : Connection) (key : string)
    (ns : gmap string Node) :
  lined ns key -> lined (connection_target lines conn ns) key.
Proof.
  intros H. unfold connection_target.
  destruct (lines !! connLine conn) as [l|]; [| exact H].
  destruct (exec no_flags (re_startEnd (Lit (to conn)) 1) l) as [r|]; [| exact H].
  destruct (negb (String.eqb (to conn) EmptyString)); [| exact H].
  apply lined_insert; [exact H |]. intros _. cbn. eauto.
Qed.

Lemma scan_match_lined (r : result) (key : string) (ns : gmap string Node) :
  lined ns key -> lined (scan_match r ns) key.
Proof.
  intros H. unfold scan_match.
  destruct (ns !! group 1 r) as [n|] eqn:E.
  - destruct (isImplicit n) eqn:Ei; [| exact H].
    apply lined_insert; [exact H |]. intros Hk. rewrite Hk in E.
    destruct H as (x & Hx & _ & Hi). rewrite Hx in E. injection E as <-.
    rewrite Hi in Ei. discriminate Ei.
  - apply lined_insert; [exact H |]. intros Hk. rewrite Hk in E.
    destruct H as (x & Hx & _). rewrite Hx in E. discriminate E.
Qed.

Lemma infer_labels_lined (key : string) (ns : gmap string Node) :
  lined ns key -> lined (infer_labels ns) key.
Proof.
  intros (n & Hn & Hl & Hi). exists (infer_label key n). unfold infer_labels.
  rewrite map_lookup_imap, Hn. cbn. split; [reflexivity |].
  unfold infer_label. destruct (subgraphs n) as [[|t ts]|]; auto.
  destruct ((String.length key =? 1)%nat && String.eqb (label n) key); auto.
Qed.

(** A line that defines a process node gives the parsed diagram a
    node under that id, with a line of its own. *)
Lemma definition_is_parsed (diagramCode l nodeId lbl : string) :
  diagramCode <> EmptyString ->
  l ∈ Js.split_lines diagramCode ->
  Js.trim l = process_text nodeId lbl -> is_id nodeId -> is_label lbl ->
  lined (nodes (parseMermaidDiagram diagramCode)) nodeId.
Proof.
  intros Hne Hin Ht Hid Hlbl. unfold parseMermaidDiagram.
  rewrite (proj2 (String.eqb_neq _ _) Hne). cbv zeta. cbn [nodes].
  apply infer_labels_lined. unfold full_scan.
  apply foldl_lined; [intros; now apply scan_match_lined |].
  unfold connection_targets.
  apply foldl_lined; [intros; now apply connection_target_lined |].
  unfold comment_labels.
  apply foldl_lined; [intros; now apply comment_line_lined |].
  apply implicit_nodes_lined.
  apply list_elem_of_split in Hin as (a & b & ->).
  rewrite parse_lines_app. cbn [parse_lines].
  apply parse_lines_lined. now apply (parse_line_defines _ _ _ nodeId lbl).
Qed.

(** X3: A line that defines a process node, an id, a bracket and a quoted
    label, gives the parsed model a node under that id which records
    a line and is not flagged implicit, whatever else the source
    holds. *)
Theorem process_definitions_are_parsed (diagramCode l nodeId lbl : string) :
  plain diagramCode = true ->
  diagramCode <> EmptyString ->
  l ∈ Js.split_lines diagramCode ->
  Js.trim l = process_text nodeId lbl ->
  is_id nodeId -> is_label lbl ->
  exists n,
    nodes (parseMermaidDiagram diagramCode) !! nodeId = Some n
    /\ is_Some (line n) /\ isImplicit n = false.
Proof.
  intros _ Hne Hin Ht Hid Hlbl.
  exact (definition_is_parsed diagramCode l nodeId lbl Hne Hin Ht Hid Hlbl).
Qed.

Lemma process_definitions_are_parsed_witness :
  exists n,
    nodes (parseMermaidDiagram EditorSamples.one_node) !! "A" = Some n
    /\ is_Some (line n) /\ isImplicit n = false.
Proof.
  apply (process_definitions_are_parsed EditorSamples.one_node
           (process_text "A" "x") "A" "x").
  - vm_compute. reflexivity.
  - discriminate.
  - vm_compute. apply list_elem_of_further, list_elem_of_here.
  - vm_compute. reflexivity.
  - split; [discriminate | repeat constructor].
  - split; [discriminate | repeat constructor].
Defined.

End DefineFacts.
Module TimeFacts.
Import RegExp Metrics Savings TimeSpec MetricsFacts.
Local Open Scope Q_scope.

Lemma digits_value_nonneg (s : string) : (0 <= digits_value s)%Z.
Proof.
  unfold digits_value. generalize (s2l s). intros l.
  assert (H : forall acc, (0 <= acc)%Z ->
            (0 <= fold_left (fun acc c => 10 * acc + Z.of_nat (Chr.code c - 48)) l acc)%Z).
  { induction l as [|x l IH]; intros acc Ha; cbn [fold_left]; [exact Ha |].
    apply IH. lia. }
  apply H. lia.
Qed.

Lemma inject_Z_nonneg (z : Z) : (0 <= z)%Z -> 0 <= inject_Z z.
Proof. intros H. unfold Qle, inject_Z. cbn. lia. Qed.

Lemma group_int_nonneg (n : nat) (r : result) : 0 <= group_int n r.
Proof. apply inject_Z_nonneg, digits_value_nonneg. Qed.

Lemma decimal_value_nonneg (s : string) : 0 <= decimal_value s.
Proof.
  unfold decimal_value.
  destruct (Js.find_sub (s2l ".") (s2l s) 0) as [[i frac]|].
  - rewrite Qred_correct.
    pose proof (inject_Z_nonneg _ (digits_value_nonneg (l2s (take i (s2l s))))) as H1.
    pose proof (inject_Z_nonneg _ (digits_value_nonneg (l2s frac))) as H2.
    assert (H3 : 0 < inject_Z (10 ^ Z.of_nat (length frac))).
    { pose proof (Z.pow_pos_nonneg 10 (Z.of_nat (length frac)) ltac:(lia) ltac:(lia)).
      unfold Qlt, inject_Z. cbn [Qnum Qden]. lia. }
    assert (H4 : 0 <= inject_Z (digits_value (l2s frac))
                      / inject_Z (10 ^ Z.of_nat (length frac))).
    { apply Qle_shift_div_l; [exact H3 |]. now rewrite Qmult_0_l. }
    lra.
  - apply inject_Z_nonneg, digits_value_nonneg.
Qed.

Lemma hours_and_minutes_nonneg (s : string) : 0 <= hours_and_minutes s.
Proof.
  unfold hours_and_minutes.
  destruct (hoursMatch s) as [r|]; destruct (minutesMatch s) as [r'|];
    try pose proof (decimal_value_nonneg (group 1 r));
    try pose proof (decimal_value_nonneg (group 1 r')); lra.
Qed.

Lemma parse_nonneg (timeString : string) (q : Q) :
  parseTimeToMinutes timeString = Some q -> 0 <= q.
Proof.
  unfold parseTimeToMinutes.
  destruct (String.eqb timeString EmptyString || String.eqb timeString "Unknown");
    [discriminate |].
  destruct (weekRangeMatch timeString) as [r|].
  { intros H. injection H as <-. rewrite Qred_correct.
    pose proof (group_int_nonneg 1 r). pose proof (group_int_nonneg 2 r).
    cbv zeta.
    match goal with |- 0 <= ?x =>
      assert (E : x == (group_int 1 r + group_int 2 r) * 1200) by field; rewrite E end.
    lra. }
  destruct (weeksMatch timeString) as [r|].
  { intros H. injection H as <-. rewrite Qred_correct.
    pose proof (group_int_nonneg 1 r). lra. }
  destruct (dayRangeMatch timeString) as [r|].
  { intros H. injection H as <-. rewrite Qred_correct.
    pose proof (group_int_nonneg 1 r). pose proof (group_int_nonneg 2 r).
    cbv zeta.
    match goal with |- 0 <= ?x =>
      assert (E : x == (group_int 1 r + group_int 2 r) * 240) by field; rewrite E end.
    lra. }
  destruct (daysMatch timeString) as [r|].
  { intros H. injection H as <-. rewrite Qred_correct.
    pose proof (group_int_nonneg 1 r). lra. }
  cbv zeta. destruct (Qpos (Qred (hours_and_minutes timeString))); [| discriminate].
  intros H. injection H as <-. rewrite Qred_correct. apply hours_and_minutes_nonneg.
Qed.

(** X9: The parser never returns a negative number of minutes: a sign
    before the digits is not read. *)
Theorem parsed_minutes_are_not_negative (timeString : string) (q : Q) :
  parseTimeToMinutes timeString = Some q -> 0 <= q.
Proof. apply parse_nonneg. Qed.

Lemma parsed_minutes_are_not_negative_witness :
  parseTimeToMinutes "-5 minutes" = Some 5 /\ 0 <= 5.
Proof.
  split; [vm_compute; reflexivity |].
  apply (parsed_minutes_are_not_negative "-5 minutes"). vm_compute. reflexivity.
Defined.

(** *** Savings *)








(** *** The order of the merged steps *)






(** *** Rounding in the formatter *)

Lemma Qfloor_between (z : Z) (q : Q) :
  inject_Z z <= q -> q < inject_Z (z + 1) -> Qfloor q = z.
Proof.
  intros H1 H2. pose proof (Qfloor_le q) as H3. pose proof (Qlt_floor q) as H4.
  assert (H5 : inject_Z z < inject_Z (Qfloor q + 1)) by lra.
  assert (H6 : inject_Z (Qfloor q) < inject_Z (z + 1)) by lra.
  rewrite <- Zlt_Qlt in H5, H6. lia.
Qed.

Lemma Qle_bool_false (a b : Q) : b < a -> Qle_bool a b = false.
Proof.
  intros H. destruct (Qle_bool a b) eqn:E; [| reflexivity].
  apply Qle_bool_iff in E. lra.
Qed.

Lemma Qle_bool_true (a b : Q) : a <= b -> Qle_bool a b = true.
Proof. apply Qle_bool_iff. Qed.

(** X12: The formatter can print 60 minutes: the minutes past the hour are
    rounded after the hours are taken, so a time within half a minute
    of the next hour prints with the old hour and 60 minutes. *)
Theorem sixty_minutes_are_printed (h : Z) (q : Q) :
  (0 <= h <= 23)%Z ->
  inject_Z (60 * h) + 59 + (1 # 2) <= q ->
  q < inject_Z (60 * h) + 60 ->
  formatMinutesToTime (Some q)
  = if (h =? 0)%Z then "60 minutes" else count h "hour" +:+ " 60 minutes".
Proof.
  intros Hh Hlo Hhi. rewrite inject_Z_mult in Hlo, Hhi.
  assert (Hh0 : inject_Z 0 <= inject_Z h) by (rewrite <- Zle_Qle; lia).
  assert (Hh23 : inject_Z h <= inject_Z 23) by (rewrite <- Zle_Qle; lia).
  change (inject_Z 0) with 0 in Hh0. change (inject_Z 23) with 23 in Hh23.
  change (inject_Z 60) with 60 in *.
  unfold formatMinutesToTime.
  rewrite (Qle_bool_true 0 q) by lra.
  rewrite (Qle_bool_false (60 * 24) q) by lra.
  destruct (h =? 0)%Z eqn:E0.
  - apply Z.eqb_eq in E0. subst h. change (inject_Z 0) with 0 in *.
    rewrite (Qle_bool_false 60 q) by lra.
    assert (E : round q = 60%Z).
    { unfold round. apply Qfloor_between; change (inject_Z 60) with 60;
        change (inject_Z (60 + 1)) with 61; lra. }
    rewrite E. reflexivity.
  - apply Z.eqb_neq in E0.
    assert (Hh1 : inject_Z 1 <= inject_Z h) by (rewrite <- Zle_Qle; lia).
    change (inject_Z 1) with 1 in Hh1.
    rewrite (Qle_bool_true 60 q) by lra.
    assert (Ef : floor (q / 60) = h).
    { unfold floor. apply Qfloor_between.
      - apply Qle_shift_div_l; lra.
      - rewrite inject_Z_plus. change (inject_Z 1) with 1.
        apply Qlt_shift_div_r; lra. }
    assert (Er : round (rem q 60) = 60%Z).
    { unfold round, rem. change (inject_Z 60) with 60.
      fold (floor (q / 60)). rewrite Ef, inject_Z_mult. change (inject_Z 60) with 60.
      apply Qfloor_between; change (inject_Z 60) with 60;
        change (inject_Z (60 + 1)) with 61; lra. }
    cbv zeta. rewrite Ef, Er. reflexivity.
Qed.

Lemma sixty_minutes_are_printed_witness :
  formatMinutesToTime (Some (239 # 2)) = "1 hour 60 minutes".
Proof.
  apply (sixty_minutes_are_printed 1 (239 # 2)).
  - lia.
  - vm_compute. discriminate.
  - vm_compute. reflexivity.
Defined.

End TimeFacts.
Module DigitFacts.
Import RegExp Metrics TimeSpec.

(** *** Decimal digits *)

Lemma digit_char_is_digit (k : nat) : (k < 10)%nat -> Chr.digit (Js.digit_char k) = true.
Proof.
  intros H. do 10 (destruct k as [|k]; [reflexivity |]). lia.
Qed.

Lemma digit_char_code (k : nat) : (k < 10)%nat -> Chr.code (Js.digit_char k) = (48 + k)%nat.
Proof.
  intros H. do 10 (destruct k as [|k]; [reflexivity |]). lia.
Qed.

Lemma nat_digits_are_digits (fuel : nat) :
  forall n acc, digits acc -> digits (Js.nat_digits fuel n acc).
Proof.
  induction fuel as [|fuel IH]; intros n acc Ha; cbn [Js.nat_digits]; [exact Ha |].
  assert (Hd : digits (Js.digit_char (n mod 10) :: acc)).
  { constructor; [| exact Ha]. apply digit_char_is_digit.
    apply Nat.mod_upper_bound. lia. }
  destruct (n <? 10)%nat; [exact Hd | now apply IH].
Qed.

Lemma nat_digits_not_empty (fuel n : nat) (acc : chars) :
  Js.nat_digits (S fuel) n acc <> [].
Proof.
  revert n acc. induction fuel as [|fuel IH]; intros n acc; cbn [Js.nat_digits].
  - destruct (n <? 10)%nat; discriminate.
  - destruct (n <? 10)%nat; [discriminate |]. apply IH.
Qed.

Lemma read_from_app (l1 l2 : chars) (a : Z) :
  read_from a (l1 ++ l2) = read_from (read_from a l1) l2.
Proof. unfold read_from. apply fold_left_app. Qed.

Lemma read_from_shift (l : chars) :
  forall a, read_from a l = (a * 10 ^ Z.of_nat (length l) + read_from 0 l)%Z.
Proof.
  induction l as [|x l IH]; intros a.
  - cbn. lia.
  - change (read_from a (x :: l))
      with (read_from (10 * a + Z.of_nat (Chr.code x - 48)) l).
    change (read_from 0 (x :: l))
      with (read_from (10 * 0 + Z.of_nat (Chr.code x - 48)) l).
    rewrite (IH (10 * a + _)%Z), (IH (10 * 0 + _)%Z).
    cbn [length]. rewrite Nat2Z.inj_succ, Z.pow_succ_r by lia. lia.
Qed.

Lemma nat_digits_value (fuel : nat) :
  forall n acc,
    (n < fuel)%nat ->
    read_from 0 (Js.nat_digits fuel n acc)
    = (Z.of_nat n * 10 ^ Z.of_nat (length acc) + read_from 0 acc)%Z.
Proof.
  induction fuel as [|fuel IH]; intros n acc Hn; [lia |].
  cbn [Js.nat_digits].
  assert (Hm : (n mod 10 < 10)%nat) by (apply Nat.mod_upper_bound; lia).
  assert (Hone : read_from 0 (Js.digit_char (n mod 10) :: acc)
                 = (Z.of_nat (n mod 10) * 10 ^ Z.of_nat (length acc) + read_from 0 acc)%Z).
  { change (read_from 0 (Js.digit_char (n mod 10) :: acc))
      with (read_from (10 * 0 + Z.of_nat (Chr.code (Js.digit_char (n mod 10)) - 48)) acc).
    rewrite read_from_shift, digit_char_code by exact Hm.
    replace (48 + n mod 10 - 48)%nat with (n mod 10)%nat by lia. lia. }
  destruct (n <? 10)%nat eqn:E.
  - apply Nat.ltb_lt in E. rewrite Hone, Nat.mod_small by exact E. reflexivity.
  - apply Nat.ltb_ge in E.
    rewrite IH by (apply Nat.Div0.div_lt_upper_bound; lia).
    rewrite Hone. cbn [length]. rewrite Nat2Z.inj_succ, Z.pow_succ_r by lia.
    rewrite (Nat.div_mod_eq n 10) at 3. rewrite Nat2Z.inj_add, Nat2Z.inj_mul. lia.
Qed.

(** What [String(n)] prints reads back as [n]. *)
Lemma string_of_nat_digits (n : nat) :
  exists d ds,
    s2l (Js.string_of_nat n) = d :: ds /\ digits (d :: ds)
    /\ digits_value (Js.string_of_nat n) = Z.of_nat n.
Proof.
  unfold Js.string_of_nat, digits_value. rewrite s2l_l2s.
  pose proof (nat_digits_not_empty n n []) as Hne.
  pose proof (nat_digits_are_digits (S n) n [] ltac:(constructor)) as Hd.
  pose proof (nat_digits_value (S n) n [] ltac:(lia)) as Hv.
  destruct (Js.nat_digits (S n) n []) as [|d ds]; [contradiction |].
  exists d, ds. split; [reflexivity |]. split; [exact Hd |].
  unfold read_from in Hv. rewrite Hv. cbn. lia.
Qed.

Lemma string_of_Z_digits (z : Z) :
  (0 <= z)%Z ->
  exists d ds,
    s2l (Js.string_of_Z z) = d :: ds /\ digits (d :: ds)
    /\ digits_value (Js.string_of_Z z) = z.
Proof.
  intros Hz. destruct (string_of_nat_digits (Z.to_nat z)) as (d & ds & H1 & H2 & H3).
  exists d, ds. unfold Js.string_of_Z. destruct z as [|p|p]; try lia.
  - now repeat split.
  - rewrite H3 in *. repeat split; try assumption. lia.
Qed.

End DigitFacts.
Module UnitFacts.
Import RegExp Pat Semantics SemanticsFacts CaptureFacts GreedyFacts Metrics TimeSpec.

Ltac each_unit x := destruct x as [[] [] [] [] [] [] [] []].

Lemma digit_icase (x : ascii) : in_class flag_i Chr.digit x = Chr.digit x.
Proof. each_unit x; reflexivity. Qed.

Lemma space_icase (x : ascii) : in_class flag_i Chr.space x = Chr.space x.
Proof. each_unit x; reflexivity. Qed.

Lemma digits_icase (ds : chars) :
  digits ds -> Forall (fun x => in_class flag_i Chr.digit x = true) ds.
Proof.
  intros H. eapply Forall_impl; [exact H |]. intros x Hx. now rewrite digit_icase.
Qed.

Lemma accepts_final : accepts (fun s c => Some (s, c)).
Proof. intros s c. eauto. Qed.

Lemma accepts_opt (f : flags) (a : re) (K : cont) :
  accepts K -> accepts (m f (opt a) K).
Proof.
  intros HK s c. unfold opt.
  change (m f (Alt a Eps) K s c)
    with (match m f a K s c with Some x => Some x | None => K s c end).
  destruct (m f a K s c) as [x|]; [eauto | apply HK].
Qed.

(** The digits of a count, then a space. *)
Lemma number_head (K : cont) (d : ascii) (ds t : chars) (s : st) (c : caps)
    (res : st * caps) :
  rest s = (d :: ds) ++ " "%char :: t ->
  digits (d :: ds) ->
  K (after s (d :: ds) (" "%char :: t)) c = Some res ->
  m flag_i number K s c = Some res.
Proof.
  intros Hr Hd HK. unfold number, digit.
  apply (plus_class_max flag_i Chr.digit K d ds (" "%char :: t)); try assumption.
  - now apply digits_icase.
  - reflexivity.
Qed.

Lemma decimal_head (K : cont) (d : ascii) (ds t : chars) (s : st) (c : caps)
    (res : st * caps) :
  rest s = (d :: ds) ++ " "%char :: t ->
  digits (d :: ds) ->
  K (after s (d :: ds) (" "%char :: t)) c = Some res ->
  m flag_i decimal K s c = Some res.
Proof.
  intros Hr Hd HK. unfold decimal.
  change (m flag_i (Seq (plus digit) (opt (Seq (Lit ".") (plus digit)))) K s c)
    with (m flag_i (plus digit)
            (fun s' c' => m flag_i (opt (Seq (Lit ".") (plus digit))) K s' c') s c).
  unfold digit at 1.
  apply (plus_class_max flag_i Chr.digit _ d ds (" "%char :: t)); try assumption.
  - now apply digits_icase.
  - reflexivity.
Qed.

(** A count, a space and the unit word, as the formatter writes
    them, match at their start, and the first group is the count. *)
Lemma counted_unit (num others : re) (word : string) (x d : ascii) (w ds tail : chars)
    (pv : option ascii) (i : nat) :
  num = number \/ num = decimal ->
  s2l word = x :: w -> Chr.space x = false ->
  digits (d :: ds) ->
  binds 1 others = false ->
  exists e c,
    match_at flag_i
      (seqs [Grp 1 num; star ws; Grp 2 (Alt (Lit word) others); opt (Lit "s")])
      (St pv i ((d :: ds) ++ " "%char :: s2l word ++ tail)) = Some (e, c)
    /\ get_cap 1 c = Some (d :: ds).
Proof.
  intros Hnum Hword Hx Hd Hb.
  set (text := (d :: ds) ++ " "%char :: s2l word ++ tail).
  set (s0 := St pv i text).
  set (REST := Seq (star ws) (Seq (Grp 2 (Alt (Lit word) others)) (opt (Lit "s")))).
  set (k0 := fun (s' : st) (c' : caps) => Some (s', c')).
  (* the rest of the pattern accepts after the digits *)
  assert (Hrest : forall c1, exists res,
            m flag_i REST k0 (after s0 (d :: ds) (" "%char :: s2l word ++ tail)) c1
            = Some res).
  { intros c1. unfold REST.
    set (s1 := after s0 (d :: ds) (" "%char :: s2l word ++ tail)).
    set (K2 := fun s' c' =>
                 m flag_i (Seq (Grp 2 (Alt (Lit word) others)) (opt (Lit "s"))) k0 s' c').
    set (s2 := after s1 [" "%char] (s2l word ++ tail)).
    assert (H2 : exists res, K2 s2 c1 = Some res).
    { unfold K2.
      set (K3 := fun s' c' =>
                   m flag_i (opt (Lit "s")) k0 s'
                     (set_cap 2 (take (pos s' - pos s2) (rest s2)) c')).
      change (m flag_i (Seq (Grp 2 (Alt (Lit word) others)) (opt (Lit "s"))) k0 s2 c1)
        with (match m flag_i (Lit word) K3 s2 c1 with
              | Some x => Some x
              | None => m flag_i others K3 s2 c1
              end).
      assert (H3 : exists res, m flag_i (Lit word) K3 s2 c1 = Some res).
      { change (m flag_i (Lit word) K3 s2 c1)
          with (match strip_prefix (unit_eq flag_i) (s2l word) (rest s2) with
                | Some _ => K3 (advance (String.length word) s2) c1
                | None => None
                end).
        change (rest s2) with (s2l word ++ tail). rewrite strip_prefix_self.
        unfold K3.
        apply (accepts_opt flag_i (Lit "s") k0 accepts_final). }
      destruct H3 as [res ->]. eauto. }
    destruct H2 as [res H2]. exists res.
    change (m flag_i (Seq (star ws) (Seq (Grp 2 (Alt (Lit word) others)) (opt (Lit "s"))))
              k0 s1 c1)
      with (m flag_i (star ws) K2 s1 c1).
    unfold ws.
    apply (star_class_max flag_i Chr.space K2 [" "%char] (s2l word ++ tail)).
    - reflexivity.
    - repeat constructor.
    - unfold not_next. rewrite Hword. cbn [app]. rewrite space_icase. exact Hx.
    - exact H2. }
  destruct (Hrest (set_cap 1 (d :: ds) [])) as [[e c] Hres].
  exists e, c. split.
  - unfold match_at. fold k0. fold s0.
    change (m flag_i
              (seqs [Grp 1 num; star ws; Grp 2 (Alt (Lit word) others); opt (Lit "s")])
              k0 s0 [])
      with (m flag_i num
              (fun s' c' =>
                 m flag_i REST k0 s' (set_cap 1 (take (pos s' - pos s0) (rest s0)) c'))
              s0 []).
    assert (HK : (fun s' c' =>
                    m flag_i REST k0 s' (set_cap 1 (take (pos s' - pos s0) (rest s0)) c'))
                   (after s0 (d :: ds) (" "%char :: s2l word ++ tail)) []
                 = Some (e, c)).
    { cbv beta. unfold after at 2. cbn [pos].
      replace (pos s0 + length (d :: ds) - pos s0)%nat with (length (d :: ds)) by lia.
      change (rest s0) with ((d :: ds) ++ " "%char :: s2l word ++ tail).
      rewrite take_app_length. exact Hres. }
    destruct Hnum as [-> | ->].
    + apply (number_head _ d ds (s2l word ++ tail)); [reflexivity | exact Hd | exact HK].
    + apply (decimal_head _ d ds (s2l word ++ tail)); [reflexivity | exact Hd | exact HK].
  - apply m_sound in Hres as (s2 & c2 & Hm & Hk). unfold k0 in Hk.
    injection Hk as <- <-.
    rewrite (matches_frame _ _ _ _ _ _ 1 Hm).
    + apply get_cap_set_same.
    + unfold REST. cbn [binds]. rewrite Hb. reflexivity.
Qed.

(** *** Where the pattern for minutes cannot start *)

Lemma dot_icase (x : ascii) : unit_eq flag_i "."%char x = Chr.eqb "."%char x.
Proof. each_unit x; reflexivity. Qed.

Lemma numeric_not_m (x : ascii) : numeric x = true -> m_like x = false.
Proof. each_unit x; cbn; intros H; try reflexivity; discriminate H. Qed.

Lemma first_of_literal (word : string) (x : ascii) (w w4 : chars) :
  s2l word = x :: w ->
  Forall2 (fun a b => unit_eq flag_i a b = true) (s2l word) w4 ->
  exists y w', w4 = y :: w' /\ unit_eq flag_i x y = true.
Proof.
  intros Hw Hf. rewrite Hw in Hf. inversion Hf; subst. eauto.
Qed.

Lemma digits_numeric (w : chars) :
  Forall (fun x => in_class flag_i Chr.digit x = true) w ->
  Forall (fun y => numeric y = true) w.
Proof.
  intros H. eapply Forall_impl; [exact H |]. intros y Hy. cbv beta in Hy.
  rewrite digit_icase in Hy. unfold numeric. now rewrite Hy.
Qed.

Lemma decimal_moved (s s' : st) (c c' : caps) :
  matches flag_i decimal s c s' c' ->
  exists d u, moved s (d :: u) s' /\ Chr.digit d = true
              /\ Forall (fun y => numeric y = true) (d :: u).
Proof.
  unfold decimal. intros H.
  apply matches_seq_inv in H as (s1 & c1 & H1 & H2).
  apply matches_class_plus in H1 as [-> (w1 & Hw1 & Hne1 & Hd1)].
  destruct w1 as [|d u]; [contradiction |].
  assert (Hd : Chr.digit d = true).
  { apply Forall_cons in Hd1 as [Hd _]. cbv beta in Hd. now rewrite digit_icase in Hd. }
  apply digits_numeric in Hd1.
  unfold opt in H2. apply matches_alt_inv in H2 as [H2|H2].
  - apply matches_seq_inv in H2 as (s2 & c2 & H2 & H3).
    apply matches_lit_moved in H2 as [-> (wd & Hwd & Hfd)].
    apply matches_class_plus in H3 as [-> (w3 & Hw3 & _ & Hd3)].
    exists d, (u ++ wd ++ w3). split; [| split; [exact Hd |]].
    + change (d :: u ++ wd ++ w3) with ((d :: u) ++ wd ++ w3).
      eapply moved_trans; [exact Hw1 |]. eapply moved_trans; eauto.
    + change (d :: u ++ wd ++ w3) with ((d :: u) ++ wd ++ w3).
      apply Forall_app. split; [exact Hd1 |]. apply Forall_app. split.
      * inversion Hfd as [|a b la lb Hab Hrest]; subst.
        inversion Hrest; subst. constructor; [| constructor].
        rewrite dot_icase in Hab. unfold numeric. rewrite Hab.
        now rewrite orb_true_r.
      * now apply digits_numeric.
  - apply matches_eps_inv in H2 as [-> ->]. exists d, u. split; [exact Hw1 | split; [exact Hd | exact Hd1]].
Qed.

Lemma spaces_moved (s s' : st) (c c' : caps) :
  matches flag_i (star ws) s c s' c' ->
  exists sp, moved s sp s' /\ Forall (fun y => numeric y = true) sp.
Proof.
  intros H. apply (matches_class_star flag_i true Chr.space) in H as [_ (sp & Hsp & Hb)];
    [| reflexivity].
  exists sp. split; [exact Hsp |].
  eapply Forall_impl; [exact Hb |]. intros y Hy. cbv beta in Hy.
  rewrite space_icase in Hy. unfold numeric. rewrite Hy. now rewrite orb_true_r.
Qed.

Lemma literal_first (word : string) (x : ascii) (w : chars) (s s' : st) (c c' : caps) :
  s2l word = x :: w ->
  matches flag_i (Lit word) s c s' c' ->
  exists y w', moved s (y :: w') s' /\ unit_eq flag_i x y = true.
Proof.
  intros Hw H. apply matches_lit_moved in H as [_ (w4 & Hw4 & Hf4)].
  eapply first_of_literal in Hf4 as (y & w' & -> & Hy); [| exact Hw]. eauto.
Qed.

Lemma minute_word_moved (s s' : st) (c c' : caps) :
  matches flag_i (alts [Lit "minute"; Lit "minutes"; Lit "min"; Lit "m"]) s c s' c' ->
  exists y w, moved s (y :: w) s' /\ m_like y = true.
Proof.
  cbn [alts]. intros H.
  apply matches_alt_inv in H as [H|H]; [eapply literal_first in H; [exact H | reflexivity] |].
  apply matches_alt_inv in H as [H|H]; [eapply literal_first in H; [exact H | reflexivity] |].
  apply matches_alt_inv in H as [H|H]; [eapply literal_first in H; [exact H | reflexivity] |].
  eapply literal_first in H; [exact H | reflexivity].
Qed.

(** A match of the pattern for minutes takes a digit first, then
    digits, dots and white space, then an [m]. *)
Lemma minutes_shape (s s' : st) (c c' : caps) :
  matches flag_i re_minutes s c s' c' ->
  exists u x tail,
    rest s = u ++ x :: tail
    /\ (exists d u', u = d :: u' /\ Chr.digit d = true)
    /\ Forall (fun y => numeric y = true) u
    /\ m_like x = true.
Proof.
  unfold re_minutes. cbn [seqs]. intros H.
  apply matches_seq_inv in H as (s1 & c1 & H1 & H).
  apply matches_grp_inv in H1 as (c1' & H1).
  apply decimal_moved in H1 as (d & u & Hw1 & Hd & Hn1).
  apply matches_seq_inv in H as (s2 & c2 & H2 & H).
  apply spaces_moved in H2 as (sp & Hsp & Hn2).
  apply matches_seq_inv in H as (s3 & c3 & H3 & _).
  apply matches_grp_inv in H3 as (c3' & H3).
  apply minute_word_moved in H3 as (y & w4 & Hw4 & Hy).
  exists ((d :: u) ++ sp), y, (w4 ++ rest s3).
  split; [| split; [| split; [| exact Hy]]].
  - destruct Hw1 as (E1 & _). destruct Hsp as (E2 & _). destruct Hw4 as (E4 & _).
    rewrite E1, E2, E4. cbn [app]. now rewrite <- !app_assoc.
  - exists d, (u ++ sp). now split.
  - apply Forall_app. now split.
Qed.

(** A stretch of numeric units ended by a unit that is neither
    numeric nor an [m] holds no start of a match. *)
Lemma blocked (a : chars) :
  forall (y : ascii) (t u : chars) (x : ascii) (tail : chars),
    a ++ y :: t = u ++ x :: tail ->
    Forall (fun z => numeric z = true) a ->
    numeric y = false -> m_like y = false ->
    Forall (fun z => numeric z = true) u ->
    m_like x = true -> False.
Proof.
  induction a as [|z a IH]; intros y t u x tail E Ha Hy1 Hy2 Hu Hx.
  - destruct u as [|z' u]; cbn in E; injection E as -> _.
    + rewrite Hx in Hy2. discriminate Hy2.
    + apply Forall_cons in Hu as [Hz _]. rewrite Hz in Hy1. discriminate Hy1.
  - apply Forall_cons in Ha as [Hz Ha]. destruct u as [|z' u]; cbn in E.
    + injection E as -> _. rewrite (numeric_not_m _ Hz) in Hx. discriminate Hx.
    + injection E as _ E. apply Forall_cons in Hu as [_ Hu].
      now apply (IH y t u x tail).
Qed.

Lemma no_minutes_at (l : chars) (pv : option ascii) (idx : nat) :
  (match l with [] => True | d :: _ => Chr.digit d = false end
   \/ exists a y t, l = a ++ y :: t /\ Forall (fun z => numeric z = true) a
                     /\ numeric y = false /\ m_like y = false) ->
  match_at flag_i re_minutes (St pv idx l) = None.
Proof.
  intros Hl. destruct (match_at flag_i re_minutes (St pv idx l)) as [[e c]|] eqn:E;
    [| reflexivity].
  exfalso. apply match_at_sound in E.
  apply minutes_shape in E as (u & x & tail & Hr & (d & u' & -> & Hd) & Hu & Hx).
  cbn [rest] in Hr. destruct Hl as [Hl | (a & y & t & -> & Ha & Hy1 & Hy2)].
  - rewrite Hr in Hl. cbn in Hl. rewrite Hd in Hl. discriminate Hl.
  - exact (blocked a y t (d :: u') x tail Hr Ha Hy1 Hy2 Hu Hx).
Qed.

End UnitFacts.

Module FormatFacts.
Import RegExp Metrics TimeSpec TimeFacts.
Local Open Scope Q_scope.

Lemma floor_whole_div (q : Q) (m d : Z) :
  (0 < d)%Z -> q == inject_Z m -> floor (q / inject_Z d) = (m / d)%Z.
Proof.
  intros Hd Hq. unfold floor. rewrite Hq. destruct d as [|d|d]; try lia.
  unfold Qdiv, Qmult, Qinv, inject_Z, Qfloor. cbn [Qnum Qden].
  rewrite Z.mul_1_r. reflexivity.
Qed.

Lemma rem_whole (m d : Z) :
  (0 < d)%Z -> rem (inject_Z m) d == inject_Z (m mod d).
Proof.
  intros Hd. unfold rem. rewrite (floor_whole_div _ m d Hd) by reflexivity.
  rewrite (Z.mod_eq m d) by lia. unfold Z.sub.
  rewrite inject_Z_plus, inject_Z_opp. reflexivity.
Qed.

Lemma round_whole (q : Q) (m : Z) : q == inject_Z m -> round q = m.
Proof.
  intros Hq. unfold round. rewrite Hq.
  unfold Qplus, inject_Z, Qfloor. cbn [Qnum Qden Pos.mul].
  symmetry. apply (Z.div_unique _ _ _ 1); lia.
Qed.

Lemma Qle_bool_whole (a m : Z) : Qle_bool (inject_Z a) (inject_Z m) = (a <=? m)%Z.
Proof. unfold Qle_bool, inject_Z. cbn [Qnum Qden]. now rewrite !Z.mul_1_r. Qed.

(** What the formatter writes for whole minutes. *)
Lemma format_whole (m : Z) :
  (0 <= m)%Z -> formatMinutesToTime (Some (inject_Z m)) = written m.
Proof.
  intros Hm. unfold formatMinutesToTime, written.
  change 0 with (inject_Z 0). change (60 * 24) with (inject_Z 1440).
  change 60 with (inject_Z 60). change (8 * inject_Z 60) with (inject_Z 480).
  rewrite !Qle_bool_whole. rewrite (proj2 (Z.leb_le 0 m) Hm).
  cbv zeta.
  rewrite (round_whole (rem (inject_Z m) 60) (m mod 60)) by (apply rem_whole; lia).
  rewrite (round_whole (inject_Z m) m) by reflexivity.
  rewrite (floor_whole_div (inject_Z m) m 480) by (try lia; reflexivity).
  rewrite (floor_whole_div (inject_Z m) m 60) by (try lia; reflexivity).
  rewrite (floor_whole_div (rem (inject_Z m) (8 * 60)) (m mod 480) 60)
    by (try lia; apply (rem_whole m 480); lia).
  reflexivity.
Qed.

End FormatFacts.

Module ReadFacts.
Import RegExp Pat Semantics SemanticsFacts CaptureFacts GreedyFacts Metrics TimeSpec.
Import DigitFacts UnitFacts TimeFacts FormatFacts.
Local Open Scope Q_scope.

(** *** Units a text lacks *)

Lemma digit_lacks (ch x : ascii) :
  In ch unit_marks -> Chr.digit x = true -> unit_eq flag_i ch x = false.
Proof.
  intros [<-|[<-|[<-|[<-|[<-|[]]]]]]; each_unit x; cbn; intros H;
    try reflexivity; discriminate H.
Qed.

Lemma lacks_app (ch : ascii) (a b : chars) :
  lacks ch (a ++ b) = lacks ch a && lacks ch b.
Proof. apply forallb_app. Qed.

Lemma lacks_digits (ch : ascii) (l : chars) :
  In ch unit_marks -> digits l -> lacks ch l = true.
Proof.
  intros Hch Hl. apply forallb_forall. intros x Hx.
  unfold digits in Hl. rewrite List.Forall_forall in Hl.
  now rewrite (digit_lacks ch x Hch (Hl x Hx)).
Qed.

Lemma lacks_Forall (ch : ascii) (l : chars) :
  lacks ch l = true -> Forall (fun x => unit_eq flag_i ch x = false) l.
Proof.
  intros H. apply List.Forall_forall. intros x Hx.
  unfold lacks in H. rewrite forallb_forall in H.
  specialize (H x Hx). now apply negb_true_iff in H.
Qed.

Lemma plural_cases (n : Z) : plural n = EmptyString \/ plural n = "s".
Proof. unfold plural. destruct (n =? 1)%Z; auto. Qed.

Lemma s2l_count (n : Z) (word : string) :
  s2l (count n word) = s2l (Js.string_of_Z n) ++ " "%char :: s2l word ++ s2l (plural n).
Proof. unfold count. now rewrite !s2l_app. Qed.

Lemma lacks_count (ch : ascii) (n : Z) (word : string) :
  In ch unit_marks -> (0 <= n)%Z -> lacks ch (s2l word) = true ->
  lacks ch (s2l (count n word)) = true.
Proof.
  intros Hch Hn Hw. rewrite s2l_count.
  destruct (string_of_Z_digits n Hn) as (d & ds & -> & Hd & _).
  rewrite lacks_app, (lacks_digits ch _ Hch Hd).
  change (" "%char :: s2l word ++ s2l (plural n))
    with ([" "%char] ++ s2l word ++ s2l (plural n)).
  rewrite !lacks_app, Hw.
  destruct Hch as [<-|[<-|[<-|[<-|[<-|[]]]]]];
    destruct (plural_cases n) as [-> | ->]; reflexivity.
Qed.

(** *** Reading a count *)

Lemma exec_search (f : flags) (r : re) (text : string) :
  exec f r text
  = match search_from f r None 0 (s2l text) with
    | Some (b, e, c) => Some (mk_result b e c)
    | None => None
    end.
Proof. reflexivity. Qed.

Lemma find_sub_digits (l : chars) :
  digits l -> forall i, Js.find_sub (s2l ".") l i = None.
Proof.
  induction 1 as [|x l Hx Hl IH]; intros i; [reflexivity |].
  cbn [Js.find_sub s2l list_ascii_of_string strip_prefix].
  assert (E : Chr.eqb "."%char x = false).
  { revert Hx. each_unit x; cbn; intros H; try reflexivity; discriminate H. }
  rewrite E. apply IH.
Qed.

Lemma decimal_value_whole (n : Z) :
  (0 <= n)%Z -> decimal_value (Js.string_of_Z n) = inject_Z n.
Proof.
  intros Hn. unfold decimal_value.
  destruct (string_of_Z_digits n Hn) as (d & ds & E & Hd & Hv).
  rewrite E, (find_sub_digits _ Hd). now rewrite Hv.
Qed.

(** A count and its unit word are found after a stretch where the
    pattern matches nowhere, and the first group is the count. *)
Lemma exec_counted (num others : re) (word : string) (x : ascii) (w pre tail : chars)
    (n : Z) (text : string) :
  num = number \/ num = decimal ->
  s2l word = x :: w -> Chr.space x = false ->
  binds 1 others = false ->
  (0 <= n)%Z ->
  s2l text = pre ++ s2l (count n word) ++ tail ->
  (forall j pv idx, (j < length pre)%nat ->
     match_at flag_i
       (seqs [Grp 1 num; star ws; Grp 2 (Alt (Lit word) others); opt (Lit "s")])
       (St pv idx (drop j pre ++ s2l (count n word) ++ tail)) = None) ->
  exists r,
    exec flag_i
      (seqs [Grp 1 num; star ws; Grp 2 (Alt (Lit word) others); opt (Lit "s")]) text
    = Some r
    /\ group 1 r = Js.string_of_Z n.
Proof.
  intros Hnum Hword Hx Hb Hn Htext Hpre.
  rewrite exec_search, Htext, (search_skips _ _ _ pre None 0%nat Hpre).
  destruct (string_of_Z_digits n Hn) as (d & ds & E & Hd & _).
  rewrite s2l_count, E, <- app_assoc.
  change ((" "%char :: s2l word ++ s2l (plural n)) ++ tail)
    with (" "%char :: (s2l word ++ s2l (plural n)) ++ tail).
  rewrite <- (app_assoc (s2l word)).
  destruct (counted_unit num others word x d w ds (s2l (plural n) ++ tail)
              (match last pre with Some y => Some y | None => None end)
              (0 + length pre) Hnum Hword Hx Hd Hb) as (e & c & Hm & Hc).
  destruct ((d :: ds) ++ " "%char :: s2l word ++ s2l (plural n) ++ tail) as [|y l] eqn:El;
    [discriminate El |].
  cbn [search_from]. rewrite Hm. eexists. split; [reflexivity |].
  rewrite group_mk_result by lia. rewrite Hc, <- E. apply l2s_s2l.
Qed.

Lemma exec_lacks (ch : ascii) (r : re) (text : string) :
  takes ch r = true -> lacks ch (s2l text) = true -> exec flag_i r text = None.
Proof. intros Ht Hl. apply (exec_needs _ ch); [exact Ht | now apply lacks_Forall]. Qed.

Lemma not_sentinel (text : string) (d : ascii) (l : chars) :
  s2l text = d :: l -> Chr.digit d = true ->
  String.eqb text EmptyString || String.eqb text "Unknown" = false.
Proof.
  intros E Hd. apply orb_false_iff. split; apply String.eqb_neq; intros ->.
  - discriminate E.
  - injection E as <- _. discriminate Hd.
Qed.

Lemma count_head (n : Z) (word : string) (tail : string) :
  (0 <= n)%Z ->
  exists d l, s2l (count n word +:+ tail) = d :: l /\ Chr.digit d = true.
Proof.
  intros Hn. rewrite s2l_app, s2l_count.
  destruct (string_of_Z_digits n Hn) as (d & ds & -> & Hd & _).
  apply Forall_cons in Hd as [Hd _]. cbn [app]. eauto.
Qed.

Lemma Qred_whole (q : Q) (z : Z) : q == inject_Z z -> Qred q = inject_Z z.
Proof.
  intros H. rewrite (Qred_complete _ _ H). unfold Qred, inject_Z.
  pose proof (Z.ggcd_gcd z 1) as Hg. pose proof (Z.ggcd_correct_divisors z 1) as Hd.
  destruct (Z.ggcd z 1) as [g [a b]]. cbn [fst snd] in *.
  rewrite Z.gcd_1_r in Hg. subst g. destruct Hd as [-> Hb].
  rewrite Z.mul_1_l in Hb. subst b. now rewrite Z.mul_1_l.
Qed.

Lemma Qpos_whole (z : Z) : (0 < z)%Z -> Qpos (inject_Z z) = true.
Proof.
  intros H. unfold Qpos, Qle_bool, inject_Z. cbn [Qnum Qden].
  apply negb_true_iff, Z.leb_gt. lia.
Qed.

Lemma lacks_minutes_part (ch : ascii) (M : Z) :
  In ch unit_marks -> ch <> "m"%char -> (0 <= M)%Z ->
  lacks ch (s2l (minutes_part M)) = true.
Proof.
  intros Hch Hm HM. unfold minutes_part. destruct (0 <? M)%Z; [| reflexivity].
  rewrite s2l_app, lacks_app, lacks_count; try assumption.
  - destruct Hch as [<-|[<-|[<-|[<-|[<-|[]]]]]]; try reflexivity; contradiction.
  - destruct Hch as [<-|[<-|[<-|[<-|[<-|[]]]]]]; try reflexivity; contradiction.
Qed.

Lemma lacks_hours_part (ch : ascii) (H : Z) :
  In ch unit_marks -> ch <> "h"%char -> (0 <= H)%Z ->
  lacks ch (s2l (hours_part H)) = true.
Proof.
  intros Hch Hm HH. unfold hours_part. destruct (0 <? H)%Z; [| reflexivity].
  rewrite s2l_app, lacks_app, lacks_count; try assumption.
  - destruct Hch as [<-|[<-|[<-|[<-|[<-|[]]]]]]; try reflexivity; contradiction.
  - destruct Hch as [<-|[<-|[<-|[<-|[<-|[]]]]]]; try reflexivity; contradiction.
Qed.

(** *** Minutes alone *)

Lemma read_minutes (M : Z) :
  (0 < M)%Z -> parseTimeToMinutes (count M "minute") = Some (inject_Z M).
Proof.
  intros HM. assert (H0 : (0 <= M)%Z) by lia.
  assert (Hl : forall ch, In ch unit_marks -> ch <> "m"%char ->
                 lacks ch (s2l (count M "minute")) = true).
  { intros ch Hch Hne. apply lacks_count; try assumption.
    destruct Hch as [<-|[<-|[<-|[<-|[<-|[]]]]]]; try reflexivity; contradiction. }
  unfold parseTimeToMinutes.
  destruct (count_head M "minute" EmptyString H0) as (d & l & E & Hd).
  replace (count M "minute" +:+ EmptyString) with (count M "minute") in E
    by (now rewrite <- (l2s_s2l (_ +:+ _)), s2l_app, app_nil_r, l2s_s2l).
  rewrite (not_sentinel _ d l E Hd).
  unfold weekRangeMatch, weeksMatch, dayRangeMatch, daysMatch.
  rewrite (exec_lacks "w" re_week_range), (exec_lacks "w" re_weeks),
    (exec_lacks "d" re_day_range), (exec_lacks "d" re_days);
    try reflexivity; try (apply Hl; [cbn; tauto | discriminate]).
  unfold hours_and_minutes, hoursMatch, minutesMatch.
  rewrite (exec_lacks "h" re_hours);
    try reflexivity; try (apply Hl; [cbn; tauto | discriminate]).
  destruct (exec_counted decimal (alts [Lit "minutes"; Lit "min"; Lit "m"]) "minute"
              "m" (s2l "inute") [] [] M (count M "minute"))
    as (r & Hr & Hg); try reflexivity; try assumption; try tauto.
  { cbn [app]. now rewrite app_nil_r. }
  { intros j pv idx Hj. cbn in Hj. lia. }
  change (exec flag_i re_minutes (count M "minute") = Some r) in Hr.
  rewrite Hr, Hg, (decimal_value_whole M H0).
  rewrite (Qred_whole (0 + inject_Z M) M) by ring.
  now rewrite (Qpos_whole M HM).
Qed.

(** *** Hours, then minutes *)

(** No match of the pattern for minutes starts in the hours. *)
Lemma no_minutes_in_hours (pl : string) (tail : chars) :
  pl = EmptyString \/ pl = "s" ->
  forall (ds : chars) (j : nat) (pv : option ascii) (idx : nat),
    digits ds ->
    (j < length (ds ++ s2l " hour" ++ s2l pl ++ [" "%char]))%nat ->
    match_at flag_i re_minutes
      (St pv idx (drop j (ds ++ s2l " hour" ++ s2l pl ++ [" "%char]) ++ tail)) = None.
Proof.
  intros Hpl. induction ds as [|d ds IH]; intros j pv idx Hd Hj.
  - apply no_minutes_at. left.
    destruct Hpl as [-> | ->]; cbn in Hj;
      do 7 (destruct j as [|j]; [first [cbn; reflexivity | lia] |]); lia.
  - unfold digits in Hd. apply Forall_cons in Hd as [Hd Hds]. destruct j as [|j].
    + apply no_minutes_at. right.
      exists ((d :: ds) ++ [" "%char]), "h"%char, (s2l "our" ++ s2l pl ++ [" "%char] ++ tail).
      split; [| split; [| split; reflexivity]].
      * rewrite drop_0, <- !app_assoc. reflexivity.
      * apply Forall_app. split.
        -- apply digits_numeric, digits_icase. now constructor.
        -- repeat constructor.
    + cbn [app drop]. apply IH; [exact Hds |]. cbn [app length] in Hj. lia.
Qed.

Lemma read_hours (H M : Z) :
  (0 < H)%Z -> (0 <= M)%Z ->
  parseTimeToMinutes (count H "hour" +:+ minutes_part M) = Some (inject_Z (60 * H + M)).
Proof.
  intros HH HM. assert (H0 : (0 <= H)%Z) by lia.
  set (text := count H "hour" +:+ minutes_part M).
  assert (Hl : forall ch, In ch unit_marks -> ch <> "m"%char -> ch <> "h"%char ->
                 lacks ch (s2l text) = true).
  { intros ch Hch Hne1 Hne2. unfold text.
    rewrite s2l_app, lacks_app, lacks_count, lacks_minutes_part; try assumption;
      try reflexivity.
    destruct Hch as [<-|[<-|[<-|[<-|[<-|[]]]]]]; try reflexivity; contradiction. }
  unfold parseTimeToMinutes.
  destruct (count_head H "hour" (minutes_part M) H0) as (d & l & E & Hd).
  fold text in E. rewrite (not_sentinel _ d l E Hd).
  unfold weekRangeMatch, weeksMatch, dayRangeMatch, daysMatch.
  rewrite (exec_lacks "w" re_week_range), (exec_lacks "w" re_weeks),
    (exec_lacks "d" re_day_range), (exec_lacks "d" re_days);
    try reflexivity; try (apply Hl; [cbn; tauto | discriminate | discriminate]).
  unfold hours_and_minutes, hoursMatch, minutesMatch.
  destruct (exec_counted decimal (alts [Lit "hours"; Lit "hr"; Lit "h"]) "hour"
              "h" (s2l "our") [] (s2l (minutes_part M)) H text)
    as (r & Hr & Hg); try reflexivity; try assumption; try tauto.
  { unfold text. now rewrite s2l_app. }
  { intros j pv idx Hj. cbn in Hj. lia. }
  change (exec flag_i re_hours text = Some r) in Hr.
  rewrite Hr, Hg, (decimal_value_whole H H0).
  unfold minutes_part in *. destruct (0 <? M)%Z eqn:EM.
  - apply Z.ltb_lt in EM.
    destruct (exec_counted decimal (alts [Lit "minutes"; Lit "min"; Lit "m"]) "minute"
                "m" (s2l "inute") (s2l (count H "hour") ++ [" "%char]) [] M text)
      as (r' & Hr' & Hg'); try reflexivity; try assumption; try tauto.
    { unfold text. rewrite !s2l_app, app_nil_r, <- app_assoc. reflexivity. }
    { intros j pv idx Hj. rewrite s2l_count in Hj |- *.
      destruct (string_of_Z_digits H H0) as (d' & ds' & Ed & Hds & _).
      rewrite Ed in Hj |- *.
      replace (((d' :: ds') ++ " "%char :: s2l "hour" ++ s2l (plural H)) ++ [" "%char])
        with ((d' :: ds') ++ s2l " hour" ++ s2l (plural H) ++ [" "%char]) in Hj |- *
        by (rewrite <- !app_assoc; reflexivity).
      apply no_minutes_in_hours; [apply plural_cases | exact Hds | exact Hj]. }
    change (exec flag_i re_minutes text = Some r') in Hr'.
    rewrite Hr', Hg', (decimal_value_whole M HM).
    rewrite (Qred_whole (0 + inject_Z H * 60 + inject_Z M) (60 * H + M)).
    + rewrite Qpos_whole by lia. reflexivity.
    + rewrite inject_Z_plus, inject_Z_mult. change (inject_Z 60) with 60. ring.
  - apply Z.ltb_ge in EM. assert (M = 0%Z) by lia. subst M.
    rewrite (exec_lacks "m" re_minutes).
    + rewrite (Qred_whole (0 + inject_Z H * 60) (60 * H + 0)).
      * rewrite Qpos_whole by lia. reflexivity.
      * rewrite Z.add_0_r, inject_Z_mult. change (inject_Z 60) with 60. ring.
    + reflexivity.
    + unfold text. rewrite s2l_app, lacks_app, lacks_count; try reflexivity;
        try assumption. cbn; tauto.
Qed.

(** *** Days *)

Lemma read_days (D H M : Z) :
  (0 <= D)%Z -> (0 <= H)%Z -> (0 <= M)%Z ->
  parseTimeToMinutes (count D "day" +:+ hours_part H +:+ minutes_part M)
  = Some (inject_Z (480 * D)).
Proof.
  intros HD HH HM.
  set (text := count D "day" +:+ hours_part H +:+ minutes_part M).
  assert (Hl : forall ch, In ch unit_marks -> ch <> "m"%char -> ch <> "h"%char ->
                 ch <> "d"%char -> lacks ch (s2l text) = true).
  { intros ch Hch Hne1 Hne2 Hne3. unfold text.
    rewrite !s2l_app, !lacks_app, lacks_count, lacks_hours_part, lacks_minutes_part;
      try assumption; try reflexivity.
    destruct Hch as [<-|[<-|[<-|[<-|[<-|[]]]]]]; try reflexivity; contradiction. }
  unfold parseTimeToMinutes.
  destruct (count_head D "day" (hours_part H +:+ minutes_part M) HD) as (d & l & E & Hd).
  fold text in E. rewrite (not_sentinel _ d l E Hd).
  unfold weekRangeMatch, weeksMatch, dayRangeMatch, daysMatch.
  rewrite (exec_lacks "w" re_week_range), (exec_lacks "w" re_weeks),
    (exec_lacks "-" re_day_range);
    try reflexivity;
    try (apply Hl; [cbn; tauto | discriminate | discriminate | discriminate]).
  destruct (exec_counted number (Lit "days") "day"
              "d" (s2l "ay") [] (s2l (hours_part H +:+ minutes_part M)) D text)
    as (r & Hr & Hg); try reflexivity; try assumption; try tauto.
  { unfold text. now rewrite s2l_app. }
  { intros j pv idx Hj. cbn in Hj. lia. }
  change (exec flag_i re_days text = Some r) in Hr.
  rewrite Hr. unfold group_int. rewrite Hg.
  destruct (string_of_Z_digits D HD) as (d' & ds' & _ & _ & ->).
  f_equal. apply Qred_whole. rewrite inject_Z_mult.
  change (inject_Z 480) with 480. ring.
Qed.

(** *** The round trip *)

(** X10: Whole minutes under a day are read back from the text the
    formatter writes for them. *)
Theorem written_minutes_read_back (minutes : Z) :
  (0 < minutes < 1440)%Z ->
  parseTimeToMinutes (formatMinutesToTime (Some (inject_Z minutes)))
  = Some (inject_Z minutes).
Proof.
  intros Hm. rewrite format_whole by lia. unfold written.
  rewrite (proj2 (Z.leb_gt 1440 minutes)) by lia.
  destruct (60 <=? minutes)%Z eqn:E.
  - apply Z.leb_le in E.
    rewrite read_hours.
    + f_equal. f_equal. rewrite (Z.div_mod minutes 60) at 3 by lia. reflexivity.
    + apply Z.div_str_pos. lia.
    + apply Z.mod_pos_bound. lia.
  - apply read_minutes. lia.
Qed.

Lemma written_minutes_read_back_witness :
  formatMinutesToTime (Some 135) = "2 hours 15 minutes"
  /\ parseTimeToMinutes (formatMinutesToTime (Some 135)) = Some 135.
Proof.
  split; [vm_compute; reflexivity |].
  apply (written_minutes_read_back 135). lia.
Defined.

(** X11: From a day on, only the days are read back: a day is written for
    every eight hours, the hours and minutes written after the days
    are not read, and the minutes that come back are 480 for each day
    written. *)
Theorem written_days_lose_the_rest (minutes : Z) :
  (1440 <= minutes <= MAX_SAFE_INTEGER)%Z ->
  parseTimeToMinutes (formatMinutesToTime (Some (inject_Z minutes)))
  = Some (inject_Z (480 * (minutes / 480)))
  /\ (minutes mod 480 <> 0 ->
      parseTimeToMinutes (formatMinutesToTime (Some (inject_Z minutes)))
      <> Some (inject_Z minutes))%Z.
Proof.
  intros Hm. rewrite format_whole by lia. unfold written.
  rewrite (proj2 (Z.leb_le 1440 minutes)) by lia.
  assert (E : parseTimeToMinutes
                (count (minutes / 480) "day" +:+ hours_part (minutes mod 480 / 60)
                 +:+ minutes_part (minutes mod 60))
              = Some (inject_Z (480 * (minutes / 480)))).
  { apply read_days.
    - apply Z.div_pos; lia.
    - apply Z.div_pos; [apply Z.mod_pos_bound |]; lia.
    - apply Z.mod_pos_bound. lia. }
  split; [exact E |].
  intros Hr. rewrite E. intros Heq. injection Heq as Heq.
  pose proof (Z.div_mod minutes 480). lia.
Qed.

Lemma written_days_lose_the_rest_witness :
  formatMinutesToTime (Some 1500) = "3 days 1 hour"
  /\ parseTimeToMinutes (formatMinutesToTime (Some 1500)) = Some 1440.
Proof.
  split; [vm_compute; reflexivity |].
  apply (written_days_lose_the_rest 1500). vm_compute. split; discriminate.
Defined.

End ReadFacts.
Module RowFacts.
Import Document DocumentRows.

Lemma omap_indexed_lookup {A B} (g : nat -> A -> option B) (l : list A) (n : nat) (y : B) :
  omap (fun '(i, x) => g i x) (imap (fun i x => (i, x)) l) !! n = Some y ->
  exists i x, l !! i = Some x /\ g i x = Some y.
Proof.
  intros H. apply list_elem_of_lookup_2 in H.
  apply list_elem_of_omap in H as ([i x] & Hin & Hg).
  apply elem_of_lookup_imap in Hin as (j & z & E & Hl).
  injection E as -> ->. eauto.
Qed.

Lemma at_index_in_range {A} (i : Z) (l : list A) :
  out_of_range i l = false -> exists x, at_index l i = Some x /\ l !! Z.to_nat i = Some x.
Proof.
  unfold out_of_range, at_index. intros H.
  apply orb_false_iff in H as [H1 H2]. rewrite H1.
  apply Z.ltb_ge in H1. apply Z.leb_gt in H2.
  destruct (lookup_lt_is_Some_2 l (Z.to_nat i) ltac:(lia)) as [x Hx]. eauto.
Qed.

Section WithDom.
Variable JSDOM : string -> option Dom.
Variable serialize : Dom -> string.
Variable innerHTML : Dom -> string.
Variable fragment : string -> list Dom.
Variable colSpanOf rowSpanOf : Dom -> Z.
Variable not_a_child : error.

Let parse := parseDocumentContent JSDOM innerHTML colSpanOf rowSpanOf.

(** A section of the parsed document comes from a table of the tree. *)
Lemma section_table (documentContent : string) (si : nat) (section : Section_) :
  sections (parse documentContent) !! si = Some section ->
  exists document table,
    JSDOM documentContent = Some document
    /\ map snd (tables_in document) !! tableIndex section = Some table
    /\ rows section = table_rows innerHTML colSpanOf rowSpanOf table.
Proof.
  unfold parse, parseDocumentContent.
  destruct (String.eqb documentContent EmptyString); [intros H; discriminate H |].
  destruct (JSDOM documentContent) as [document|]; [| intros H; discriminate H].
  cbn [sections]. intros H.
  apply omap_indexed_lookup in H as (j & t & Ht & Hs).
  unfold table_section in Hs.
  destruct (table_rows innerHTML colSpanOf rowSpanOf (snd t)) as [|r rs] eqn:Er;
    [discriminate Hs |].
  injection Hs as <-. cbn [tableIndex rows].
  exists document, (snd t). split; [reflexivity |]. split; [| now rewrite Er].
  rewrite list_lookup_fmap, Ht. reflexivity.
Qed.

(** A row of a section comes from a row of its table, and its cells
    from the cells of that row. *)
Lemma row_cells (table : Dom) (ri : nat) (row : Row) :
  table_rows innerHTML colSpanOf rowSpanOf table !! ri = Some row ->
  exists tr,
    querySelectorAll ["tr"] table !! rowIndex row = Some tr
    /\ cells row = map (cell_data innerHTML colSpanOf rowSpanOf)
                       (querySelectorAll ["th"; "td"] tr).
Proof.
  unfold table_rows. intros H.
  apply omap_indexed_lookup in H as (k & tr & Htr & Hr).
  unfold row_data in Hr.
  destruct ((k =? 0)%nat && spans_columns colSpanOf tr); [discriminate Hr |].
  destruct (querySelectorAll ["th"; "td"] tr) as [|c cs] eqn:Ec; [discriminate Hr |].
  injection Hr as <-. cbn [rowIndex cells]. exists tr. rewrite Ec. now split.
Qed.

Lemma cell_origin (documentContent : string) (si ri ci : nat)
    (section : Section_) (row : Row) (cell : Cell) :
  sections (parse documentContent) !! si = Some section ->
  rows section !! ri = Some row ->
  cells row !! ci = Some cell ->
  exists document table tr td,
    JSDOM documentContent = Some document
    /\ map snd (tables_in document) !! tableIndex section = Some table
    /\ querySelectorAll ["tr"] table !! rowIndex row = Some tr
    /\ querySelectorAll ["th"; "td"] tr !! ci = Some td
    /\ cell = cell_data innerHTML colSpanOf rowSpanOf td.
Proof.
  intros Hs Hr Hc.
  destruct (section_table _ _ _ Hs) as (document & table & Hd & Ht & Erows).
  rewrite Erows in Hr. destruct (row_cells _ _ _ Hr) as (tr & Htr & Ecells).
  rewrite Ecells, list_lookup_fmap in Hc.
  destruct (querySelectorAll ["th"; "td"] tr !! ci) as [td|] eqn:Etd; [| discriminate Hc].
  injection Hc as <-. exists document, table, tr, td. repeat split; assumption.
Qed.

(** X15: The indexes the parser records lead back to what it read: a cell
    of the parsed document is the data of the cell found in the tree
    under the table index of its section, the row index of its row,
    and its own position in the row. *)
Theorem recorded_indexes_lead_back (documentContent : string) (si ri ci : nat)
    (section : Section_) (row : Row) (cell : Cell) :
  sections (parse documentContent) !! si = Some section ->
  rows section !! ri = Some row ->
  cells row !! ci = Some cell ->
  exists document table tr td,
    JSDOM documentContent = Some document
    /\ map snd (tables_in document) !! tableIndex section = Some table
    /\ querySelectorAll ["tr"] table !! rowIndex row = Some tr
    /\ querySelectorAll ["th"; "td"] tr !! ci = Some td
    /\ cell = cell_data innerHTML colSpanOf rowSpanOf td.
Proof. apply cell_origin. Qed.

(** X16: With its three indexes in range, [updateDocumentCell] returns a
    document: none of its later not-found errors can occur. *)
Theorem cell_update_succeeds_in_range (documentContent : string) (u : UpdateInfo)
    (section : Section_) (row : Row) :
  at_index (sections (parse documentContent)) (sectionIndex u) = Some section ->
  at_index (rows section) (updRowIndex u) = Some row ->
  out_of_range (cellIndex u) (cells row) = false ->
  exists tree,
    updateDocumentCell JSDOM serialize innerHTML fragment colSpanOf rowSpanOf
      documentContent u
    = Returned (serialize tree).
Proof.
  intros Hs Hr Hc. unfold updateDocumentCell. fold parse.
  rewrite (DocumentFacts.in_range_at_index _ _ _ Hs), Hs.
  rewrite (DocumentFacts.in_range_at_index _ _ _ Hr), Hr, Hc.
  assert (Hs' : sections (parse documentContent) !! Z.to_nat (sectionIndex u) = Some section).
  { unfold at_index in Hs. now destruct (sectionIndex u <? 0)%Z. }
  assert (Hr' : rows section !! Z.to_nat (updRowIndex u) = Some row).
  { unfold at_index in Hr. now destruct (updRowIndex u <? 0)%Z. }
  destruct (at_index_in_range _ _ Hc) as (cell & Hc1 & Hc2).
  destruct (cell_origin _ _ _ _ _ _ _ Hs' Hr' Hc2)
    as (document & table & tr & td & Hd & Ht & Htr & Htd & _).
  rewrite Hd, Ht, Htr.
  assert (Hat : at_index (querySelectorAll ["th"; "td"] tr) (cellIndex u) = Some td).
  { unfold at_index in *. destruct (cellIndex u <? 0)%Z; [discriminate Hc1 | exact Htd]. }
  rewrite Hat. eauto.
Qed.

(** X17: [removeDocumentRow] checks its indexes like [updateDocumentCell]:
    a section index out of the range of the parsed sections, then a
    row index out of the range of the rows of the section, fail with
    the error that names the index; with both in range it returns the
    document without a row of that table, and none of its later
    not-found errors can occur. *)
Theorem row_removal_validates (documentContent : string) (r : RemoveInfo) :
  let remove := removeDocumentRow JSDOM serialize innerHTML colSpanOf rowSpanOf in
  let sections := sections (parse documentContent) in
  (out_of_range (rmSectionIndex r) sections = true ->
   remove documentContent r = Thrown (invalid "section" (rmSectionIndex r)))
  /\ (forall section,
        at_index sections (rmSectionIndex r) = Some section ->
        (out_of_range (rmRowIndex r) (rows section) = true ->
         remove documentContent r = Thrown (invalid "row" (rmRowIndex r)))
        /\ (forall row,
              at_index (rows section) (rmRowIndex r) = Some row ->
              exists document,
                JSDOM documentContent = Some document
                /\ remove documentContent r
                   = Returned
                       (serialize
                          (edit_table (fun t => fst (remove_nth ["tr"] (rowIndex row) t))
                                      (tableIndex section) document)))).
Proof.
  intros remove secs. subst remove secs. unfold removeDocumentRow. fold parse.
  split.
  - intros H. rewrite H. reflexivity.
  - intros section Hs. rewrite (DocumentFacts.in_range_at_index _ _ _ Hs), Hs. split.
    + intros H. rewrite H. reflexivity.
    + intros row Hr. rewrite (DocumentFacts.in_range_at_index _ _ _ Hr), Hr.
      assert (Hs' : sections (parse documentContent) !! Z.to_nat (rmSectionIndex r)
                    = Some section).
      { unfold at_index in Hs. now destruct (rmSectionIndex r <? 0)%Z. }
      assert (Hr' : rows section !! Z.to_nat (rmRowIndex r) = Some row).
      { unfold at_index in Hr. now destruct (rmRowIndex r <? 0)%Z. }
      destruct (section_table _ _ _ Hs') as (document & table & Hd & Ht & Erows).
      rewrite Erows in Hr'. destruct (row_cells _ _ _ Hr') as (tr & Htr & _).
      exists document. rewrite Hd, Ht, Htr. split; reflexivity.
Qed.

(** X18: For a section of the parsed document, a row added at position -1
    (the position the form asks for) is appended to the table of the
    section as its last child, and the call returns. *)
Theorem row_is_appended (documentContent : string) (a : AddInfo) (section : Section_) :
  at_index (sections (parse documentContent)) (addSectionIndex a) = Some section ->
  position a = (-1)%Z ->
  exists document table,
    JSDOM documentContent = Some document
    /\ map snd (tables_in document) !! tableIndex section = Some table
    /\ addDocumentRow JSDOM serialize innerHTML fragment colSpanOf rowSpanOf not_a_child
         documentContent a
       = Returned
           (serialize
              (edit_table
                 (fun _ => append_child (new_row fragment (cellContents a)) table)
                 (tableIndex section) document)).
Proof.
  intros Hs Hp. unfold addDocumentRow. fold parse.
  rewrite (DocumentFacts.in_range_at_index _ _ _ Hs), Hs.
  assert (Hs' : sections (parse documentContent) !! Z.to_nat (addSectionIndex a)
                = Some section).
  { unfold at_index in Hs. now destruct (addSectionIndex a <? 0)%Z. }
  destruct (section_table _ _ _ Hs') as (document & table & Hd & Ht & _).
  exists document, table. rewrite Hd, Ht. unfold place_row. rewrite Hp.
  cbn [Z.eqb orb]. repeat split.
Qed.

End WithDom.

Import DocumentSamples.

Lemma recorded_indexes_lead_back_witness :
  exists td', mkCell "Sign" "Sign" false 1 1
              = cell_data print_inside span_one span_one td'.
Proof.
  destruct (sections (sample_parse "doc")) as [|s0 l] eqn:E;
    [vm_compute in E; discriminate E |].
  destruct (rows s0) as [|r0 [|r1 rs]] eqn:Er;
    [vm_compute in E; injection E as <- _; vm_compute in Er; discriminate Er
    |vm_compute in E; injection E as <- _; vm_compute in Er; discriminate Er |].
  destruct (cells r1) as [|c0 [|c1 cs]] eqn:Ec;
    [vm_compute in E; injection E as <- _; vm_compute in Er; injection Er as _ <- _;
     vm_compute in Ec; discriminate Ec
    |vm_compute in E; injection E as <- _; vm_compute in Er; injection Er as _ <- _;
     vm_compute in Ec; discriminate Ec |].
  destruct (recorded_indexes_lead_back read_sample print_inside span_one span_one
              "doc" 0 1 1 s0 r1 c1)
    as (document & table & tr & td' & Hd & Ht & Htr & Htd & Hcell).
  - unfold sample_parse in E. rewrite E. reflexivity.
  - rewrite Er. reflexivity.
  - rewrite Ec. reflexivity.
  - exists td'. rewrite <- Hcell. vm_compute in E. injection E as <- _.
    vm_compute in Er. injection Er as _ <- _. vm_compute in Ec. injection Ec as _ <- _.
    reflexivity.
Defined.

Lemma cell_update_succeeds_in_range_witness :
  exists tree, sample_update "doc" (mkUpdate 0 1 1 "Approve") = Returned (print tree).
Proof.
  destruct (sections (sample_parse "doc")) as [|s0 l] eqn:E;
    [vm_compute in E; discriminate E |].
  destruct (rows s0) as [|r0 [|r1 rs]] eqn:Er;
    [vm_compute in E; injection E as <- _; vm_compute in Er; discriminate Er
    |vm_compute in E; injection E as <- _; vm_compute in Er; discriminate Er |].
  apply (cell_update_succeeds_in_range read_sample print print_inside read_text
           span_one span_one "doc" (mkUpdate 0 1 1 "Approve") s0 r1).
  - unfold sample_parse in E. rewrite E. reflexivity.
  - cbn. rewrite Er. reflexivity.
  - vm_compute in E. injection E as <- _. vm_compute in Er. injection Er as _ <- _.
    vm_compute. reflexivity.
Defined.

Lemma row_removal_validates_witness :
  removeDocumentRow read_sample print print_inside span_one span_one "doc" (mkRemove 5 0)
  = Thrown (Error "Invalid section index: 5").
Proof.
  apply (proj1 (row_removal_validates read_sample print print_inside span_one span_one
                  "doc" (mkRemove 5 0))).
  vm_compute. reflexivity.
Defined.

Lemma row_is_appended_witness :
  exists out,
    addDocumentRow read_sample print print_inside read_text span_one span_one TypeError
      "doc" (mkAdd 1 (-1) ["Auditor"; "Checks"]) = Returned out.
Proof.
  destruct (sections (sample_parse "doc")) as [|s0 [|s1 l]] eqn:E;
    [vm_compute in E; discriminate E | vm_compute in E; discriminate E |].
  destruct (row_is_appended read_sample print print_inside read_text span_one span_one
              TypeError "doc" (mkAdd 1 (-1) ["Auditor"; "Checks"]) s1)
    as (document & table & _ & _ & H).
  - unfold sample_parse in E. cbn [addSectionIndex]. rewrite E. reflexivity.
  - reflexivity.
  - eexists. exact H.
Defined.

End RowFacts.

Module EndNodesFacts.
Import RegExp Validator EndNodes.







End EndNodesFacts.
